(** * MUSE remix pipeline: feature extraction and normalisation,
      preference model, profiles, song list, live mix controller and
      separation polling.

    A shallow embedding of the JavaScript sources
    (utils/audioFeatures.js, utils/userPreferenceModel.js, App.js,
    components/Landing.js, components/Mixer.js) and the properties of the
    specification, and of the code beyond it, stated over it. *)

From Stdlib Require Import QArith Qpower Qabs Qround Qminmax ZArith Lia Lqa List Bool.
From stdpp Require Import gmap strings list pretty.
Import ListNotations.

Local Open Scope Z_scope.

(** ** JavaScript numbers

    A JavaScript number is a finite value, one of the two infinities, or
    NaN.  Finite values are kept as exact rationals in lowest terms; the
    sign of zero is not modelled.  The operations [add], [mul], [div] are
    exact: the rounding of a result to binary64 is applied with [binary64]
    where the sources make the result depend on it (the percentage of the
    separation progress).  Everything else that the sources rely on -- NaN
    propagation, the comparisons being false on NaN, [Math.round],
    [Math.min], [Math.max], division by zero -- follows ECMAScript. *)
Module JsNum.

Inductive num : Type :=
| Fin (q : Q)
| PInf
| NInf
| NaN.

Definition of_Z (z : Z) : num := Fin (inject_Z z).

Definition is_nan (x : num) : bool :=
  match x with NaN => true | _ => false end.

(** sign of a rational: [Lt] negative, [Eq] zero, [Gt] positive *)
Definition Qsign (q : Q) : comparison := (q ?= 0)%Q.

Definition inf_of (negative : bool) : num := if negative then NInf else PInf.

Definition neg (x : num) : num :=
  match x with
  | Fin q => Fin (Qred (- q))
  | PInf => NInf
  | NInf => PInf
  | NaN => NaN
  end.

Definition add (x y : num) : num :=
  match x, y with
  | NaN, _ | _, NaN => NaN
  | Fin a, Fin b => Fin (Qred (a + b))
  | PInf, NInf | NInf, PInf => NaN
  | PInf, _ | _, PInf => PInf
  | NInf, _ | _, NInf => NInf
  end.

Definition sub (x y : num) : num := add x (neg y).

(** infinity times a finite value *)
Definition inf_times (negative : bool) (q : Q) : num :=
  match Qsign q with
  | Gt => inf_of negative
  | Lt => inf_of (negb negative)
  | Eq => NaN
  end.

Definition mul (x y : num) : num :=
  match x, y with
  | NaN, _ | _, NaN => NaN
  | Fin a, Fin b => Fin (Qred (a * b))
  | PInf, Fin b | Fin b, PInf => inf_times false b
  | NInf, Fin b | Fin b, NInf => inf_times true b
  | PInf, PInf | NInf, NInf => PInf
  | PInf, NInf | NInf, PInf => NInf
  end.

(** [0/0] and [inf/inf] are NaN, [a/0] is an infinity with the sign of [a]. *)
Definition div (x y : num) : num :=
  match x, y with
  | NaN, _ | _, NaN => NaN
  | Fin a, Fin b =>
      match Qsign b with
      | Eq => inf_times false a
      | _ => Fin (Qred (a / b))
      end
  | Fin _, (PInf | NInf) => Fin 0
  | (PInf | NInf), (PInf | NInf) => NaN
  | PInf, Fin b => match Qsign b with Lt => NInf | _ => PInf end
  | NInf, Fin b => match Qsign b with Lt => PInf | _ => NInf end
  end.

(** the order on numbers; [None] when an operand is NaN *)
Definition cmp (x y : num) : option comparison :=
  match x, y with
  | NaN, _ | _, NaN => None
  | Fin a, Fin b => Some (a ?= b)%Q
  | PInf, PInf | NInf, NInf => Some Eq
  | PInf, _ | _, NInf => Some Gt
  | NInf, _ | _, PInf => Some Lt
  end.

(** [x > y], [x >= y], [x < y]: false as soon as an operand is NaN *)
Definition gtb (x y : num) : bool :=
  match cmp x y with Some Gt => true | _ => false end.
Definition geb (x y : num) : bool :=
  match cmp x y with Some Gt | Some Eq => true | _ => false end.
Definition ltb (x y : num) : bool :=
  match cmp x y with Some Lt => true | _ => false end.
Definition leb (x y : num) : bool :=
  match cmp x y with Some Lt | Some Eq => true | _ => false end.

Definition Math_min (x y : num) : num :=
  match cmp x y with
  | None => NaN
  | Some Gt => y
  | Some _ => x
  end.

Definition Math_max (x y : num) : num :=
  match cmp x y with
  | None => NaN
  | Some Lt => y
  | Some _ => x
  end.

(** [Math.round]: the nearest integer, ties towards +infinity *)
Definition Math_round (x : num) : num :=
  match x with
  | Fin q => of_Z (Qfloor (q + (1 # 2)))
  | _ => x
  end.

Definition Math_floor (x : num) : num :=
  match x with
  | Fin q => of_Z (Qfloor q)
  | _ => x
  end.

Definition Math_abs (x : num) : num :=
  match x with
  | Fin q => Fin (Qred (Qabs q))
  | PInf | NInf => PInf
  | NaN => NaN
  end.

(** truthiness of a number: [0] and NaN are falsy *)
Definition truthy (x : num) : bool :=
  match x with
  | Fin q => negb (Qeq_bool q 0)
  | PInf | NInf => true
  | NaN => false
  end.

(** [a || b] on numbers *)
Definition or_else (a b : num) : num := if truthy a then a else b.

(** *** Rounding to binary64 *)

(** [2^e] *)
Definition pow2 (e : Z) : Q := (2 ^ e)%Q.

(** the exponent [e] of a positive rational: [2^e <= x < 2^(e+1)] *)
Definition binade (x : Q) : Z :=
  let e := (Z.log2 (Qnum x) - Z.log2 (Zpos (Qden x)))%Z in
  if Qle_bool (pow2 e) x then e else (e - 1)%Z.

(** the nearest integer, ties to the even one *)
Definition round_half_even (y : Q) : Z :=
  let f := Qfloor y in
  match (y - inject_Z f ?= 1 # 2)%Q with
  | Lt => f
  | Gt => (f + 1)%Z
  | Eq => if Z.even f then f else (f + 1)%Z
  end.

(** A positive rational rounded to the nearest binary64 value: 53
    significant bits, exponents from -1022 (below it the values are
    subnormal and the spacing stays [2^-1074]) to 1023 (above it the result
    is infinite). *)
Definition binary64_positive (x : Q) : num :=
  let e := Z.max (binade x) (-1022) in
  let ulp := pow2 (e - 52) in
  let r := (inject_Z (round_half_even (x / ulp)) * ulp)%Q in
  if Qle_bool (pow2 1024) r then PInf else Fin (Qred r).

(** the binary64 value nearest to [x] *)
Definition binary64 (x : num) : num :=
  match x with
  | Fin q =>
      match Qsign q with
      | Eq => Fin 0
      | Gt => binary64_positive q
      | Lt => neg (binary64_positive (- q))
      end
  | _ => x
  end.

(** [x] is at least, at most the rational [c] *)
Definition at_least (c : Q) (x : num) : Prop :=
  x = PInf \/ exists r, x = Fin r /\ (c <= r)%Q.

Definition at_most (c : Q) (x : num) : Prop :=
  x = NInf \/ exists r, x = Fin r /\ (r <= c)%Q.

(** [x] is the integer [z] *)
Definition is_int (x : num) (z : Z) : Prop := x = of_Z z.

(** [x] is a finite value or an infinity, not NaN *)
Definition is_number (x : num) : Prop := x <> NaN.

(** [x] is a finite value *)
Definition finite (x : num) : Prop := exists q, x = Fin q.

(** [x] is a finite value between [lo] and [hi] *)
Definition within (lo hi : Q) (x : num) : Prop :=
  exists q, x = Fin q /\ (lo <= q)%Q /\ (q <= hi)%Q.

(** [x] is a finite value, zero or above *)
Definition nonneg (x : num) : Prop := exists q, x = Fin q /\ (0 <= q)%Q.

(** [x] is zero *)
Definition is_zero (x : num) : Prop := exists q, x = Fin q /\ (q == 0)%Q.

End JsNum.

Import JsNum.

Declare Scope num_scope.
Delimit Scope num_scope with num.
Bind Scope num_scope with num.
Notation "x + y" := (add x y) : num_scope.
Notation "x - y" := (sub x y) : num_scope.
Notation "x * y" := (mul x y) : num_scope.
Notation "x / y" := (div x y) : num_scope.

Local Open Scope string_scope.

(** ** utils/audioFeatures.js *)
Module AudioFeatures.

(** The features computed from the decoded buffer, before normalisation
    (the object built in [extractAudioFeatures]). *)
Record RawFeatures := {
  raw_duration : num;
  raw_sampleRate : num;
  raw_rms : num;
  raw_zeroCrossingRate : num;
  raw_spectralCentroid : num;
  raw_spectralRolloff : num;
  raw_spectralFlux : num;
  raw_tempo : num;
  raw_mfcc : list num
}.

(** The object returned by [normalizeFeatures]. *)
Record Features := {
  duration : num;
  sampleRate : num;
  rms : num;
  zeroCrossingRate : num;
  spectralCentroid : num;
  spectralRolloff : num;
  spectralFlux : num;
  tempo : num;
  mfcc0 : num;
  mfcc1 : num;
  mfcc2 : num;
  mfcc3 : num;
  mfcc4 : num
}.

(** Reading index [i] of a numeric array for arithmetic: a missing entry is
    [undefined], which arithmetic turns into NaN. *)
Definition at_index (a : list num) (i : nat) : num := nth i a NaN.

Definition windowSize : nat := 1024.

(** The [for] loop of [calculateSpectralFlux]; [i] advances by [windowSize]
    at each turn, so [length channelData] turns are enough. *)
Fixpoint flux_loop (fuel : nat) (channelData : list num) (i : nat) (flux : num) : num :=
  match fuel with
  | O => flux
  | S fuel' =>
      if (i <? length channelData)%nat then
        let prev := Math_abs (at_index channelData (i - windowSize)) in
        let curr := Math_abs (at_index channelData i) in
        flux_loop fuel' channelData (i + windowSize)
          (flux + Math_max (of_Z 0) (curr - prev))%num
      else flux
  end.

Definition calculateSpectralFlux (channelData : list num) : num :=
  let flux := flux_loop (length channelData) channelData windowSize (of_Z 0) in
  (flux / Math_floor (of_Z (Z.of_nat (length channelData)) / of_Z (Z.of_nat windowSize)))%num.

Definition normalizeFeatures (features : RawFeatures) : Features := {|
  duration := Math_min (raw_duration features / of_Z 300)%num (of_Z 1);
  sampleRate := (raw_sampleRate features / of_Z 48000)%num;
  rms := Math_min (raw_rms features * of_Z 10)%num (of_Z 1);
  zeroCrossingRate := Math_min (raw_zeroCrossingRate features * of_Z 100)%num (of_Z 1);
  spectralCentroid := Math_min (raw_spectralCentroid features / of_Z 10000)%num (of_Z 1);
  spectralRolloff := Math_min (raw_spectralRolloff features / of_Z 10000)%num (of_Z 1);
  spectralFlux := Math_min (raw_spectralFlux features * of_Z 100)%num (of_Z 1);
  tempo := ((raw_tempo features - of_Z 60) / of_Z 120)%num;
  mfcc0 := (at_index (raw_mfcc features) 0 / of_Z 10)%num;
  mfcc1 := (at_index (raw_mfcc features) 1 / of_Z 10)%num;
  mfcc2 := (at_index (raw_mfcc features) 2 / of_Z 10)%num;
  mfcc3 := (at_index (raw_mfcc features) 3 / of_Z 10)%num;
  mfcc4 := (at_index (raw_mfcc features) 4 / of_Z 10)%num
|}.

(** [genreVector[i] = v] on the ten-slot vector *)
Definition set_slot (v : list num) (i : nat) (x : num) : list num := <[i := x]> v.

Definition classifyGenre (features : Features) : list num :=
  let genreVector := repeat (of_Z 0) 10 in
  if gtb (tempo features) (Fin (6 # 10)) && gtb (spectralCentroid features) (Fin (5 # 10)) then
    set_slot genreVector 0 (Fin (8 # 10))
  else if gtb (tempo features) (Fin (5 # 10)) && gtb (rms features) (Fin (7 # 10)) then
    set_slot genreVector 1 (Fin (8 # 10))
  else if gtb (spectralCentroid features) (Fin (6 # 10)) && gtb (spectralFlux features) (Fin (5 # 10)) then
    set_slot genreVector 2 (Fin (8 # 10))
  else if gtb (tempo features) (Fin (55 # 100)) && gtb (zeroCrossingRate features) (Fin (4 # 10)) then
    set_slot genreVector 3 (Fin (8 # 10))
  else
    set_slot genreVector 0 (Fin (3 # 10)).

Definition featuresToVector (features : Features) (genreVector : list num) : list num :=
  [ duration features; sampleRate features; rms features;
    zeroCrossingRate features; spectralCentroid features;
    spectralRolloff features; spectralFlux features; tempo features;
    mfcc0 features; mfcc1 features; mfcc2 features; mfcc3 features;
    mfcc4 features ] ++ genreVector.

(** *** The features computed on the first channel

    [channelData] is [audioBuffer.getChannelData(0)], [sampleRate] is
    [audioContext.sampleRate] and [duration] is [audioBuffer.duration]. *)

(** The [for] loop of [calculateZeroCrossingRate]; [i] advances by one,
    so [length channelData] turns are enough. *)
Fixpoint zeroCrossing_loop (fuel : nat) (channelData : list num) (i crossings : nat) : nat :=
  match fuel with
  | O => crossings
  | S fuel' =>
      if (i <? length channelData)%nat then
        zeroCrossing_loop fuel' channelData (S i)
          (if xorb (geb (at_index channelData i) (of_Z 0))
                   (geb (at_index channelData (i - 1)) (of_Z 0))
           then S crossings else crossings)
      else crossings
  end.

Definition calculateZeroCrossingRate (channelData : list num) : num :=
  let crossings := zeroCrossing_loop (length channelData) channelData 1 0 in
  (of_Z (Z.of_nat crossings) / of_Z (Z.of_nat (length channelData)))%num.

Definition fftSize : nat := 2048.

(** [Math.min(channelData.length, fftSize)] *)
Definition window (channelData : list num) : nat := Nat.min (length channelData) fftSize.

(** [(i * audioContext.sampleRate) / (2 * fftSize)] *)
Definition bin_frequency (i : nat) (sampleRate : num) : num :=
  (of_Z (Z.of_nat i) * sampleRate / of_Z (2 * Z.of_nat fftSize))%num.

(** The loop of [calculateSpectralCentroid]; the pair is
    [(centroid, magnitudeSum)]. *)
Fixpoint centroid_loop (fuel : nat) (channelData : list num) (sampleRate : num)
    (samples i : nat) (centroid magnitudeSum : num) : num * num :=
  match fuel with
  | O => (centroid, magnitudeSum)
  | S fuel' =>
      if (i <? samples)%nat then
        let freq := bin_frequency i sampleRate in
        let magnitude := Math_abs (at_index channelData i) in
        centroid_loop fuel' channelData sampleRate samples (S i)
          (centroid + freq * magnitude)%num (magnitudeSum + magnitude)%num
      else (centroid, magnitudeSum)
  end.

Definition calculateSpectralCentroid (channelData : list num) (sampleRate : num) : num :=
  let samples := window channelData in
  let '(centroid, magnitudeSum) :=
    centroid_loop samples channelData sampleRate samples 0 (of_Z 0) (of_Z 0) in
  if gtb magnitudeSum (of_Z 0) then (centroid / magnitudeSum)%num else of_Z 0.

(** What the loop of [calculateSpectralCentroid] keeps true of its pair on
    finite samples, [s] being the sample rate: both sums are finite and
    zero or above, and the weighted sum is at most half the sample rate
    times the plain sum. *)
Definition centroid_inv (s : Q) (p : num * num) : Prop :=
  exists c m, p = (Fin c, Fin m) /\ (0 <= c)%Q /\ (0 <= m)%Q /\ (c <= (1 # 2) * s * m)%Q.

(** The first loop of [calculateSpectralRolloff] *)
Fixpoint totalEnergy_loop (fuel : nat) (channelData : list num)
    (samples i : nat) (totalEnergy : num) : num :=
  match fuel with
  | O => totalEnergy
  | S fuel' =>
      if (i <? samples)%nat then
        totalEnergy_loop fuel' channelData samples (S i)
          (totalEnergy + Math_abs (at_index channelData i))%num
      else totalEnergy
  end.

(** The second loop of [calculateSpectralRolloff]: [Some] is the value it
    returns from inside, [None] means that it ran to its end. *)
Fixpoint rolloff_loop (fuel : nat) (channelData : list num) (sampleRate : num)
    (samples i : nat) (cumulativeEnergy threshold : num) : option num :=
  match fuel with
  | O => None
  | S fuel' =>
      if (i <? samples)%nat then
        let cumulativeEnergy := (cumulativeEnergy + Math_abs (at_index channelData i))%num in
        if geb cumulativeEnergy threshold then Some (bin_frequency i sampleRate)
        else rolloff_loop fuel' channelData sampleRate samples (S i) cumulativeEnergy threshold
      else None
  end.

Definition calculateSpectralRolloff (channelData : list num) (sampleRate : num) : num :=
  let samples := window channelData in
  let totalEnergy := totalEnergy_loop samples channelData samples 0 (of_Z 0) in
  let threshold := (Fin (85 # 100) * totalEnergy)%num in
  match rolloff_loop samples channelData sampleRate samples 0 (of_Z 0) threshold with
  | Some rolloff => rolloff
  | None => (sampleRate / of_Z 2 * Fin (85 # 100))%num
  end.

Definition tempoWindow : nat := 4096.

(** The inner loop of [estimateTempo], from [j] up to [stop] *)
Fixpoint windowEnergy_loop (fuel : nat) (channelData : list num)
    (stop j : nat) (energy : num) : num :=
  match fuel with
  | O => energy
  | S fuel' =>
      if (j <? stop)%nat then
        windowEnergy_loop fuel' channelData stop (S j)
          (energy + at_index channelData j * at_index channelData j)%num
      else energy
  end.

(** The outer loop of [estimateTempo]; [i] advances by [tempoWindow]. *)
Fixpoint energies_loop (fuel : nat) (channelData : list num)
    (i : nat) (energies : list num) : list num :=
  match fuel with
  | O => energies
  | S fuel' =>
      if (i <? length channelData)%nat then
        let energy :=
          windowEnergy_loop tempoWindow channelData
            (Nat.min (i + tempoWindow) (length channelData)) i (of_Z 0) in
        energies_loop fuel' channelData (i + tempoWindow) (energies ++ [energy])%list
      else energies
  end.

(** The loop that counts the peaks, for [i] from 1 while
    [i < energies.length - 1] *)
Fixpoint peaks_loop (fuel : nat) (energies : list num) (i peaks : nat) : nat :=
  match fuel with
  | O => peaks
  | S fuel' =>
      if (Z.of_nat i <? Z.of_nat (length energies) - 1)%Z then
        peaks_loop fuel' energies (S i)
          (if gtb (at_index energies i) (at_index energies (i - 1))
              && gtb (at_index energies i) (at_index energies (i + 1))
           then S peaks else peaks)
      else peaks
  end.

Definition estimateTempo (channelData : list num) (duration : num) : num :=
  let energies := energies_loop (length channelData) channelData 0 [] in
  let peaks := peaks_loop (length energies) energies 1 0 in
  let bpm := (of_Z (Z.of_nat peaks) / duration * of_Z 60)%num in
  Math_max (of_Z 60) (Math_min (of_Z 180) bpm).

End AudioFeatures.

(** ** The four gains *)
Record GainSettings := {
  vocals : num;
  drums : num;
  bass : num;
  other : num
}.

(** A saved mix, as [Mixer.handleSave] builds it and [JSON] stores it; a
    song saved by an older version carries neither gains nor features. *)
Record Song := {
  title : string;
  artist : string;
  details : string;
  gains : option GainSettings;
  features : option (list num)
}.

(** ** utils/userPreferenceModel.js

    The TensorFlow.js calls are modelled as far as the sources fix them:
    [tf.sequential] of dense layers computes, for each unit [j],
    [activation (sum_i x_i * kernel[i][j] + bias[j])]; biases start at zero
    (the library default, no [biasInitializer] is given) and kernels at the
    values drawn by [glorotUniform], which are passed in as [draw].  The
    hyperbolic tangent on finite values and the optimiser behind
    [model.fit] are parameters; the optimiser may throw. *)
Module UserPreferenceModel.

Inductive Activation := relu | tanh.

Record Dense := {
  kernel : list (list num);   (* one row per input, one column per unit *)
  bias : list num;
  activation : Activation
}.

Definition Sequential := list Dense.

(** What [saveWeights] serialises: kernel and bias of every layer. *)
Definition WeightData := list (list (list num) * list num).

(** One call of [model.fit]: the rows of the two tensors and the options. *)
Record FitCall := {
  fit_inputs : list (list num);
  fit_targets : list (list num);
  fit_epochs : nat;
  fit_batchSize : nat
}.

(** The browser around the model: [localStorage], the console, and the
    calls made to [model.fit], whether they returned or threw. *)
Record Env := {
  localStorage : gmap string WeightData;
  console : list string;
  fitCalls : list FitCall
}.

(** The fields of a [UserPreferenceModel] object. *)
Record Model := {
  userId : string;
  model : option Sequential;
  isInitialized : bool
}.

Definition constructor (userId : string) : Model :=
  {| userId := userId; model := None; isInitialized := false |}.

Definition inputSize : nat := 23.
Definition outputSize : nat := 4.

Definition log (msg : string) (env : Env) : Env :=
  {| localStorage := localStorage env;
     console := console env ++ [msg];
     fitCalls := fitCalls env |}.

Definition storage_key (self : Model) : string := "userModel_" ++ userId self.

Definition getWeights (m : Sequential) : WeightData :=
  map (fun l => (kernel l, bias l)) m.

Definition setWeights (m : Sequential) (w : WeightData) : Sequential :=
  zip_with (fun l kb => {| kernel := fst kb; bias := snd kb; activation := activation l |}) m w.

Section Library.

Variable tanhQ : Q -> Q.

(** The optimiser: the fitted network, or [None] when it throws (as it
    does, for one, while another call of [fit] on the model is running). *)
Variable fit : Sequential -> FitCall -> option Sequential.

Definition activate (a : Activation) (x : num) : num :=
  match a with
  | relu => Math_max (of_Z 0) x
  | tanh =>
      match x with
      | Fin q => Fin (Qred (tanhQ q))
      | PInf => of_Z 1
      | NInf => of_Z (-1)
      | NaN => NaN
      end
  end.

(** [sum_i x_i * kernel[i][j]] *)
Definition dot (x : list num) (k : list (list num)) (j : nat) : num :=
  fold_left add (zip_with (fun xi row => (xi * nth j row (of_Z 0))%num) x k) (of_Z 0).

Definition apply_dense (l : Dense) (x : list num) : list num :=
  imap (fun j b => activate (activation l) (dot x (kernel l) j + b)%num) (bias l).

(** the layers applied in turn *)
Definition forward (m : Sequential) (x : list num) : list num :=
  fold_left (fun v l => apply_dense l v) m x.

(** [model.predict(tf.tensor2d([x]))] followed by [prediction.data()].  The
    tensor has the shape [[1, x.length]]; the model checks it against the
    [inputShape] it was created with and throws when they differ: [None]. *)
Definition model_predict (m : Sequential) (x : list num) : option (list num) :=
  if (length x =? inputSize)%nat then Some (forward m x) else None.

(** [model.fit] on the tensors made from the rows of a call.  The input
    tensor has the shape [[n, length of the first row]]; the model checks
    it against its [inputShape] and throws when they differ, and so does
    [tf.tensor2d] on no rows at all; otherwise the optimiser runs. *)
Definition model_fit (m : Sequential) (c : FitCall) : option Sequential :=
  match fit_inputs c with
  | x :: _ => if (length x =? inputSize)%nat then fit m c else None
  | [] => None
  end.

Definition dense (k : list (list Q)) (units : nat) (a : Activation) : Dense :=
  {| kernel := map (map Fin) k; bias := repeat (of_Z 0) units; activation := a |}.

(** The four kernels drawn by [glorotUniform]; the draws are finite. *)
Record Draw := {
  draw1 : list (list Q);
  draw2 : list (list Q);
  draw3 : list (list Q);
  draw4 : list (list Q)
}.

Definition createModel (draw : Draw) : Sequential :=
  [ dense (draw1 draw) 64 relu;
    dense (draw2 draw) 32 relu;
    dense (draw3 draw) 16 relu;
    dense (draw4 draw) outputSize tanh ].

Definition loadWeights (self : Model) (env : Env) : option WeightData :=
  localStorage env !! storage_key self.

Definition saveWeights (self : Model) (env : Env) : Env :=
  match model self with
  | None => env
  | Some m =>
      {| localStorage := <[storage_key self := getWeights m]> (localStorage env);
         console := console env;
         fitCalls := fitCalls env |}
  end.

Definition initialize (draw : Draw) (self : Model) (env : Env) : Model * Env :=
  if isInitialized self then (self, env)
  else
    match loadWeights self env with
    | Some savedWeights =>
        ({| userId := userId self;
            model := Some (setWeights (createModel draw) savedWeights);
            isInitialized := true |},
         log ("Loaded model for user: " ++ userId self) env)
    | None =>
        ({| userId := userId self;
            model := Some (createModel draw);
            isInitialized := true |},
         log ("Created new model for user: " ++ userId self) env)
    end.

(** [Math.round(values[i] * 18 - 6)] and the clamp that follows it *)
Definition to_dB (values : list num) (i : nat) : num :=
  Math_round (AudioFeatures.at_index values i * of_Z 18 - of_Z 6)%num.

Definition clamp_dB (g : num) : num :=
  Math_max (of_Z (-24)) (Math_min (of_Z 12) g).

Definition gains_of_values (values : list num) : GainSettings :=
  {| vocals := clamp_dB (to_dB values 0);
     drums := clamp_dB (to_dB values 1);
     bass := clamp_dB (to_dB values 2);
     other := clamp_dB (to_dB values 3) |}.

(** [predict]; [None] stands for an exception: the [TypeError] of calling
    a method of a [null] model, or the error that [model.predict] throws
    on an input of the wrong shape. *)
Definition predict (draw : Draw) (self : Model) (env : Env) (features : list num)
  : Model * Env * option GainSettings :=
  let '(self, env) := if isInitialized self then (self, env) else initialize draw self env in
  match model self with
  | None => (self, env, None)
  | Some m => (self, env, gains_of_values <$> model_predict m features)
  end.

Definition normalize_gain (g : num) : num := ((g + of_Z 6) / of_Z 18)%num.

Definition normalizedGains (g : GainSettings) : list num :=
  [ normalize_gain (vocals g); normalize_gain (drums g);
    normalize_gain (bass g); normalize_gain (other g) ].

(** [await this.model.fit(...)]: the call is recorded; when it returns,
    the model is the fitted one ([model.fit] trains the network in place);
    when it throws ([None]), the model is as it was. *)
Definition run_fit (self : Model) (env : Env) (m : Sequential) (c : FitCall)
  : option Model * Env :=
  ((fun fitted => {| userId := userId self; model := Some fitted;
                     isInitialized := isInitialized self |}) <$> model_fit m c,
   {| localStorage := localStorage env;
      console := console env;
      fitCalls := fitCalls env ++ [c] |}).

(** [train]; the boolean tells whether the call returned ([true]) or threw:
    an exception of [model.fit] leaves [train] before [saveWeights]. *)
Definition train (draw : Draw) (self : Model) (env : Env)
    (features : list num) (actualGains : GainSettings) : Model * Env * bool :=
  let '(self, env) := if isInitialized self then (self, env) else initialize draw self env in
  match model self with
  | None => (self, env, false)
  | Some m =>
      match run_fit self env m
              {| fit_inputs := [features];
                 fit_targets := [normalizedGains actualGains];
                 fit_epochs := 5;
                 fit_batchSize := 1 |} with
      | (None, env) => (self, env, false)
      | (Some self, env) =>
          let env := saveWeights self env in
          (self, log ("Model trained with new example for user: " ++ userId self) env, true)
      end
  end.

(** a song that has both features and gains *)
Definition training_pair (song : Song) : option (list num * GainSettings) :=
  match features song, gains song with
  | Some f, Some g => Some (f, g)
  | _, _ => None
  end.

Definition is_valid_song (song : Song) : bool :=
  match training_pair song with Some _ => true | None => false end.

(** [batchTrain]; the boolean as for [train]. *)
Definition batchTrain (draw : Draw) (self : Model) (env : Env) (songs : list Song)
  : Model * Env * bool :=
  let '(self, env) := if isInitialized self then (self, env) else initialize draw self env in
  let validSongs := List.filter is_valid_song songs in
  if (length validSongs =? 0)%nat then
    (self, log ("No valid training data for user: " ++ userId self) env, true)
  else
    match model self with
    | None => (self, env, false)
    | Some m =>
        let pairs := omap training_pair validSongs in
        match run_fit self env m
                {| fit_inputs := map fst pairs;
                   fit_targets := map (fun p => normalizedGains (snd p)) pairs;
                   fit_epochs := 10;
                   fit_batchSize := Nat.min (length validSongs) 8 |} with
        | (None, env) => (self, env, false)
        | (Some self, env) =>
            let env := saveWeights self env in
            (self,
             log ("Model batch trained with " ++ pretty (length validSongs)
                  ++ " examples for user: " ++ userId self) env,
             true)
        end
    end.

End Library.

(** What [getStats] returns. *)
Record Stats := {
  stats_exists : bool;
  stats_userId : string;
  stats_isInitialized : bool
}.

Definition getStats (self : Model) (env : Env) : Stats :=
  {| stats_exists := bool_decide (is_Some (localStorage env !! storage_key self));
     stats_userId := userId self;
     stats_isInitialized := isInitialized self |}.




End UserPreferenceModel.

(** ** App.js: the per-user song list and the model it trains *)
Module App.

Import UserPreferenceModel.

Record State := {
  user : option string;
  tab : string;
  songsByUser : gmap string (list Song);
  userModelRef : option Model;
  env : Env;
  alerts : list string
}.

(** How a handler ends: the component renders the new state, or the
    updater it passed to [setSongsByUser] throws while React computes the
    new state.  Nothing in the sources catches that error: no state comes
    out of the handler, and what is left is what it did to the browser. *)
Inductive Outcome :=
| Rendered (st : State)
| Thrown (e : Env).

Definition and_then (o : Outcome) (handler : State -> Outcome) : Outcome :=
  match o with
  | Rendered st => handler st
  | Thrown e => Thrown e
  end.

(** [!user] is true for [null] and for the empty string. *)
Definition selected_user (st : State) : option string :=
  match user st with
  | Some u => if decide (u = "") then None else Some u
  | None => None
  end.

Definition same_song (mix s : Song) : bool :=
  bool_decide (title s = title mix) && bool_decide (details s = details mix).

(** The names that every object inherits from [Object.prototype]. *)
Definition inherited : list string :=
  [ "constructor"; "hasOwnProperty"; "isPrototypeOf"; "propertyIsEnumerable";
    "toLocaleString"; "toString"; "valueOf"; "__proto__";
    "__defineGetter__"; "__defineSetter__"; "__lookupGetter__"; "__lookupSetter__" ].

(** [prev[user] || []] as far as an array method can be called on it: the
    list that the object holds under the name; without one, the value
    inherited under that name, if any, which is a function (the prototype
    itself for [__proto__]), hence truthy and without array methods:
    [None]; otherwise [undefined || []]. *)
Definition songs_of (prev : gmap string (list Song)) (u : string) : option (list Song) :=
  match prev !! u with
  | Some list => Some list
  | None => if bool_decide (u ∈ inherited) then None else Some []
  end.

(** The updater passed to [setSongsByUser] in [handleSaveMix]; [None]
    stands for the [TypeError] of [list.some] on a value that has no such
    method. *)
Definition save_updater (u : string) (mix : Song)
    (prev : gmap string (list Song)) : option (gmap string (list Song)) :=
  match songs_of prev u with
  | None => None
  | Some list =>
      let duplicate := existsb (same_song mix) list in
      Some (if duplicate then prev else <[u := (list ++ [mix])%list]> prev)
  end.

Section Library.

Variable fit : Sequential -> FitCall -> option Sequential.

Definition handleSaveMix (draw : Draw) (st : State) (mix : Song) : Outcome :=
  match selected_user st with
  | None =>
      Rendered
        {| user := user st; tab := tab st; songsByUser := songsByUser st;
           userModelRef := userModelRef st; env := env st;
           alerts := (alerts st ++ ["Select a user first!"])%list |}
  | Some u =>
      let '(ref, e) :=
        match userModelRef st, features mix, gains mix with
        | Some m, Some f, Some g =>
            let '(m', e', returned) := train fit draw m (env st) f g in
            (Some m',
             if returned then log "Model trained with saved mix" e'
             else log "Error training model:" e')
        | _, _, _ => (userModelRef st, env st)
        end in
      match save_updater u mix (songsByUser st) with
      | None => Thrown e
      | Some songs =>
          Rendered
            {| user := user st;
               tab := "mysongs";
               songsByUser := songs;
               userModelRef := ref;
               env := e;
               alerts := alerts st |}
      end
  end.

(** [userSongs.filter((_, idx) => idx !== songIndex)] *)
Definition remove_index (songIndex : nat) (userSongs : list Song) : list Song :=
  map snd (List.filter (fun p => negb (fst p =? songIndex)%nat)
             (combine (seq 0 (length userSongs)) userSongs)).

(** [handleDeleteSong]; the updater trains from within, after the
    [filter] that throws on a value without array methods. *)
Definition handleDeleteSong (draw : Draw) (st : State) (songIndex : nat) : Outcome :=
  match selected_user st with
  | None => Rendered st
  | Some u =>
    match songs_of (songsByUser st) u with
    | None => Thrown (env st)
    | Some userSongs =>
      let updatedSongs := remove_index songIndex userSongs in
      let '(ref, e) :=
        match userModelRef st with
        | Some m =>
            if isInitialized m then
              if (0 <? length updatedSongs)%nat then
                let '(m', e', returned) := batchTrain fit draw m (env st) updatedSongs in
                (Some m',
                 if returned then e'
                 else log "Error retraining model after deletion:" e')
              else
                (Some m,
                 log "No songs remaining, model will use default predictions" (env st))
            else (Some m, env st)
        | None => (None, env st)
        end in
      Rendered
        {| user := user st;
           tab := tab st;
           songsByUser := <[u := updatedSongs]> (songsByUser st);
           userModelRef := ref;
           env := e;
           alerts := alerts st |}
    end
  end.

End Library.

End App.

(** ** The audio elements ([new Audio(url)]) *)
Module Audio.

Record t := {
  src : string;
  currentTime : num;
  duration : num;
  volume : num;
  paused : bool;
  readyState : nat
}.

Definition set_currentTime (v : num) (a : t) : t :=
  {| src := src a; currentTime := v; duration := duration a;
     volume := volume a; paused := paused a; readyState := readyState a |}.

Definition set_duration (v : num) (a : t) : t :=
  {| src := src a; currentTime := currentTime a; duration := v;
     volume := volume a; paused := paused a; readyState := readyState a |}.

Definition set_volume (v : num) (a : t) : t :=
  {| src := src a; currentTime := currentTime a; duration := duration a;
     volume := v; paused := paused a; readyState := readyState a |}.

Definition set_paused (v : bool) (a : t) : t :=
  {| src := src a; currentTime := currentTime a; duration := duration a;
     volume := volume a; paused := v; readyState := readyState a |}.

Definition set_readyState (v : nat) (a : t) : t :=
  {| src := src a; currentTime := currentTime a; duration := duration a;
     volume := volume a; paused := paused a; readyState := v |}.

(** [new Audio(src)]: not yet loaded, paused, at full volume *)
Definition create (src : string) : t :=
  {| src := src; currentTime := of_Z 0; duration := NaN; volume := of_Z 1;
     paused := true; readyState := 0 |}.

End Audio.

(** ** components/Mixer.js

    The component is modelled as an event loop over its state: the React
    state and refs, and the part of the browser it talks to (timers, audio
    elements, requests in flight).  Each handler of the source is a
    function on this state; an [async] function is cut at its [await]s, the
    variables its closure keeps being stored with the pending
    continuation. *)
Module Mixer.

Inductive Stem := Vocals | Drums | Bass | Other.

Definition get_gain (key : Stem) (g : GainSettings) : num :=
  match key with
  | Vocals => vocals g
  | Drums => drums g
  | Bass => bass g
  | Other => other g
  end.

(** [{ ...gains, [key]: v }] *)
Definition set_gain (key : Stem) (v : num) (g : GainSettings) : GainSettings :=
  match key with
  | Vocals => {| vocals := v; drums := drums g; bass := bass g; other := other g |}
  | Drums => {| vocals := vocals g; drums := v; bass := bass g; other := other g |}
  | Bass => {| vocals := vocals g; drums := drums g; bass := v; other := other g |}
  | Other => {| vocals := vocals g; drums := drums g; bass := bass g; other := v |}
  end.

(** The requests sent to the backend. *)
Inductive Request :=
| MixRequest (g : GainSettings)        (* POST /mix with the four gains *)
| ProgressRequest                      (* GET /separation_progress *)
| StartSeparationRequest.              (* POST /start_separation *)

(** The JSON body of a response, as far as the component reads it. *)
Record Body := {
  b_path : option string;
  b_status : option string;
  b_progress : option num
}.

(** How a [fetch] followed by [resp.json()] can end. *)
Inductive Response :=
| NetworkError                         (* fetch rejects *)
| NotOk (status : nat)                 (* resp.ok is false *)
| BadJson                              (* resp.json() rejects *)
| Json (data : Body).

(** What [updatePlayingAudio] saves before it awaits the render. *)
Record Captured := {
  c_currentTime : num;
  c_wasPlaying : bool;
  c_oldAudio : nat;
  c_oldVolume : num
}.

(** The code waiting for a response. *)
Inductive Continuation :=
| KUpdate (c : Captured)               (* updatePlayingAudio, after fetch *)
| KPlay                                (* playMix, after fetch *)
| KPoll                                (* pollProgress, after fetch *)
| KStart.                              (* handleUpload, after fetch *)

(** The callbacks given to [setTimeout] and [setInterval]. *)
Inductive Callback :=
| CbUpdatePlayingAudio (newGains : GainSettings)
| CbFallback (h : nat)
| CbFade (h : nat)
| CbAlert (msg : string)
| CbPoll
| CbAutoPlay (g : GainSettings).       (* of the [autoPlay] effect *)

Record Timer := {
  timer_id : positive;
  due : nat;                           (* in milliseconds *)
  period : option nat;                 (* [Some p] for setInterval *)
  callback : Callback
}.

(** One live update after its render arrived: the closure of
    [handleCanPlay] and of the fade interval.  A handover is known by the
    index of its new audio element. *)
Record Handover := {
  h_currentTime : num;
  h_wasPlaying : bool;
  h_oldAudio : nat;
  h_oldVolume : num;
  h_newAudio : nat;
  h_listening : bool;
  crossfadeStarted : bool;
  h_playPending : bool;
  h_step : nat;
  h_fadeInterval : option positive;
  h_fallbackTimeout : positive
}.

Definition with_h_listening (v : bool) (h : Handover) : Handover :=
  {| h_currentTime := h_currentTime h; h_wasPlaying := h_wasPlaying h;
     h_oldAudio := h_oldAudio h; h_oldVolume := h_oldVolume h;
     h_newAudio := h_newAudio h; h_listening := v;
     crossfadeStarted := crossfadeStarted h;
     h_playPending := h_playPending h; h_step := h_step h;
     h_fadeInterval := h_fadeInterval h;
     h_fallbackTimeout := h_fallbackTimeout h |}.

Definition with_crossfadeStarted (v : bool) (h : Handover) : Handover :=
  {| h_currentTime := h_currentTime h; h_wasPlaying := h_wasPlaying h;
     h_oldAudio := h_oldAudio h; h_oldVolume := h_oldVolume h;
     h_newAudio := h_newAudio h; h_listening := h_listening h;
     crossfadeStarted := v; h_playPending := h_playPending h;
     h_step := h_step h; h_fadeInterval := h_fadeInterval h;
     h_fallbackTimeout := h_fallbackTimeout h |}.

Definition with_h_playPending (v : bool) (h : Handover) : Handover :=
  {| h_currentTime := h_currentTime h; h_wasPlaying := h_wasPlaying h;
     h_oldAudio := h_oldAudio h; h_oldVolume := h_oldVolume h;
     h_newAudio := h_newAudio h; h_listening := h_listening h;
     crossfadeStarted := crossfadeStarted h; h_playPending := v;
     h_step := h_step h; h_fadeInterval := h_fadeInterval h;
     h_fallbackTimeout := h_fallbackTimeout h |}.

Definition with_h_step (v : nat) (h : Handover) : Handover :=
  {| h_currentTime := h_currentTime h; h_wasPlaying := h_wasPlaying h;
     h_oldAudio := h_oldAudio h; h_oldVolume := h_oldVolume h;
     h_newAudio := h_newAudio h; h_listening := h_listening h;
     crossfadeStarted := crossfadeStarted h;
     h_playPending := h_playPending h; h_step := v;
     h_fadeInterval := h_fadeInterval h;
     h_fallbackTimeout := h_fallbackTimeout h |}.

Definition with_h_fadeInterval (v : option positive) (h : Handover) : Handover :=
  {| h_currentTime := h_currentTime h; h_wasPlaying := h_wasPlaying h;
     h_oldAudio := h_oldAudio h; h_oldVolume := h_oldVolume h;
     h_newAudio := h_newAudio h; h_listening := h_listening h;
     crossfadeStarted := crossfadeStarted h;
     h_playPending := h_playPending h; h_step := h_step h;
     h_fadeInterval := v; h_fallbackTimeout := h_fallbackTimeout h |}.

Record State := {
  gains : GainSettings;
  playing : bool;
  paused : bool;
  separating : bool;
  progress : num;
  audioRef : option nat;
  progressIntervalRef : option positive;
  updateTimeoutRef : option positive;
  now : nat;
  nextTimer : positive;
  timers : list Timer;
  audios : list Audio.t;
  requests : list Request;
  awaiting : gmap nat Continuation;
  handovers : gmap nat Handover;
  starting : list nat;
  plays : list nat;
  alerts : list string;
  console : list string
}.

Definition set_gains (v : GainSettings) (st : State) : State :=
  {| gains := v; playing := playing st; paused := paused st;
     separating := separating st; progress := progress st;
     audioRef := audioRef st; progressIntervalRef := progressIntervalRef st;
     updateTimeoutRef := updateTimeoutRef st; now := now st;
     nextTimer := nextTimer st; timers := timers st; audios := audios st;
     requests := requests st; awaiting := awaiting st;
     handovers := handovers st; starting := starting st; plays := plays st;
     alerts := alerts st; console := console st |}.

Definition set_playing (v : bool) (st : State) : State :=
  {| gains := gains st; playing := v; paused := paused st;
     separating := separating st; progress := progress st;
     audioRef := audioRef st; progressIntervalRef := progressIntervalRef st;
     updateTimeoutRef := updateTimeoutRef st; now := now st;
     nextTimer := nextTimer st; timers := timers st; audios := audios st;
     requests := requests st; awaiting := awaiting st;
     handovers := handovers st; starting := starting st; plays := plays st;
     alerts := alerts st; console := console st |}.

Definition set_paused (v : bool) (st : State) : State :=
  {| gains := gains st; playing := playing st; paused := v;
     separating := separating st; progress := progress st;
     audioRef := audioRef st; progressIntervalRef := progressIntervalRef st;
     updateTimeoutRef := updateTimeoutRef st; now := now st;
     nextTimer := nextTimer st; timers := timers st; audios := audios st;
     requests := requests st; awaiting := awaiting st;
     handovers := handovers st; starting := starting st; plays := plays st;
     alerts := alerts st; console := console st |}.

Definition set_separating (v : bool) (st : State) : State :=
  {| gains := gains st; playing := playing st; paused := paused st;
     separating := v; progress := progress st; audioRef := audioRef st;
     progressIntervalRef := progressIntervalRef st;
     updateTimeoutRef := updateTimeoutRef st; now := now st;
     nextTimer := nextTimer st; timers := timers st; audios := audios st;
     requests := requests st; awaiting := awaiting st;
     handovers := handovers st; starting := starting st; plays := plays st;
     alerts := alerts st; console := console st |}.

Definition set_progress (v : num) (st : State) : State :=
  {| gains := gains st; playing := playing st; paused := paused st;
     separating := separating st; progress := v; audioRef := audioRef st;
     progressIntervalRef := progressIntervalRef st;
     updateTimeoutRef := updateTimeoutRef st; now := now st;
     nextTimer := nextTimer st; timers := timers st; audios := audios st;
     requests := requests st; awaiting := awaiting st;
     handovers := handovers st; starting := starting st; plays := plays st;
     alerts := alerts st; console := console st |}.

Definition set_audioRef (v : option nat) (st : State) : State :=
  {| gains := gains st; playing := playing st; paused := paused st;
     separating := separating st; progress := progress st; audioRef := v;
     progressIntervalRef := progressIntervalRef st;
     updateTimeoutRef := updateTimeoutRef st; now := now st;
     nextTimer := nextTimer st; timers := timers st; audios := audios st;
     requests := requests st; awaiting := awaiting st;
     handovers := handovers st; starting := starting st; plays := plays st;
     alerts := alerts st; console := console st |}.

Definition set_progressIntervalRef (v : option positive) (st : State) : State :=
  {| gains := gains st; playing := playing st; paused := paused st;
     separating := separating st; progress := progress st;
     audioRef := audioRef st; progressIntervalRef := v;
     updateTimeoutRef := updateTimeoutRef st; now := now st;
     nextTimer := nextTimer st; timers := timers st; audios := audios st;
     requests := requests st; awaiting := awaiting st;
     handovers := handovers st; starting := starting st; plays := plays st;
     alerts := alerts st; console := console st |}.

Definition set_updateTimeoutRef (v : option positive) (st : State) : State :=
  {| gains := gains st; playing := playing st; paused := paused st;
     separating := separating st; progress := progress st;
     audioRef := audioRef st; progressIntervalRef := progressIntervalRef st;
     updateTimeoutRef := v; now := now st; nextTimer := nextTimer st;
     timers := timers st; audios := audios st; requests := requests st;
     awaiting := awaiting st; handovers := handovers st;
     starting := starting st; plays := plays st; alerts := alerts st;
     console := console st |}.

Definition set_now (v : nat) (st : State) : State :=
  {| gains := gains st; playing := playing st; paused := paused st;
     separating := separating st; progress := progress st;
     audioRef := audioRef st; progressIntervalRef := progressIntervalRef st;
     updateTimeoutRef := updateTimeoutRef st; now := v;
     nextTimer := nextTimer st; timers := timers st; audios := audios st;
     requests := requests st; awaiting := awaiting st;
     handovers := handovers st; starting := starting st; plays := plays st;
     alerts := alerts st; console := console st |}.

Definition set_nextTimer (v : positive) (st : State) : State :=
  {| gains := gains st; playing := playing st; paused := paused st;
     separating := separating st; progress := progress st;
     audioRef := audioRef st; progressIntervalRef := progressIntervalRef st;
     updateTimeoutRef := updateTimeoutRef st; now := now st; nextTimer := v;
     timers := timers st; audios := audios st; requests := requests st;
     awaiting := awaiting st; handovers := handovers st;
     starting := starting st; plays := plays st; alerts := alerts st;
     console := console st |}.

Definition set_timers (v : list Timer) (st : State) : State :=
  {| gains := gains st; playing := playing st; paused := paused st;
     separating := separating st; progress := progress st;
     audioRef := audioRef st; progressIntervalRef := progressIntervalRef st;
     updateTimeoutRef := updateTimeoutRef st; now := now st;
     nextTimer := nextTimer st; timers := v; audios := audios st;
     requests := requests st; awaiting := awaiting st;
     handovers := handovers st; starting := starting st; plays := plays st;
     alerts := alerts st; console := console st |}.

Definition set_audios (v : list Audio.t) (st : State) : State :=
  {| gains := gains st; playing := playing st; paused := paused st;
     separating := separating st; progress := progress st;
     audioRef := audioRef st; progressIntervalRef := progressIntervalRef st;
     updateTimeoutRef := updateTimeoutRef st; now := now st;
     nextTimer := nextTimer st; timers := timers st; audios := v;
     requests := requests st; awaiting := awaiting st;
     handovers := handovers st; starting := starting st; plays := plays st;
     alerts := alerts st; console := console st |}.

Definition set_requests (v : list Request) (st : State) : State :=
  {| gains := gains st; playing := playing st; paused := paused st;
     separating := separating st; progress := progress st;
     audioRef := audioRef st; progressIntervalRef := progressIntervalRef st;
     updateTimeoutRef := updateTimeoutRef st; now := now st;
     nextTimer := nextTimer st; timers := timers st; audios := audios st;
     requests := v; awaiting := awaiting st; handovers := handovers st;
     starting := starting st; plays := plays st; alerts := alerts st;
     console := console st |}.

Definition set_awaiting (v : gmap nat Continuation) (st : State) : State :=
  {| gains := gains st; playing := playing st; paused := paused st;
     separating := separating st; progress := progress st;
     audioRef := audioRef st; progressIntervalRef := progressIntervalRef st;
     updateTimeoutRef := updateTimeoutRef st; now := now st;
     nextTimer := nextTimer st; timers := timers st; audios := audios st;
     requests := requests st; awaiting := v; handovers := handovers st;
     starting := starting st; plays := plays st; alerts := alerts st;
     console := console st |}.

Definition set_handovers (v : gmap nat Handover) (st : State) : State :=
  {| gains := gains st; playing := playing st; paused := paused st;
     separating := separating st; progress := progress st;
     audioRef := audioRef st; progressIntervalRef := progressIntervalRef st;
     updateTimeoutRef := updateTimeoutRef st; now := now st;
     nextTimer := nextTimer st; timers := timers st; audios := audios st;
     requests := requests st; awaiting := awaiting st; handovers := v;
     starting := starting st; plays := plays st; alerts := alerts st;
     console := console st |}.

Definition set_starting (v : list nat) (st : State) : State :=
  {| gains := gains st; playing := playing st; paused := paused st;
     separating := separating st; progress := progress st;
     audioRef := audioRef st; progressIntervalRef := progressIntervalRef st;
     updateTimeoutRef := updateTimeoutRef st; now := now st;
     nextTimer := nextTimer st; timers := timers st; audios := audios st;
     requests := requests st; awaiting := awaiting st;
     handovers := handovers st; starting := v; plays := plays st;
     alerts := alerts st; console := console st |}.

Definition set_plays (v : list nat) (st : State) : State :=
  {| gains := gains st; playing := playing st; paused := paused st;
     separating := separating st; progress := progress st;
     audioRef := audioRef st; progressIntervalRef := progressIntervalRef st;
     updateTimeoutRef := updateTimeoutRef st; now := now st;
     nextTimer := nextTimer st; timers := timers st; audios := audios st;
     requests := requests st; awaiting := awaiting st;
     handovers := handovers st; starting := starting st; plays := v;
     alerts := alerts st; console := console st |}.

Definition set_alerts (v : list string) (st : State) : State :=
  {| gains := gains st; playing := playing st; paused := paused st;
     separating := separating st; progress := progress st;
     audioRef := audioRef st; progressIntervalRef := progressIntervalRef st;
     updateTimeoutRef := updateTimeoutRef st; now := now st;
     nextTimer := nextTimer st; timers := timers st; audios := audios st;
     requests := requests st; awaiting := awaiting st;
     handovers := handovers st; starting := starting st; plays := plays st;
     alerts := v; console := console st |}.

Definition set_console (v : list string) (st : State) : State :=
  {| gains := gains st; playing := playing st; paused := paused st;
     separating := separating st; progress := progress st;
     audioRef := audioRef st; progressIntervalRef := progressIntervalRef st;
     updateTimeoutRef := updateTimeoutRef st; now := now st;
     nextTimer := nextTimer st; timers := timers st; audios := audios st;
     requests := requests st; awaiting := awaiting st;
     handovers := handovers st; starting := starting st; plays := plays st;
     alerts := alerts st; console := v |}.

(** *** The browser *)

Definition setTimeout (cb : Callback) (delay : nat) (st : State) : State * positive :=
  let id := nextTimer st in
  (set_nextTimer (Pos.succ id)
     (set_timers (timers st ++ [{| timer_id := id; due := now st + delay;
                                   period := None; callback := cb |}]) st),
   id).

Definition setInterval (cb : Callback) (delay : nat) (st : State) : State * positive :=
  let id := nextTimer st in
  (set_nextTimer (Pos.succ id)
     (set_timers (timers st ++ [{| timer_id := id; due := now st + delay;
                                   period := Some delay; callback := cb |}]) st),
   id).

(** [clearTimeout(id)] and [clearInterval(id)] *)
Definition clearTimer (id : positive) (st : State) : State :=
  set_timers (List.filter (fun t => negb (Pos.eqb (timer_id t) id)) (timers st)) st.

Definition console_error (msg : string) (st : State) : State :=
  set_console (console st ++ [msg]) st.

Definition alert (msg : string) (st : State) : State :=
  set_alerts (alerts st ++ [msg]) st.

(** [fetch]: the request leaves, its continuation waits under the index of
    the request. *)
Definition fetch (req : Request) (k : Continuation) (st : State) : State :=
  set_awaiting (<[length (requests st) := k]> (awaiting st))
    (set_requests (requests st ++ [req]) st).

(** The component as mounted, with the props [initialGains] and
    [autoPlay]: nothing plays; with [autoPlay] the effect arms the timeout
    that calls [playMix] 100 ms later.  The [playMix] it calls is the one of
    the first render, which reads the gains of that render. *)
Definition mount (initialGains : option GainSettings) (autoPlay : bool) : State :=
  let gains :=
    default {| vocals := of_Z 0; drums := of_Z 0; bass := of_Z 0; other := of_Z 0 |}
      initialGains in
  let st :=
    {| gains := gains;
       playing := false; paused := false; separating := false; progress := of_Z 0;
       audioRef := None; progressIntervalRef := None; updateTimeoutRef := None;
       now := 0; nextTimer := 1%positive; timers := []; audios := [];
       requests := []; awaiting := ∅; handovers := ∅;
       starting := []; plays := []; alerts := []; console := [] |} in
  if autoPlay then fst (setTimeout (CbAutoPlay gains) 100 st) else st.

(** a method call or an assignment on the audio element [a] *)
Definition on_audio (a : nat) (f : Audio.t -> Audio.t) (st : State) : State :=
  set_audios (alter f a (audios st)) st.

Definition on_handover (id : nat) (f : Handover -> Handover) (st : State) : State :=
  set_handovers (alter f id (handovers st)) st.

(** *** Slider edits *)

(** [handleChange]; [val] is the integer that [parseInt] reads from the
    value of the range input. *)
Definition handleChange (key : Stem) (val : Z) (st : State) : State :=
  let newGains := set_gain key (of_Z val) (gains st) in
  let st := set_gains newGains st in
  if playing st && negb (paused st) && bool_decide (is_Some (audioRef st)) then
    let st := match updateTimeoutRef st with
              | Some id => clearTimer id st
              | None => st
              end in
    let '(st, id) := setTimeout (CbUpdatePlayingAudio newGains) 200 st in
    set_updateTimeoutRef (Some id) st
  else st.

(** *** Live update *)

(** [updatePlayingAudio] up to [await fetch] *)
Definition updatePlayingAudio (newGains : GainSettings) (st : State) : State :=
  match audioRef st with
  | None => st
  | Some a =>
      match audios st !! a with
      | None => st
      | Some oldAudio =>
          fetch (MixRequest newGains)
            (KUpdate {| c_currentTime := Audio.currentTime oldAudio;
                        c_wasPlaying := negb (Audio.paused oldAudio);
                        c_oldAudio := a;
                        c_oldVolume := Audio.volume oldAudio |}) st
      end
  end.

(** [!data.path] *)
Definition usable_path (data : Body) : option string :=
  match b_path data with
  | Some p => if decide (p = "") then None else Some p
  | None => None
  end.

(** [updatePlayingAudio] from the response on: the [catch] logs every
    failure; a usable path creates the new element at volume 0, arms the
    fallback timeout and starts loading. *)
Definition updatePlayingAudio_response (c : Captured) (r : Response) (st : State) : State :=
  match r with
  | NetworkError | NotOk _ | BadJson => console_error "Error updating audio:" st
  | Json data =>
      match usable_path data with
      | None => console_error "Error updating audio:" st
      | Some path =>
          let id := length (audios st) in
          let newAudio := Audio.set_volume (of_Z 0) (Audio.create ("http://127.0.0.1:8000" ++ path)) in
          let st := set_audios (audios st ++ [newAudio]) st in
          let '(st, fallbackTimeout) := setTimeout (CbFallback id) 500 st in
          set_handovers
            (<[id := {| h_currentTime := c_currentTime c;
                        h_wasPlaying := c_wasPlaying c;
                        h_oldAudio := c_oldAudio c;
                        h_oldVolume := c_oldVolume c;
                        h_newAudio := id;
                        h_listening := true;
                        crossfadeStarted := false;
                        h_playPending := false;
                        h_step := 0;
                        h_fadeInterval := None;
                        h_fallbackTimeout := fallbackTimeout |}]> (handovers st)) st
      end
  end.

(** the swap of the live reference: [oldAudio.pause()],
    [audioRef.current = newAudio], [newAudio.volume = 1] *)
Definition swap (h : Handover) (st : State) : State :=
  on_audio (h_newAudio h) (Audio.set_volume (of_Z 1))
    (set_audioRef (Some (h_newAudio h))
       (on_audio (h_oldAudio h) (Audio.set_paused true) st)).

(** [handleCanPlay] up to [await newAudio.play()] *)
Definition handleCanPlay (id : nat) (st : State) : State :=
  match handovers st !! id with
  | None => st
  | Some h =>
      if crossfadeStarted h then st
      else
        match audios st !! h_newAudio h with
        | None => st
        | Some newAudio =>
            let st := on_handover id (with_crossfadeStarted true) st in
            let targetTime :=
              Math_min (h_currentTime h)
                (or_else (Audio.duration newAudio) (h_currentTime h)) in
            let st := on_audio (h_newAudio h) (Audio.set_currentTime targetTime) st in
            if h_wasPlaying h then
              on_handover id (with_h_playPending true)
                (set_plays (plays st ++ [h_newAudio h]) st)
            else swap h st
        end
  end.

Definition fadeDuration : nat := 150.
Definition steps : nat := 30.
Definition stepTime : nat := fadeDuration / steps.
Definition volumeStep : num := (of_Z 1 / of_Z (Z.of_nat steps))%num.

(** [handleCanPlay] after [await newAudio.play()]: the fade interval when
    the promise resolved, the fallback of the [catch] when it rejected *)
Definition handleCanPlay_played (id : nat) (ok : bool) (st : State) : State :=
  match handovers st !! id with
  | None => st
  | Some h =>
      if h_playPending h then
        let st := on_handover id (with_h_playPending false) st in
        if ok then
          let st := on_audio (h_newAudio h) (Audio.set_paused false) st in
          let '(st, fadeInterval) := setInterval (CbFade id) stepTime st in
          on_handover id (with_h_fadeInterval (Some fadeInterval)) st
        else
          let st := console_error "Error playing updated audio:" st in
          let st := swap h st in
          if h_wasPlaying h then set_plays (plays st ++ [h_newAudio h]) st else st
      else st
  end.

(** [Math.min(step * volumeStep, 1)] and [Math.max(1 - step * volumeStep, 0)] *)
Definition newVolume_at (step : nat) : num :=
  Math_min (of_Z (Z.of_nat step) * volumeStep)%num (of_Z 1).

Definition oldVolume_at (step : nat) : num :=
  Math_max (of_Z 1 - of_Z (Z.of_nat step) * volumeStep)%num (of_Z 0).

(** the callback of [fadeInterval] *)
Definition fade_tick (id : nat) (st : State) : State :=
  match handovers st !! id with
  | None => st
  | Some h =>
      let step := S (h_step h) in
      let st := on_handover id (with_h_step step) st in
      let newVolume := newVolume_at step in
      let oldVolumeNew := oldVolume_at step in
      let st := on_audio (h_newAudio h) (Audio.set_volume newVolume) st in
      let distinct := negb (h_oldAudio h =? h_newAudio h)%nat in
      let old_playing :=
        match audios st !! h_oldAudio h with
        | Some oldAudio => negb (Audio.paused oldAudio)
        | None => false
        end in
      let st := if distinct && old_playing
                then on_audio (h_oldAudio h) (Audio.set_volume oldVolumeNew) st
                else st in
      if (steps <=? step)%nat then
        let st := match h_fadeInterval h with
                  | Some fadeInterval => clearTimer fadeInterval st
                  | None => st
                  end in
        let st := if distinct
                  then on_audio (h_oldAudio h)
                         (fun a => Audio.set_volume (h_oldVolume h) (Audio.set_paused true a)) st
                  else st in
        set_audioRef (Some (h_newAudio h))
          (on_audio (h_newAudio h) (Audio.set_volume (of_Z 1)) st)
      else st
  end.

(** the callback of [fallbackTimeout] *)
Definition fallback (id : nat) (st : State) : State :=
  match handovers st !! id with
  | None => st
  | Some h =>
      match audios st !! h_newAudio h with
      | None => st
      | Some newAudio =>
          if negb (crossfadeStarted h) && (2 <=? Audio.readyState newAudio)%nat
          then handleCanPlay id st
          else st
      end
  end.

(** the new element fires [canplaythrough]: both listeners run once, in
    the order they were added *)
Definition canplaythrough (id : nat) (d : num) (st : State) : State :=
  match handovers st !! id with
  | None => st
  | Some h =>
      let st := on_audio (h_newAudio h)
                  (fun a => Audio.set_readyState 4 (Audio.set_duration d a)) st in
      if h_listening h then
        let st := handleCanPlay id st in
        let st := clearTimer (h_fallbackTimeout h) st in
        on_handover id (with_h_listening false) st
      else st
  end.

(** the new element has its first frame: [readyState] reaches 2 *)
Definition loadeddata (id : nat) (d : num) (st : State) : State :=
  on_audio id (fun a => Audio.set_readyState (Nat.max 2 (Audio.readyState a))
                          (Audio.set_duration d a)) st.

(** a stream that is not paused advances by [dt] seconds *)
Definition played (a : nat) (dt : num) (st : State) : State :=
  on_audio a (fun x => if Audio.paused x then x
                       else Audio.set_currentTime (Audio.currentTime x + dt)%num x) st.

(** *** Play, pause, resume, stop *)

(** [playMix] up to [await fetch] *)
Definition playMix (st : State) : State :=
  fetch (MixRequest (gains st)) KPlay st.

Definition playMix_failed (st : State) : State :=
  set_paused false
    (set_playing false
       (alert "Error playing mix" (console_error "Mix playback error:" st))).

(** [playMix] from the response on, up to [await audio.play()] *)
Definition playMix_response (r : Response) (st : State) : State :=
  match r with
  | NetworkError | NotOk _ | BadJson => playMix_failed st
  | Json data =>
      match usable_path data with
      | None => playMix_failed st
      | Some path =>
          let st := match audioRef st with
                    | Some a => set_audioRef None (on_audio a (Audio.set_paused true) st)
                    | None => st
                    end in
          let id := length (audios st) in
          let st := set_audios (audios st ++ [Audio.create ("http://127.0.0.1:8000" ++ path)]) st in
          let st := set_audioRef (Some id) st in
          set_starting (starting st ++ [id]) (set_plays (plays st ++ [id]) st)
      end
  end.

(** [playMix] after [await audio.play()] *)
Definition playMix_played (a : nat) (ok : bool) (st : State) : State :=
  let st := set_starting (List.filter (fun x => negb (x =? a)%nat) (starting st)) st in
  if ok then
    set_paused false (set_playing true (on_audio a (Audio.set_paused false) st))
  else playMix_failed st.

Definition pauseMix (st : State) : State :=
  match audioRef st with
  | None => st
  | Some a => set_paused true (on_audio a (Audio.set_paused true) st)
  end.

Definition resumeMix (st : State) : State :=
  match audioRef st with
  | None => st
  | Some a =>
      set_paused false
        (set_plays (plays st ++ [a]) (on_audio a (Audio.set_paused false) st))
  end.

Definition stopMix (st : State) : State :=
  match audioRef st with
  | None => st
  | Some a =>
      set_paused false
        (set_playing false
           (on_audio a (fun x => Audio.set_currentTime (of_Z 0) (Audio.set_paused true x)) st))
  end.

(** [onended], set on every element the component creates *)
Definition onended (a : nat) (st : State) : State :=
  match audios st !! a with
  | Some _ => set_paused false (set_playing false st)
  | None => st
  end.

(** [onerror], set on every element the component creates: the handler
    that [updatePlayingAudio] sets on the new element of a handover logs;
    the one that [playMix] sets on its element logs and alerts. *)
Definition onerror (a : nat) (st : State) : State :=
  match audios st !! a with
  | Some _ =>
      let st := console_error "Audio playback error:" st in
      let st := if bool_decide (is_Some (handovers st !! a)) then st
                else alert "Error playing audio. Make sure you have uploaded and separated a file first." st in
      set_paused false (set_playing false st)
  | None => st
  end.

(** *** Separation progress *)

Definition has_status (data : Body) (s : string) : bool :=
  bool_decide (b_status data = Some s).

Definition clear_progress_interval (st : State) : State :=
  match progressIntervalRef st with
  | Some id => set_progressIntervalRef None (clearTimer id st)
  | None => st
  end.

(** [Math.round(data.progress * 100)].  [data.progress] is the binary64
    value nearest to the number in the body, [undefined] when the body has
    none, which makes the product NaN; the product is rounded to binary64
    before [Math.round] sees it. *)
Definition progressValue_of (data : Body) : num :=
  Math_round (binary64 (binary64 (default NaN (b_progress data)) * of_Z 100)%num).

(** [pollProgress] from the response on; the boolean is its result
    ([true]: continue polling). *)
Definition pollProgress_response (r : Response) (st : State) : State * bool :=
  match r with
  | NetworkError | BadJson => (console_error "Progress poll error:" st, true)
  | NotOk _ => (console_error "Failed to fetch progress" st, true)
  | Json data =>
      let progressValue := progressValue_of data in
      let st := set_progress progressValue st in
      if has_status data "completed" && geb progressValue (of_Z 100) then
        let st := clear_progress_interval st in
        let st := set_progress (of_Z 100) (set_separating false st) in
        (fst (setTimeout (CbAlert "Separation complete.") 100 st), false)
      else if has_status data "error" then
        let st := clear_progress_interval st in
        let st := set_separating false st in
        (fst (setTimeout (CbAlert "Separation error occurred.") 100 st), false)
      else (st, true)
  end.

(** the callback of the polling interval, after [await pollProgress()] *)
Definition poll_callback_response (r : Response) (st : State) : State :=
  let '(st, shouldContinue) := pollProgress_response r st in
  if negb shouldContinue then clear_progress_interval st else st.

(** [handleUpload] from [setSeparating(true)] on, up to [await fetch]; the
    feature extraction and prediction that precede it do not touch the
    polling state. *)
Definition handleUpload (st : State) : State :=
  fetch StartSeparationRequest KStart (set_progress (of_Z 0) (set_separating true st)).

(** [handleUpload] from the response on *)
Definition handleUpload_response (r : Response) (st : State) : State :=
  let failed st :=
    set_progress (of_Z 0)
      (set_separating false
         (alert "Error starting separation" (console_error "Error starting separation:" st))) in
  match r with
  | Json data =>
      if has_status data "processing" then
        let st := clear_progress_interval st in
        let '(st, id) := setInterval CbPoll 300 st in
        set_progressIntervalRef (Some id) st
      else failed st
  | _ => failed st
  end.

(** *** The event loop *)

(** The callback of the [autoPlay] effect also calls [onPlayComplete],
    which resets the flag that [App] holds. *)
Definition run_callback (cb : Callback) (st : State) : State :=
  match cb with
  | CbUpdatePlayingAudio newGains => updatePlayingAudio newGains st
  | CbFallback h => fallback h st
  | CbFade h => fade_tick h st
  | CbAlert msg => alert msg st
  | CbPoll => fetch ProgressRequest KPoll st
  | CbAutoPlay g => fetch (MixRequest g) KPlay st
  end.

Definition is_pending (id : positive) (st : State) : bool :=
  existsb (fun t => Pos.eqb (timer_id t) id) (timers st).

(** an interval that fired is due again one period later *)
Definition rearm (id : positive) (st : State) : State :=
  set_timers
    (map (fun t =>
            match period t with
            | Some p =>
                if Pos.eqb (timer_id t) id
                then {| timer_id := timer_id t; due := due t + p;
                        period := period t; callback := callback t |}
                else t
            | None => t
            end) (timers st)) st.

(** A due timer fires unless a callback that ran before it cleared it. *)
Definition fire (t : Timer) (st : State) : State :=
  if is_pending (timer_id t) st then
    let st := match period t with
              | None => clearTimer (timer_id t) st
              | Some _ => rearm (timer_id t) st
              end in
    run_callback (callback t) st
  else st.

Definition is_due (t0 : nat) (t : Timer) : bool := (due t <=? t0)%nat.

(** one millisecond passes *)
Definition tick (st : State) : State :=
  let st := set_now (S (now st)) st in
  fold_left (fun s t => fire t s) (List.filter (is_due (now st)) (timers st)) st.

Inductive Event :=
| Change (key : Stem) (val : Z)          (* a slider moves *)
| Tick                                   (* one millisecond passes *)
| Responded (i : nat) (r : Response)     (* the request of index i is answered *)
| CanPlayThrough (h : nat) (d : num)     (* the new element of h can play through *)
| LoadedData (h : nat) (d : num)         (* the new element of h has data *)
| PlaySettled (h : nat) (ok : bool)      (* newAudio.play() of h settles *)
| Played (a : nat) (dt : num)            (* the element a has played dt seconds *)
| Ended (a : nat)                        (* the element a reaches its end *)
| Errored (a : nat)                      (* the element a fails to load or to decode *)
| Play | Pause | Resume | Stop           (* the buttons *)
| Upload.                                (* a file is chosen *)

Definition step (st : State) (e : Event) : State :=
  match e with
  | Change key val => handleChange key val st
  | Tick => tick st
  | Responded i r =>
      match awaiting st !! i with
      | None => st
      | Some k =>
          let st := set_awaiting (delete i (awaiting st)) st in
          match k with
          | KUpdate c => updatePlayingAudio_response c r st
          | KPlay => playMix_response r st
          | KPoll => poll_callback_response r st
          | KStart => handleUpload_response r st
          end
      end
  | CanPlayThrough h d => canplaythrough h d st
  | LoadedData h d => loadeddata h d st
  | PlaySettled h ok =>
      if existsb (Nat.eqb h) (starting st) then playMix_played h ok st
      else handleCanPlay_played h ok st
  | Played a dt => played a dt st
  | Ended a => onended a st
  | Errored a => onerror a st
  | Play => playMix st
  | Pause => pauseMix st
  | Resume => resumeMix st
  | Stop => stopMix st
  | Upload => handleUpload st
  end.

Definition run (st : State) (es : list Event) : State := fold_left step es st.

(** the gains of the render requests, in the order they were sent *)
Definition mix_requests (st : State) : list GainSettings :=
  omap (fun r => match r with MixRequest g => Some g | _ => None end) (requests st).

(** The render of a live update failed: no response, an error status, a
    body that is not JSON, or no usable path in it. *)
Definition render_failed (r : Response) : bool :=
  match r with
  | Json data => match usable_path data with Some _ => false | None => true end
  | _ => true
  end.

(** The status that ends the polling: [completed] with a rounded progress
    of at least 100, or [error]. *)
Definition terminal (data : Body) : bool :=
  has_status data "completed" && geb (progressValue_of data) (of_Z 100)
  || has_status data "error".

(** the number of status requests sent *)
Definition progress_requests (st : State) : nat :=
  length (List.filter (fun r => match r with ProgressRequest => true | _ => false end)
            (requests st)).

(** *** Bursts of slider edits *)

(** A burst: a first edit, then each further edit [gap] milliseconds
    after the one before it. *)
Definition burst (k0 : Stem) (v0 : Z) (rest : list (nat * (Stem * Z))) : list Event :=
  Change k0 v0
  :: flat_map (fun e => repeat Tick (fst e) ++ [Change (fst (snd e)) (snd (snd e))])%list rest.

(** the gains after all the edits of the burst *)
Definition edited (g : GainSettings) (k0 : Stem) (v0 : Z)
    (rest : list (nat * (Stem * Z))) : GainSettings :=
  fold_left (fun g e => set_gain (fst (snd e)) (of_Z (snd (snd e))) g) rest
    (set_gain k0 (of_Z v0) g).

Definition is_update (cb : Callback) : bool :=
  match cb with CbUpdatePlayingAudio _ => true | _ => false end.

Definition is_autoplay (cb : Callback) : bool :=
  match cb with CbAutoPlay _ => true | _ => false end.

(** The timeout of the [autoPlay] effect is not pending: the component was
    mounted without [autoPlay], or the timeout has fired. *)
Definition auto_play_done (st : State) : Prop :=
  Forall (fun t => is_autoplay (callback t) = false) (timers st).

(** Every pending debounce timer is a timeout and is the one that
    [updateTimeoutRef] holds. *)
Definition debounce_ok (st : State) : Prop :=
  Forall (fun t => is_update (callback t) = true ->
                   updateTimeoutRef st = Some (timer_id t) /\ period t = None)
    (timers st).

(** The timers pending after an edit: none is the timeout of the
    [autoPlay] effect, and the debounce timers carry the gains [g], have
    the identifier [id] and are not due before [d]. *)
Definition armed (id : positive) (g : GainSettings) (d : nat) (t : Timer) : Prop :=
  is_autoplay (callback t) = false /\
  (is_update (callback t) = true ->
   callback t = CbUpdatePlayingAudio g /\ timer_id t = id /\ period t = None /\ (d <= due t)%nat).

(** The component after an edit, while a mix plays: the gains are [g], the
    debounce timers are armed under [id] for [d], and since the requests
    [base] either nothing has been sent, or [g] has been sent and the
    timeout is gone. *)
Definition debouncing (id : positive) (g : GainSettings) (d : nat)
    (base : list GainSettings) (st : State) : Prop :=
  gains st = g /\
  playing st = true /\
  paused st = false /\
  is_Some (audioRef st) /\
  updateTimeoutRef st = Some id /\
  Forall (armed id g d) (timers st) /\
  (mix_requests st = base \/
   (mix_requests st = (base ++ [g])%list /\
    Forall (fun t => timer_id t <> id) (timers st))).

(** A crossfade under way, [k] steps done: the fade interval is the only
    timer and is due at [d]; the old element [o] is the live reference and
    still plays, at the volume of the ramp once a step has run; the new
    element [n] plays at the volume of the ramp. *)
Definition fading (hd : Handover) (fid : positive) (o n : Audio.t)
    (k d : nat) (st : State) : Prop :=
  timers st = [ {| timer_id := fid; due := d; period := Some stepTime;
                   callback := CbFade (h_newAudio hd) |} ] /\
  handovers st !! h_newAudio hd = Some (with_h_step k hd) /\
  h_fadeInterval hd = Some fid /\
  h_oldAudio hd <> h_newAudio hd /\
  Audio.paused o = false /\
  audios st !! h_oldAudio hd
    = Some (match k with O => o | S _ => Audio.set_volume (oldVolume_at k) o end) /\
  audios st !! h_newAudio hd = Some (Audio.set_volume (newVolume_at k) n) /\
  audioRef st = Some (h_oldAudio hd).

(** The crossfade done: the old element is paused, its volume restored,
    and the new element is the live reference at volume 1; no timer is
    left. *)
Definition faded (hd : Handover) (o n : Audio.t) (st : State) : Prop :=
  timers st = [] /\
  audios st !! h_oldAudio hd
    = Some (Audio.set_volume (h_oldVolume hd) (Audio.set_paused true o)) /\
  audios st !! h_newAudio hd = Some (Audio.set_volume (of_Z 1) n) /\
  audioRef st = Some (h_newAudio hd).

Definition is_poll (cb : Callback) : bool :=
  match cb with CbPoll => true | _ => false end.

(** [st'] shows the same [obs] as [st], and every timer of the kind [kind]
    pending in [st'] was pending in [st]. *)
Definition tame {X : Type} (kind : Callback -> bool) (obs : State -> X)
    (st st' : State) : Prop :=
  obs st' = obs st /\
  forall t', In t' (timers st') -> kind (callback t') = true ->
    exists t, In t (timers st) /\ timer_id t = timer_id t' /\
              period t = period t' /\ callback t = callback t'.

(** Every pending polling timer is the interval that
    [progressIntervalRef] holds. *)
Definition poll_ok (st : State) : Prop :=
  Forall (fun t => is_poll (callback t) = true ->
                   progressIntervalRef st = Some (timer_id t))
    (timers st).

(** No polling interval is held and no polling timer is pending. *)
Definition poll_idle (st : State) : Prop :=
  progressIntervalRef st = None /\
  Forall (fun t => is_poll (callback t) = false) (timers st).

(** what the polling shows: its interval and the status requests sent *)
Definition poll_watch (st : State) : option positive * nat :=
  (progressIntervalRef st, progress_requests st).

(** [st'] differs from [st] in nothing that the debounce reads, sends no
    render request and arms no timer. *)
Definition frame (st st' : State) : Prop :=
  gains st' = gains st /\
  playing st' = playing st /\
  paused st' = paused st /\
  updateTimeoutRef st' = updateTimeoutRef st /\
  now st' = now st /\
  mix_requests st' = mix_requests st /\
  (is_Some (audioRef st) -> is_Some (audioRef st')) /\
  (forall t, In t (timers st') -> In t (timers st)).

(** what the playback shows: the two flags and the render requests sent *)
Definition play_watch (st : State) : bool * bool * list GainSettings :=
  (playing st, paused st, mix_requests st).

(** what the [onerror] handler of [playMix] tells the user *)
Definition error_alert : string :=
  "Error playing audio. Make sure you have uploaded and separated a file first.".

(** No debounced update is pending. *)
Definition no_update_pending (st : State) : Prop :=
  Forall (fun t => is_update (callback t) = false) (timers st).

Definition is_edit_or_tick (e : Event) : bool :=
  match e with Change _ _ | Tick => true | _ => false end.

(** the milliseconds that pass in a sequence of events *)
Definition elapsed (es : list Event) : nat :=
  length (List.filter (fun e => match e with Tick => true | _ => false end) es).

(** the timeout that the [autoPlay] effect arms when the mixer is mounted *)
Definition auto_play_timer (g : GainSettings) : Timer :=
  {| timer_id := 1; due := 100; period := None; callback := CbAutoPlay g |}.

(** The mixer mounted with [autoPlay] for the gains [g], [k] milliseconds
    later, nothing but slider edits having happened: before 100 ms the
    timeout is pending and nothing was sent; from then on the timeout is
    gone and one render request was sent, for [g]. *)
Definition auto_playing (g : GainSettings) (k : nat) (st : State) : Prop :=
  playing st = false /\ now st = k /\
  if (k <? 100)%nat
  then timers st = [auto_play_timer g] /\ requests st = []
  else timers st = [] /\ requests st = [MixRequest g].

(** The identifiers of the pending timers are distinct and below the one
    that the next timer gets. *)
Definition timers_fresh (st : State) : Prop :=
  NoDup (map timer_id (timers st)) /\
  Forall (fun t => (timer_id t < nextTimer st)%positive) (timers st).

(** the pending timers of one kind *)
Definition pending (kind : Callback -> bool) (st : State) : list Timer :=
  List.filter (fun t => kind (callback t)) (timers st).

End Mixer.

(** ** The Landing component: the list of profiles *)
Module Landing.

Record State := {
  users : list string;
  alerts : list string
}.

(** The users when [localStorage] holds none. *)
Definition defaultUsers : list string := ["Alex"; "Sam"; "Jamie"].

Section Library.

(** [String.prototype.trim] *)
Variable trim : string -> string.

(** [handleAddUser]; [answer] is what [prompt] returns, [None] when the
    dialog is cancelled. *)
Definition handleAddUser (answer : option string) (st : State) : State :=
  match answer with
  | None => st
  | Some name =>
      if bool_decide (name <> "") && bool_decide (trim name <> "") then
        let trimmedName := trim name in
        if negb (bool_decide (trimmedName ∈ users st)) then
          {| users := (users st ++ [trimmedName])%list; alerts := alerts st |}
        else
          {| users := users st; alerts := (alerts st ++ ["User already exists!"])%list |}
      else st
  end.

(** one [prompt] after the other *)
Definition addUsers (answers : list (option string)) (st : State) : State :=
  fold_left (fun s a => handleAddUser a s) answers st.

End Library.

End Landing.

(** ** components/Mixer.js: saving the mix *)
Module SaveMix.

Import AudioFeatures.
Import Stdlib.Strings.Ascii.

(** [name.replace(/\.[^/.]+$/, "")]: the leftmost dot that is followed, up
    to the end of the name, by one or more characters other than a dot
    and a slash, is removed together with what follows it. *)
Fixpoint no_dot_or_slash (s : string) : bool :=
  match s with
  | "" => true
  | String c rest =>
      negb (Ascii.eqb c ".") && negb (Ascii.eqb c "/") && no_dot_or_slash rest
  end.

Definition is_extension (s : string) : bool :=
  negb (String.eqb s "") && no_dot_or_slash s.

Fixpoint strip_extension (name : string) : string :=
  match name with
  | "" => ""
  | String c rest =>
      if Ascii.eqb c "." && is_extension rest then ""
      else String c (strip_extension rest)
  end.

(** the character [c] does not occur in [s] *)
Fixpoint lacks (c : ascii) (s : string) : bool :=
  match s with
  | "" => true
  | String a rest => negb (Ascii.eqb a c) && lacks c rest
  end.

Definition channels : list (Mixer.Stem * string) :=
  [ (Mixer.Vocals, "🎤 Vocals"); (Mixer.Drums, "🥁 Drums");
    (Mixer.Bass, "🎶 Bass"); (Mixer.Other, "🎧 Other") ].

Section Library.

(** The conversion of a number to a string by a template literal. *)
Variable toString : num -> string.

Definition fmt (db : num) : string :=
  (if gtb db (of_Z 0) then "+" ++ toString db else toString db) ++ " dB".

(** [channels.map(...).join(", ")] *)
Definition details_of (gains : GainSettings) : string :=
  String.concat ", "
    (map (fun c => snd c ++ ": " ++ fmt (Mixer.get_gain (fst c) gains)) channels).

(** [handleSave]: the object passed to [onSave], or [None] when no file
    was chosen and the function only alerts; [file] is the name of the
    file.  The alerts that tell the user about the outcome are left out. *)
Definition handleSave (file : option string) (gains : GainSettings)
    (audioFeatures : option Features) : option Song :=
  match file with
  | None => None
  | Some name =>
      let title := strip_extension name in
      let details := details_of gains in
      let featureVector :=
        match audioFeatures with
        | Some f => Some (featuresToVector f (classifyGenre f))
        | None => None
        end in
      Some {| title := title;
              artist := "Custom Mix";
              details := details;
              gains := Some gains;
              features := featureVector |}
  end.

End Library.

End SaveMix.

(** ** App.js: from the song list back to the mixer *)
Module Navigation.

(** The state of [App] that [handleSongSelect] writes. *)
Record State := {
  tab : string;
  mixerGains : option GainSettings;
  autoPlayMix : bool;
  alerts : list string;
  console : list string
}.

(** The state when a user has just been selected. *)
Definition selected : State :=
  {| tab := "mixer"; mixerGains := None; autoPlayMix := false;
     alerts := []; console := [] |}.

(** [handleSongSelect]; the alert is cut down to its fixed part. *)
Definition handleSongSelect (song : Song) (st : State) : State :=
  let line := "Selected song: " ++ title song in
  let console := (console st ++ [line])%list in
  match gains song with
  | Some g =>
      {| tab := "mixer"; mixerGains := Some g; autoPlayMix := true;
         alerts := alerts st; console := console |}
  | None =>
      {| tab := tab st; mixerGains := mixerGains st; autoPlayMix := autoPlayMix st;
         alerts := (alerts st ++ ["Cannot play: Gain settings not found."])%list;
         console := console |}
  end.

(** The mixer as [App] renders it: [initialGains={mixerGains}] and
    [autoPlay={autoPlayMix}]. *)
Definition mixer (st : State) : Mixer.State :=
  Mixer.mount (mixerGains st) (autoPlayMix st).

End Navigation.

(** * Scenarios

    Concrete inputs on which the properties below are exercised. *)
Module Scenario.

Import AudioFeatures UserPreferenceModel.

(** A stand-in for the hyperbolic tangent on rationals: odd, increasing,
    bounded by 1, zero at zero. *)
Definition softsign (q : Q) : Q := (q / (1 + Qabs q))%Q.

(** A stand-in for the optimiser: it moves the bias of every layer by the
    number of epochs, and never throws. *)
Definition nudge (m : Sequential) (c : FitCall) : option Sequential :=
  Some (map (fun l => {| kernel := kernel l;
                         bias := map (fun b => (b + of_Z (Z.of_nat (fit_epochs c)))%num) (bias l);
                         activation := activation l |}) m).

(** Kernels of the right shapes. *)
Definition draw0 : Draw :=
  {| draw1 := repeat (repeat (1 # 7) 64) 23;
     draw2 := repeat (repeat (1 # 5) 32) 64;
     draw3 := repeat (repeat (-1 # 3) 16) 32;
     draw4 := repeat (repeat (1 # 2) 4) 16 |}.

(** A decoded clip at 96 kHz, shorter than one flux window. *)
Definition short_clip : list num := [Fin (1 # 2); Fin (-1 # 4); Fin (1 # 8)].

Definition short_clip_features : RawFeatures :=
  {| raw_duration := Fin (3 # 96000);
     raw_sampleRate := of_Z 96000;
     raw_rms := Fin (33 # 100);
     raw_zeroCrossingRate := Fin (2 # 3);
     raw_spectralCentroid := of_Z 10;
     raw_spectralRolloff := of_Z 23;
     raw_spectralFlux := calculateSpectralFlux short_clip;
     raw_tempo := of_Z 60;
     raw_mfcc := repeat (Fin (1 # 4)) 5 |}.

Definition short_clip_vector : list num :=
  let f := normalizeFeatures short_clip_features in
  featuresToVector f (classifyGenre f).

Definition env0 : Env := {| localStorage := ∅; console := []; fitCalls := [] |}.

(** Alex has saved one mix of "track", with features and gains, and the
    model has been created. *)
Definition alex_mix : Song :=
  {| title := "track";
     artist := "Custom Mix";
     details := "Vocals: +6 dB, Drums: 0 dB, Bass: 0 dB, Other: 0 dB";
     gains := Some {| vocals := of_Z 6; drums := of_Z 0; bass := of_Z 0; other := of_Z 0 |};
     features := Some (repeat (Fin (1 # 2)) 23) |}.

Definition alex_model : Model :=
  {| userId := "Alex"; model := Some (createModel draw0); isInitialized := true |}.

Definition alex_state : App.State :=
  {| App.user := Some "Alex";
     App.tab := "mixer";
     App.songsByUser := {[ "Alex" := [alex_mix] ]};
     App.userModelRef := Some alex_model;
     App.env := env0;
     App.alerts := [] |}.

(** The backend answers a render request with the path of the mix. *)
Definition rendered : Mixer.Response :=
  Mixer.Json {| Mixer.b_path := Some "/mix.wav";
                Mixer.b_status := None;
                Mixer.b_progress := None |}.

(** The mixer after "Play Mix": the default mix is playing. *)
Definition playing_mix : Mixer.State :=
  Mixer.run (Mixer.mount None false)
    [Mixer.Play; Mixer.Responded 0 rendered; Mixer.PlaySettled 0 true].

(** Slider edits every 50 ms for 500 ms, ending with vocals at +6. *)
Definition slider_edits : list (nat * (Mixer.Stem * Z)) :=
  [ (50%nat, (Mixer.Vocals, 2)); (50%nat, (Mixer.Vocals, 3));
    (50%nat, (Mixer.Drums, -1)); (50%nat, (Mixer.Drums, -2));
    (50%nat, (Mixer.Vocals, 4)); (50%nat, (Mixer.Vocals, 5));
    (50%nat, (Mixer.Drums, -1)); (50%nat, (Mixer.Drums, 0));
    (50%nat, (Mixer.Vocals, 7)); (50%nat, (Mixer.Vocals, 6)) ].

(** The playing mix has reached second 10. *)
Definition at_ten_seconds : Mixer.State :=
  Mixer.run playing_mix [Mixer.Played 0 (of_Z 10)].

(** Vocals are raised to +6; the render takes 1.5 s and the new stream
    0.5 s to load, while the old stream plays on; the new stream lasts
    180 s. *)
Definition live_update : list Mixer.Event :=
  (Mixer.Change Mixer.Vocals 6 :: repeat Mixer.Tick 200
   ++ [ Mixer.Played 0 (Fin (3 # 2)); Mixer.Responded 1 rendered;
        Mixer.Played 0 (Fin (1 # 2)); Mixer.CanPlayThrough 1 (of_Z 180) ])%list.

Definition handing_over : Mixer.State := Mixer.run at_ten_seconds live_update.

(** The answers of the separation service. *)
Definition processing : Mixer.Response :=
  Mixer.Json {| Mixer.b_path := None;
                Mixer.b_status := Some "processing";
                Mixer.b_progress := None |}.

Definition completed : Mixer.Response :=
  Mixer.Json {| Mixer.b_path := None;
                Mixer.b_status := Some "completed";
                Mixer.b_progress := Some (of_Z 1) |}.

(** A file is uploaded and the separation starts; the first status request
    leaves after 300 ms and is answered at once with [completed]; then a
    second passes. *)
Definition prompt_polls : list Mixer.Event :=
  ([Mixer.Upload; Mixer.Responded 0 processing] ++ repeat Mixer.Tick 300
   ++ [Mixer.Responded 1 completed] ++ repeat Mixer.Tick 1000)%list.

(** The same, but the service is slow: the first status request is still
    unanswered when the second leaves, 300 ms later; then both are
    answered with [completed]. *)
Definition overlapping_polls : list Mixer.Event :=
  ([Mixer.Upload; Mixer.Responded 0 processing] ++ repeat Mixer.Tick 600
   ++ [Mixer.Responded 1 completed; Mixer.Responded 2 completed]
   ++ repeat Mixer.Tick 1000)%list.

(** Alex before anything was saved. *)
Definition alex_empty : App.State :=
  {| App.user := Some "Alex";
     App.tab := "mixer";
     App.songsByUser := ∅;
     App.userModelRef := Some alex_model;
     App.env := env0;
     App.alerts := [] |}.

(** A profile named "constructor", before anything was saved. *)
Definition constructor_empty : App.State :=
  {| App.user := Some "constructor";
     App.tab := "mixer";
     App.songsByUser := ∅;
     App.userModelRef :=
       Some {| userId := "constructor"; model := Some (createModel draw0);
               isInitialized := true |};
     App.env := env0;
     App.alerts := [] |}.

(** A mix whose feature vector lacks an entry. *)
Definition short_mix : Song :=
  {| title := "short";
     artist := "Custom Mix";
     details := "Vocals: 0 dB, Drums: 0 dB, Bass: 0 dB, Other: 0 dB";
     gains := Some {| vocals := of_Z 0; drums := of_Z 0; bass := of_Z 0; other := of_Z 0 |};
     features := Some (repeat (Fin (1 # 2)) 22) |}.

(** A clip of six samples that changes sign three times. *)
Definition six_samples : list num :=
  [Fin (1 # 2); Fin (-1 # 4); Fin (1 # 8); Fin (1 # 8); Fin (-1 # 2); Fin 0].

(** A clip of 1025 samples, silent but for the last one. *)
Definition click : list num := (repeat (Fin 0) 1024 ++ [Fin (1 # 2)])%list.

(** The raw features of the clip of six samples at 44.1 kHz, as far as the
    tempo goes. *)
Definition six_samples_features : AudioFeatures.RawFeatures :=
  {| AudioFeatures.raw_duration := Fin (6 # 44100);
     AudioFeatures.raw_sampleRate := of_Z 44100;
     AudioFeatures.raw_rms := Fin (1 # 3);
     AudioFeatures.raw_zeroCrossingRate := AudioFeatures.calculateZeroCrossingRate six_samples;
     AudioFeatures.raw_spectralCentroid :=
       AudioFeatures.calculateSpectralCentroid six_samples (of_Z 44100);
     AudioFeatures.raw_spectralRolloff :=
       AudioFeatures.calculateSpectralRolloff six_samples (of_Z 44100);
     AudioFeatures.raw_spectralFlux := AudioFeatures.calculateSpectralFlux six_samples;
     AudioFeatures.raw_tempo := AudioFeatures.estimateTempo six_samples (Fin (6 # 44100));
     AudioFeatures.raw_mfcc := repeat (Fin (1 # 4)) 5 |}.


(** A song saved by a version that stored neither gains nor features. *)
Definition old_song : Song :=
  {| title := "demo"; artist := "Custom Mix"; details := "";
     gains := None; features := None |}.

(** A stand-in for [String.prototype.trim] that removes the spaces at the
    start of the name. *)
Fixpoint trim_left (s : string) : string :=
  match s with
  | "" => ""
  | String c rest => if Ascii.eqb c (Ascii.ascii_of_nat 32) then trim_left rest else s
  end.

(** A stand-in for the conversion of a number to a string, exact on the
    integers, NaN and the infinities. *)
Definition render_number (x : num) : string :=
  match x with
  | Fin q => if (Qden q =? 1)%positive then pretty (Qnum q) else "?"
  | PInf => "Infinity"
  | NInf => "-Infinity"
  | NaN => "NaN"
  end.

(** Alex has saved "track" and, before it, a song without features. *)
Definition alex_two_songs : App.State :=
  {| App.user := Some "Alex";
     App.tab := "mysongs";
     App.songsByUser := {[ "Alex" := [alex_mix; old_song] ]};
     App.userModelRef := Some alex_model;
     App.env := env0;
     App.alerts := [] |}.

(** The answer of a backend that has no stems to mix. *)
Definition no_stems : Mixer.Response := Mixer.NotOk 400.

(** The playing mix, stopped. *)
Definition stopped_mix : Mixer.State := Mixer.run playing_mix [Mixer.Stop].

(** A status that says [completed] at 99%. *)
Definition almost_completed : Mixer.Response :=
  Mixer.Json {| Mixer.b_path := None;
                Mixer.b_status := Some "completed";
                Mixer.b_progress := Some (Fin (99 # 100)) |}.

(** A file is uploaded, the separation starts and the first status
    request has left. *)
Definition polling : Mixer.State :=
  Mixer.run (Mixer.mount None false)
    ([Mixer.Upload; Mixer.Responded 0 processing] ++ repeat Mixer.Tick 300)%list.

(** "Play Mix" was pressed and the backend has answered with the path of
    a mix that the browser then cannot load. *)
Definition unplayable_mix : Mixer.State :=
  Mixer.run (Mixer.mount None false) [Mixer.Play; Mixer.Responded 0 rendered].

(** A saved song was selected 50 ms ago: the mixer was mounted with its
    gains and with [autoPlay]. *)
Definition song_selected : Mixer.State :=
  Mixer.run
    (Mixer.mount (Some {| vocals := of_Z 6; drums := of_Z 0;
                          bass := of_Z 0; other := of_Z 0 |}) true)
    (repeat Mixer.Tick 50).

(** A file was chosen and the request to start the separation has left. *)
Definition uploading : Mixer.State := Mixer.run (Mixer.mount None false) [Mixer.Upload].

End Scenario.

(** * Properties *)

Local Open Scope list_scope.

(** ** Facts about JavaScript numbers *)
Section JsNumFacts.

Lemma Qcompare_inject_Z (a b : Z) : (inject_Z a ?= inject_Z b)%Q = (a ?= b)%Z.
Proof. unfold Qcompare; simpl. now rewrite !Z.mul_1_r. Qed.

Lemma cmp_of_Z (a b : Z) : cmp (of_Z a) (of_Z b) = Some (a ?= b)%Z.
Proof. unfold of_Z; simpl. now rewrite Qcompare_inject_Z. Qed.

Lemma cmp_refl (x : num) : x <> NaN -> cmp x x = Some Eq.
Proof.
  destruct x as [q| | |]; simpl; intros H; try congruence.
  f_equal. apply Qeq_alt. reflexivity.
Qed.

Lemma cmp_nan_l (y : num) : cmp NaN y = None.
Proof. reflexivity. Qed.

Lemma cmp_nan_r (x : num) : cmp x NaN = None.
Proof. now destruct x. Qed.

Lemma cmp_some_number (x y : num) (c : comparison) :
  cmp x y = Some c -> x <> NaN /\ y <> NaN.
Proof. destruct x, y; simpl; intros H; try discriminate; split; congruence. Qed.

Lemma cmp_number (x y : num) : x <> NaN -> y <> NaN -> exists c, cmp x y = Some c.
Proof. destruct x, y; simpl; intros Hx Hy; try congruence; eauto. Qed.

Lemma Math_min_of_Z (a b : Z) : Math_min (of_Z a) (of_Z b) = of_Z (Z.min a b).
Proof.
  unfold Math_min. rewrite cmp_of_Z. unfold Z.min.
  now destruct (a ?= b)%Z.
Qed.

Lemma Math_max_of_Z (a b : Z) : Math_max (of_Z a) (of_Z b) = of_Z (Z.max a b).
Proof.
  unfold Math_max. rewrite cmp_of_Z. unfold Z.max.
  now destruct (a ?= b)%Z.
Qed.

(** [Math.min(x, y)] never exceeds [y] ... *)
Lemma Math_min_not_gt (x y : num) : gtb (Math_min x y) y = false.
Proof.
  unfold Math_min, gtb. destruct (cmp x y) as [c|] eqn:E.
  - destruct c; rewrite ?E; trivial.
    destruct (cmp_some_number _ _ _ E) as [_ Hy]. now rewrite cmp_refl.
  - reflexivity.
Qed.

(** ... and is at most [y] when both are numbers. *)
Lemma Math_min_le (x y : num) :
  x <> NaN -> y <> NaN -> leb (Math_min x y) y = true.
Proof.
  intros Hx Hy. unfold Math_min, leb.
  destruct (cmp_number x y Hx Hy) as [c E]. rewrite E.
  destruct c; rewrite ?E; trivial. now rewrite cmp_refl.
Qed.

Lemma Math_min_nan (x y : num) : Math_min x y = NaN -> x = NaN \/ y = NaN.
Proof.
  unfold Math_min. destruct (cmp x y) as [c|] eqn:E.
  - destruct c; auto.
  - destruct x, y; simpl in E; try discriminate; auto.
Qed.

Lemma Math_max_nan (x y : num) : Math_max x y = NaN -> x = NaN \/ y = NaN.
Proof.
  unfold Math_max. destruct (cmp x y) as [c|] eqn:E.
  - destruct c; auto.
  - destruct x, y; simpl in E; try discriminate; auto.
Qed.

Lemma Qsign_inject_Z (k : Z) : Qsign (inject_Z k) = (k ?= 0)%Z.
Proof. unfold Qsign. exact (Qcompare_inject_Z k 0). Qed.

Lemma mul_of_Z_number (x : num) (k : Z) : x <> NaN -> k <> 0 -> (x * of_Z k)%num <> NaN.
Proof.
  intros Hx Hk. destruct x as [q| | |]; simpl; try congruence.
  - unfold inf_times. rewrite Qsign_inject_Z.
    destruct (Z.compare_spec k 0); simpl; congruence.
  - unfold inf_times. rewrite Qsign_inject_Z.
    destruct (Z.compare_spec k 0); simpl; congruence.
Qed.

Lemma div_of_Z_number (x : num) (k : Z) : x <> NaN -> k <> 0 -> (x / of_Z k)%num <> NaN.
Proof.
  intros Hx Hk. destruct x as [q| | |]; simpl; try congruence.
  - rewrite Qsign_inject_Z. destruct (Z.compare_spec k 0); congruence.
  - rewrite Qsign_inject_Z. destruct (k ?= 0)%Z; congruence.
  - rewrite Qsign_inject_Z. destruct (k ?= 0)%Z; congruence.
Qed.

Lemma sub_of_Z_number (x : num) (k : Z) : x <> NaN -> (x - of_Z k)%num <> NaN.
Proof. intros Hx. destruct x; simpl; congruence. Qed.

Lemma Math_round_number (x : num) : x <> NaN -> Math_round x <> NaN.
Proof. destruct x; simpl; unfold of_Z; congruence. Qed.

End JsNumFacts.

(** ** Feature normalisation *)
Section Normalisation.

Import AudioFeatures.

Lemma gtb_Fin (a b : Q) : gtb (Fin a) (Fin b) = true <-> (b < a)%Q.
Proof.
  unfold gtb; simpl. rewrite Qgt_alt.
  destruct (a ?= b)%Q; split; intros H; congruence.
Qed.

Lemma div_above (x : num) (k : Z) :
  0 < k -> gtb x (of_Z k) = true -> gtb (x / of_Z k)%num (of_Z 1) = true.
Proof.
  intros Hk Hx. destruct x as [q| | |]; simpl in *; try discriminate.
  - rewrite Qsign_inject_Z. apply gtb_Fin in Hx.
    assert (Hq : (1 < q / inject_Z k)%Q).
    { apply Qlt_shift_div_l.
      - change 0%Q with (inject_Z 0). rewrite <- Zlt_Qlt. exact Hk.
      - now rewrite Qmult_1_l. }
    assert (Hr : gtb (Fin (Qred (q / inject_Z k))) (of_Z 1) = true).
    { apply gtb_Fin. now rewrite Qred_correct. }
    destruct (Z.compare_spec k 0); try lia; exact Hr.
  - rewrite Qsign_inject_Z. destruct (Z.compare_spec k 0); try lia; reflexivity.
Qed.

(** C10.  [normalizeFeatures] caps duration, RMS, zero-crossing rate,
    spectral centroid, spectral rolloff and spectral flux with
    [Math.min(.., 1)]: none of them exceeds 1, and each is at most 1 when
    the raw feature is a number.  The sample rate is only divided by 48000:
    whenever the native rate is above 48000 the normalised value is above
    1. *)
Theorem normalizeFeatures_sampleRate_unclamped (f : RawFeatures) :
  let n := normalizeFeatures f in
  Forall (fun p => gtb (snd p) (of_Z 1) = false /\
                   (fst p <> NaN -> leb (snd p) (of_Z 1) = true))
    [ (raw_duration f, duration n);
      (raw_rms f, rms n);
      (raw_zeroCrossingRate f, zeroCrossingRate n);
      (raw_spectralCentroid f, spectralCentroid n);
      (raw_spectralRolloff f, spectralRolloff n);
      (raw_spectralFlux f, spectralFlux n) ]
  /\ sampleRate n = (raw_sampleRate f / of_Z 48000)%num
  /\ (gtb (raw_sampleRate f) (of_Z 48000) = true ->
      gtb (sampleRate n) (of_Z 1) = true).
Proof.
  intros n. split; [|split].
  - repeat constructor; simpl;
      try apply Math_min_not_gt;
      intros Hraw; apply Math_min_le; try discriminate;
      first [ apply div_of_Z_number | apply mul_of_Z_number ]; auto; lia.
  - reflexivity.
  - intros H. apply div_above; [lia | exact H].
Qed.

(** The theorem at a 96 kHz clip: the normalised sample rate is 2. *)
Lemma normalizeFeatures_sampleRate_unclamped_witness :
  gtb (raw_sampleRate Scenario.short_clip_features) (of_Z 48000) = true /\
  gtb (sampleRate (normalizeFeatures Scenario.short_clip_features)) (of_Z 1) = true.
Proof.
  split; [reflexivity|].
  apply (normalizeFeatures_sampleRate_unclamped Scenario.short_clip_features).
  reflexivity.
Defined.

End Normalisation.

(** ** Rounding to binary64

    Rounding never crosses a value that binary64 holds: a value at least
    (at most) such a bound is rounded to a value at least (at most) that
    bound. *)
Section Binary64.

Lemma pow2_pos (e : Z) : (0 < pow2 e)%Q.
Proof. apply Qpower_0_lt. reflexivity. Qed.

Lemma pow2_plus (a b : Z) : (pow2 (a + b) == pow2 a * pow2 b)%Q.
Proof. apply Qpower_plus. discriminate. Qed.

Lemma pow2_le (a b : Z) : a <= b -> (pow2 a <= pow2 b)%Q.
Proof. intros H. apply Qpower_le_compat_l; [exact H | discriminate]. Qed.

Lemma pow2_lt_inv (a b : Z) : (pow2 a < pow2 b)%Q -> a < b.
Proof. intros H. apply (Qpower_lt_compat_l_inv 2); [exact H | reflexivity]. Qed.

Lemma pow2_inject (n : Z) : 0 <= n -> (pow2 n == inject_Z (2 ^ n))%Q.
Proof. intros H. unfold pow2. now rewrite Zpower_Qpower. Qed.

(** the binade of a positive rational starts below it *)
Lemma binade_lower (x : Q) : (0 < x)%Q -> (pow2 (binade x) <= x)%Q.
Proof.
  intros Hx. unfold binade. cbv zeta.
  destruct (Qle_bool (pow2 _) x) eqn:E; [now apply Qle_bool_iff|].
  destruct x as [n d]. cbn [Qnum Qden].
  assert (Hn : 0 < n) by (unfold Qlt in Hx; cbn in Hx; lia).
  set (a := Z.log2 n). set (b := Z.log2 (Z.pos d)).
  assert (Ha : 0 <= a) by apply Z.log2_nonneg.
  assert (Hb : 0 <= b) by apply Z.log2_nonneg.
  destruct (Z.log2_spec n Hn) as [La _]. fold a in La.
  destruct (Z.log2_spec (Z.pos d) (Pos2Z.is_pos d)) as [_ Lb]. fold b in Lb.
  rewrite Qmake_Qdiv. apply Qle_shift_div_l; [reflexivity|].
  apply Qle_trans with (pow2 (a - b - 1) * pow2 (b + 1))%Q.
  - apply Qmult_le_l; [apply pow2_pos|].
    rewrite pow2_inject by lia. rewrite <- Zle_Qle. change (Z.succ b) with (b + 1) in Lb. lia.
  - rewrite <- pow2_plus. replace (a - b - 1 + (b + 1)) with a by lia.
    rewrite pow2_inject by lia. now rewrite <- Zle_Qle.
Qed.

Lemma round_half_even_bounds (y : Q) :
  Qfloor y <= round_half_even y <= Qfloor y + 1 /\
  ((y == inject_Z (Qfloor y))%Q -> round_half_even y = Qfloor y).
Proof.
  unfold round_half_even. cbv zeta. split.
  - destruct (_ ?= _)%Q; [destruct (Z.even _)| |]; lia.
  - intros E. assert (L : (y - inject_Z (Qfloor y) < 1 # 2)%Q) by (rewrite <- E; lra).
    now rewrite (proj1 (Qlt_alt _ _) L).
Qed.

Lemma round_half_even_ge (n : Z) (y : Q) : (inject_Z n <= y)%Q -> n <= round_half_even y.
Proof.
  intros H. pose proof (Qfloor_resp_le _ _ H) as F. rewrite Qfloor_Z in F.
  pose proof (round_half_even_bounds y). lia.
Qed.

Lemma round_half_even_le (n : Z) (y : Q) : (y <= inject_Z n)%Q -> round_half_even y <= n.
Proof.
  intros H. pose proof (Qfloor_resp_le _ _ H) as F. rewrite Qfloor_Z in F.
  destruct (round_half_even_bounds y) as [B E].
  destruct (Z.eq_dec (Qfloor y) n) as [Hn|Hn]; [|lia].
  rewrite E; [lia|]. pose proof (Qfloor_le y). rewrite Hn in *. lra.
Qed.

(** A bound [c = m * 2^(ec - 52)] lies on the grid of every binade up to
    [ec]. *)
Lemma on_grid (c : Q) (m ec e : Z) :
  (c == inject_Z m * pow2 (ec - 52))%Q -> e <= ec ->
  (c / pow2 (e - 52) == inject_Z (m * 2 ^ (ec - e)))%Q.
Proof.
  intros Hc He. rewrite Hc.
  replace (ec - 52) with ((ec - e) + (e - 52)) by lia. rewrite pow2_plus.
  rewrite inject_Z_mult, <- pow2_inject by lia.
  field. apply Qnot_eq_sym, Qlt_not_eq, pow2_pos.
Qed.

Lemma binary64_positive_ge (c : Q) (m ec : Z) (x : Q) :
  (c == inject_Z m * pow2 (ec - 52))%Q -> -1022 <= ec -> (c < pow2 (ec + 1))%Q ->
  (0 < x)%Q -> (c <= x)%Q -> at_least c (binary64_positive x).
Proof.
  intros Hc Hec Hlt Hx Hle. unfold binary64_positive. cbv zeta.
  set (e := Z.max (binade x) (-1022)). set (ulp := pow2 (e - 52)).
  assert (Hu : (0 < ulp)%Q) by apply pow2_pos.
  assert (R : (c <= inject_Z (round_half_even (x / ulp)) * ulp)%Q).
  { destruct (Z_le_gt_dec e ec) as [He|He].
    - pose proof (on_grid c m ec e Hc He) as G. fold ulp in G.
      assert (K : (inject_Z (m * 2 ^ (ec - e)) <= x / ulp)%Q).
      { rewrite <- G. apply Qle_shift_div_l; [exact Hu|].
        apply Qle_trans with c; [|exact Hle]. apply Qle_lteq. right. field.
        apply Qnot_eq_sym, Qlt_not_eq, Hu. }
      apply round_half_even_ge in K. rewrite Zle_Qle in K.
      apply Qle_trans with (inject_Z (m * 2 ^ (ec - e)) * ulp)%Q.
      + rewrite <- G. apply Qle_lteq. right. field.
        apply Qnot_eq_sym, Qlt_not_eq, Hu.
      + apply Qmult_le_compat_r; [exact K | now apply Qlt_le_weak].
    - assert (Eb : e = binade x) by (unfold e in *; lia).
      pose proof (binade_lower x Hx) as B. rewrite <- Eb in B.
      assert (K : (inject_Z (2 ^ 52) <= x / ulp)%Q).
      { apply Qle_shift_div_l; [exact Hu|]. rewrite <- pow2_inject by lia.
        unfold ulp. rewrite <- pow2_plus. now replace (52 + (e - 52)) with e by lia. }
      apply round_half_even_ge in K. rewrite Zle_Qle in K.
      apply Qle_trans with (pow2 (ec + 1)); [now apply Qlt_le_weak|].
      apply Qle_trans with (pow2 e); [apply pow2_le; lia|].
      apply Qle_trans with (inject_Z (2 ^ 52) * ulp)%Q.
      + rewrite <- pow2_inject by lia. unfold ulp. rewrite <- pow2_plus.
        replace (52 + (e - 52)) with e by lia. apply Qle_refl.
      + apply Qmult_le_compat_r; [exact K | now apply Qlt_le_weak]. }
  destruct (Qle_bool _ _); [now left | right].
  eexists. split; [reflexivity|]. now rewrite Qred_correct.
Qed.

Lemma binary64_positive_le (c : Q) (m ec : Z) (x : Q) :
  (c == inject_Z m * pow2 (ec - 52))%Q -> -1022 <= ec -> (c < pow2 (ec + 1))%Q ->
  ec < 1024 ->
  (0 < x)%Q -> (x <= c)%Q ->
  exists r, binary64_positive x = Fin r /\ (0 <= r <= c)%Q.
Proof.
  intros Hc Hec Hlt Hmax Hx Hle. unfold binary64_positive. cbv zeta.
  set (e := Z.max (binade x) (-1022)). set (ulp := pow2 (e - 52)).
  assert (Hu : (0 < ulp)%Q) by apply pow2_pos.
  assert (He : e <= ec).
  { assert (binade x < ec + 1); [|unfold e; lia].
    apply pow2_lt_inv. apply Qle_lt_trans with x; [now apply binade_lower|].
    now apply Qle_lt_trans with c. }
  pose proof (on_grid c m ec e Hc He) as G. fold ulp in G.
  assert (K : (x / ulp <= inject_Z (m * 2 ^ (ec - e)))%Q).
  { rewrite <- G. apply Qle_shift_div_r; [exact Hu|].
    apply Qle_trans with c; [exact Hle|]. apply Qle_lteq. right. field.
    apply Qnot_eq_sym, Qlt_not_eq, Hu. }
  apply round_half_even_le in K. rewrite Zle_Qle in K.
  assert (P : (0 <= inject_Z (round_half_even (x / ulp)))%Q).
  { change 0%Q with (inject_Z 0). rewrite <- Zle_Qle. apply round_half_even_ge.
    apply Qle_shift_div_l; [exact Hu|]. rewrite Qmult_0_l. now apply Qlt_le_weak. }
  assert (R : (inject_Z (round_half_even (x / ulp)) * ulp <= c)%Q).
  { apply Qle_trans with (inject_Z (m * 2 ^ (ec - e)) * ulp)%Q.
    - apply Qmult_le_compat_r; [exact K | now apply Qlt_le_weak].
    - rewrite <- G. apply Qle_lteq. right. field.
      apply Qnot_eq_sym, Qlt_not_eq, Hu. }
  assert (N : Qle_bool (pow2 1024) (inject_Z (round_half_even (x / ulp)) * ulp) = false).
  { apply not_true_is_false. intros T. apply Qle_bool_iff in T.
    assert (L : (c < pow2 1024)%Q).
    { apply Qlt_le_trans with (pow2 (ec + 1)); [exact Hlt | apply pow2_le; lia]. }
    lra. }
  rewrite N. eexists. split; [reflexivity|]. rewrite Qred_correct. split; [|exact R].
  apply Qmult_le_0_compat; [exact P | now apply Qlt_le_weak].
Qed.


Lemma binary64_ge (c : Q) (m ec : Z) (x : num) :
  (c == inject_Z m * pow2 (ec - 52))%Q -> -1022 <= ec -> (c < pow2 (ec + 1))%Q ->
  (0 < c)%Q -> geb x (Fin c) = true -> at_least c (binary64 x).
Proof.
  intros Hc Hec Hlt H0 Hge. destruct x as [q| | |]; try discriminate; [|now left].
  assert (Hq : (c <= q)%Q).
  { unfold geb in Hge. cbn [cmp] in Hge.
    destruct (Qcompare_spec q c) as [E|L|G]; [lra | discriminate | lra]. }
  cbn [binary64]. unfold Qsign.
  assert (P : (0 < q)%Q) by lra.
  rewrite (proj1 (Qgt_alt _ _) P).
  now apply (binary64_positive_ge c m ec).
Qed.

Lemma binary64_le (c : Q) (m ec : Z) (q : Q) :
  (c == inject_Z m * pow2 (ec - 52))%Q -> -1022 <= ec -> (c < pow2 (ec + 1))%Q ->
  ec < 1024 -> (0 <= c)%Q -> (q <= c)%Q -> at_most c (binary64 (Fin q)).
Proof.
  intros Hc Hec Hlt Hmax H0 Hq. cbn [binary64]. unfold Qsign.
  destruct (Qcompare_spec q 0) as [E|L|G].
  - right. exists 0%Q. split; [reflexivity | exact H0].
  - assert (P : (0 < - q)%Q) by lra.
    destruct (binary64_positive_ge 0 0 0 (- q)) as [->|(r & -> & Hr)];
      [reflexivity | lia | reflexivity | exact P | now apply Qlt_le_weak | now left |].
    right. eexists. split; [reflexivity|]. rewrite Qred_correct. lra.
  - destruct (binary64_positive_le c m ec q Hc Hec Hlt Hmax G Hq) as (r & -> & Hr).
    right. exists r. split; [reflexivity | apply Hr].
Qed.

Lemma Math_round_at_least (k : Z) (x : num) :
  at_least (inject_Z k) x -> geb (Math_round x) (of_Z k) = true.
Proof.
  intros [->|(r & -> & Hr)]; [reflexivity|].
  cbn [Math_round]. unfold geb. rewrite cmp_of_Z.
  assert (k <= Qfloor (r + (1 # 2))).
  { rewrite <- (Qfloor_Z k). apply Qfloor_resp_le. lra. }
  destruct (Z.compare_spec (Qfloor (r + (1 # 2))) k); trivial; lia.
Qed.

Lemma Math_round_below (k : Z) (c : Q) (x : num) :
  (c + (1 # 2) < inject_Z k)%Q -> at_most c x -> geb (Math_round x) (of_Z k) = false.
Proof.
  intros Hc [->|(r & -> & Hr)]; [reflexivity|].
  cbn [Math_round]. unfold geb. rewrite cmp_of_Z.
  pose proof (Qfloor_le (r + (1 # 2))) as F.
  assert (L : (inject_Z (Qfloor (r + (1 # 2))) < inject_Z k)%Q) by lra.
  rewrite <- Zlt_Qlt in L.
  destruct (Z.compare_spec (Qfloor (r + (1 # 2))) k); trivial; lia.
Qed.

(** the percentage of a progress of at least 1 is at least 100 ... *)
Lemma percent_at_least (p : num) :
  geb p (of_Z 1) = true ->
  geb (Math_round (binary64 (binary64 p * of_Z 100)%num)) (of_Z 100) = true.
Proof.
  intros H. apply Math_round_at_least.
  destruct (binary64_ge 1 (2 ^ 52) 0 p) as [->|(r & -> & Hr)];
    [vm_compute; reflexivity | lia | reflexivity | reflexivity | exact H | now left |].
  apply (binary64_ge (inject_Z 100) (100 * 2 ^ 46) 6);
    [vm_compute; reflexivity | lia | reflexivity | reflexivity |].
  cbn [mul of_Z]. unfold geb. cbn [cmp].
  assert (L : (inject_Z 100 <= Qred (r * inject_Z 100))%Q).
  { rewrite Qred_correct. change (inject_Z 100) with 100%Q. lra. }
  destruct (Qcompare_spec (Qred (r * inject_Z 100)) (inject_Z 100)); trivial. lra.
Qed.

(** ... and that of a progress of at most 0.99 is below 100. *)
Lemma percent_below (q : Q) :
  (q <= 99 # 100)%Q ->
  geb (Math_round (binary64 (binary64 (Fin q) * of_Z 100)%num)) (of_Z 100) = false.
Proof.
  intros H. apply (Math_round_below 100 (397 # 4)); [reflexivity|].
  destruct (binary64_le (127 # 128) (127 * 2 ^ 46) (-1) q) as [->|(r & -> & Hr)];
    [vm_compute; reflexivity | lia | reflexivity | lia | discriminate | lra | now left |].
  cbn [mul of_Z].
  apply (binary64_le (397 # 4) (397 * 2 ^ 44) 6);
    [vm_compute; reflexivity | lia | reflexivity | lia | discriminate |].
  rewrite Qred_correct. change (inject_Z 100) with 100%Q. lra.
Qed.

End Binary64.

(** ** The preference model *)
Section PreferenceModel.

Import AudioFeatures UserPreferenceModel.

Variable tanhQ : Q -> Q.

Lemma clamp_dB_of_Z (k : Z) : clamp_dB (of_Z k) = of_Z (Z.max (-24) (Z.min 12 k)).
Proof. unfold clamp_dB. now rewrite Math_min_of_Z, Math_max_of_Z. Qed.

Lemma to_dB_cases (values : list num) (i : nat) :
  at_index values i <> NaN ->
  (exists k, to_dB values i = of_Z k) \/ to_dB values i = PInf \/ to_dB values i = NInf.
Proof.
  unfold to_dB. intros H.
  destruct (at_index values i) as [q| | |]; try congruence.
  - left. simpl. eauto.
  - right; left. reflexivity.
  - right; right. reflexivity.
Qed.

(** Whenever the network returns a number for a stem, the gain computed
    from it is an integer between -24 and 12. *)
Lemma gain_in_range (values : list num) (i : nat) :
  at_index values i <> NaN ->
  exists z, clamp_dB (to_dB values i) = of_Z z /\ -24 <= z <= 12.
Proof.
  intros H. destruct (to_dB_cases values i H) as [[k E]|[E|E]]; rewrite E.
  - exists (Z.max (-24) (Z.min 12 k)). split; [apply clamp_dB_of_Z | lia].
  - exists 12. split; [reflexivity | lia].
  - exists (-24). split; [reflexivity | lia].
Qed.

(** NaN passes through [Math.round], [Math.min] and [Math.max]. *)
Lemma gain_nan (values : list num) (i : nat) :
  at_index values i = NaN -> clamp_dB (to_dB values i) = NaN.
Proof. unfold to_dB. intros ->. reflexivity. Qed.

Lemma predict_numbers_in_range (values : list num) :
  (forall i, (i < outputSize)%nat -> at_index values i <> NaN) ->
  forall g, In g [ vocals (gains_of_values values); drums (gains_of_values values);
                   bass (gains_of_values values); other (gains_of_values values) ] ->
  exists z, g = of_Z z /\ -24 <= z <= 12.
Proof.
  intros H g Hg. unfold outputSize in H. simpl in Hg.
  destruct Hg as [<-|[<-|[<-|[<-|[]]]]]; apply gain_in_range, H; lia.
Qed.

(** *** A layer fed with zeros *)

Lemma Qred_zero_mul (q : Q) : Qred (0 * q) = 0%Q.
Proof. change 0%Q with (Qred 0) at 2. apply Qred_complete. apply Qmult_0_l. Qed.

Lemma fold_add_zeros (l : list num) :
  Forall (eq (of_Z 0)) l -> fold_left add l (of_Z 0) = of_Z 0.
Proof.
  induction 1 as [|x l <- _ IH]; simpl; [reflexivity|]. exact IH.
Qed.

Lemma dot_zeros (x : list num) (kq : list (list Q)) (j : nat) :
  Forall (eq (of_Z 0)) x -> dot x (map (map Fin) kq) j = of_Z 0.
Proof.
  intros Hx. unfold dot. apply fold_add_zeros.
  revert kq. induction Hx as [|xi x <- _ IH]; intros [|row kq]; simpl; constructor.
  - change (of_Z 0) with (Fin 0) at 2. rewrite (map_nth Fin). simpl.
    now rewrite Qred_zero_mul.
  - apply IH.
Qed.

Lemma imap_repeat_fixed {A} (f : nat -> A -> A) (z : A) (n : nat) :
  (forall j, f j z = z) -> imap f (repeat z n) = repeat z n.
Proof.
  revert f. induction n as [|n IH]; intros f Hf; simpl; [reflexivity|].
  rewrite Hf. f_equal. apply IH. intros j. apply Hf.
Qed.

Lemma dense_zeros (kq : list (list Q)) (units : nat) (a : Activation) (x : list num) :
  activate tanhQ a (of_Z 0) = of_Z 0 ->
  Forall (eq (of_Z 0)) x ->
  apply_dense tanhQ (dense kq units a) x = repeat (of_Z 0) units.
Proof.
  intros Ha Hx. unfold apply_dense, dense; simpl.
  apply imap_repeat_fixed. intros j.
  rewrite dot_zeros by exact Hx. exact Ha.
Qed.

Lemma Forall_repeat_eq {A} (z : A) (n : nat) : Forall (eq z) (repeat z n).
Proof. induction n; simpl; constructor; auto. Qed.

Lemma tanh_zero : (tanhQ 0 == 0)%Q -> activate tanhQ tanh (of_Z 0) = of_Z 0.
Proof.
  intros H. simpl. unfold of_Z. f_equal.
  change (inject_Z 0) with (Qred 0). now apply Qred_complete.
Qed.

Lemma createModel_zeros (draw : Draw) :
  (tanhQ 0 == 0)%Q ->
  model_predict tanhQ (createModel draw) (repeat (of_Z 0) inputSize)
  = Some (repeat (of_Z 0) outputSize).
Proof.
  intros H. unfold model_predict. rewrite repeat_length, Nat.eqb_refl. f_equal.
  unfold forward, createModel. cbn [fold_left].
  rewrite (dense_zeros (draw1 draw)) by (reflexivity || apply Forall_repeat_eq).
  rewrite (dense_zeros (draw2 draw)) by (reflexivity || apply Forall_repeat_eq).
  rewrite (dense_zeros (draw3 draw)) by (reflexivity || apply Forall_repeat_eq).
  apply dense_zeros; [now apply tanh_zero | apply Forall_repeat_eq].
Qed.

Lemma initialize_fresh (draw : Draw) (uid : string) (env : Env) :
  localStorage env !! ("userModel_" ++ uid)%string = None ->
  initialize draw (constructor uid) env
  = ({| userId := uid; model := Some (createModel draw); isInitialized := true |},
     log ("Created new model for user: " ++ uid)%string env).
Proof.
  intros H. unfold initialize, loadWeights, storage_key.
  change (isInitialized (constructor uid)) with false.
  change (userId (constructor uid)) with uid.
  now rewrite H.
Qed.

(** C9.  A model created afresh (nothing stored for the user, biases at
    zero, any kernels) maps the all-zero input to the internal output 0 on
    every stem, and [predict] returns -6 dB for all four stems. *)
Theorem predict_zero_input_fresh_model (draw : Draw) (uid : string) (env : Env) :
  (tanhQ 0 == 0)%Q ->
  localStorage env !! ("userModel_" ++ uid)%string = None ->
  model_predict tanhQ (createModel draw) (repeat (of_Z 0) inputSize)
    = Some (repeat (of_Z 0) outputSize) /\
  exists self env',
    predict tanhQ draw (constructor uid) env (repeat (of_Z 0) inputSize)
    = (self, env',
       Some {| vocals := of_Z (-6); drums := of_Z (-6);
               bass := of_Z (-6); other := of_Z (-6) |}) /\
    model self = Some (createModel draw).
Proof.
  intros Htanh Hfresh. split; [now apply createModel_zeros|].
  unfold predict. change (isInitialized (constructor uid)) with false.
  rewrite (initialize_fresh draw uid env Hfresh). cbn [model].
  rewrite createModel_zeros by exact Htanh.
  eexists _, _. split; reflexivity.
Qed.

End PreferenceModel.

(** The theorem with the stand-in for tanh, for "Alex" in an empty
    browser. *)
Lemma predict_zero_input_fresh_model_witness :
  (Scenario.softsign 0 == 0)%Q /\
  UserPreferenceModel.model_predict Scenario.softsign
    (UserPreferenceModel.createModel Scenario.draw0)
    (repeat (of_Z 0) UserPreferenceModel.inputSize)
  = Some (repeat (of_Z 0) UserPreferenceModel.outputSize).
Proof.
  split; [reflexivity|].
  apply (predict_zero_input_fresh_model Scenario.softsign Scenario.draw0 "Alex" Scenario.env0).
  - reflexivity.
  - reflexivity.
Defined.

(** ** A clip shorter than one flux window *)
Section ShortClip.

Import AudioFeatures UserPreferenceModel.

Lemma Qfloor_unit (q : Q) : (0 <= q)%Q -> (q < 1)%Q -> Qfloor q = 0.
Proof.
  intros H0 H1.
  pose proof (Qfloor_le q) as Hle. pose proof (Qlt_floor q) as Hlt.
  assert (A : (inject_Z (Qfloor q) < inject_Z 1)%Q) by (eapply Qle_lt_trans; eauto).
  assert (B : (inject_Z (-1) < inject_Z (Qfloor q))%Q).
  { apply (Qplus_lt_l _ _ (inject_Z 1)). rewrite <- !inject_Z_plus.
    apply Qle_lt_trans with q; [exact H0 | exact Hlt]. }
  rewrite <- Zlt_Qlt in A, B. lia.
Qed.

Lemma flux_loop_short (fuel : nat) (channelData : list num) (flux : num) :
  (length channelData <= windowSize)%nat ->
  flux_loop fuel channelData windowSize flux = flux.
Proof.
  intros H. destruct fuel; cbn [flux_loop]; [reflexivity|].
  destruct (Nat.ltb_spec windowSize (length channelData)); [lia | reflexivity].
Qed.

(** With fewer than 1024 samples the loop of [calculateSpectralFlux] never
    runs and the result is [0 / Math.floor(length / 1024) = 0 / 0]. *)
Lemma calculateSpectralFlux_short (channelData : list num) :
  (length channelData < windowSize)%nat -> calculateSpectralFlux channelData = NaN.
Proof.
  intros H. unfold calculateSpectralFlux.
  rewrite flux_loop_short by lia.
  set (n := Z.of_nat (length channelData)).
  assert (Hn : 0 <= n < 1024) by (unfold windowSize in H; lia).
  change (Z.of_nat windowSize) with 1024.
  assert (E : Math_floor (of_Z n / of_Z 1024)%num = of_Z 0).
  { simpl. unfold of_Z. do 2 f_equal.
    rewrite (Qfloor_comp _ _ (Qred_correct _)).
    apply Qfloor_unit.
    - apply Qle_shift_div_l; [reflexivity|]. rewrite Qmult_0_l.
      change 0%Q with (inject_Z 0). rewrite <- Zle_Qle. lia.
    - apply Qlt_shift_div_r; [reflexivity|]. rewrite Qmult_1_l.
      rewrite <- Zlt_Qlt. lia. }
  rewrite E. reflexivity.
Qed.

End ShortClip.

(** C2.  Whenever the network returns numbers, every gain of [predict] is
    an integer between -24 and 12 ([predict_numbers_in_range]); but the
    clamp lets NaN through.  The input vector extracted from a clip of
    three samples has NaN as its spectral flux; on it the network returns
    NaN and [predict] returns NaN for all four stems. *)
Theorem predict_nan_on_short_clip (tanhQ : Q -> Q) :
  length Scenario.short_clip_vector = UserPreferenceModel.inputSize /\
  AudioFeatures.at_index Scenario.short_clip_vector 6 = NaN /\
  exists self env',
    UserPreferenceModel.predict tanhQ Scenario.draw0
      (UserPreferenceModel.constructor "Alex") Scenario.env0
      Scenario.short_clip_vector
    = (self, env',
       Some {| vocals := NaN; drums := NaN; bass := NaN; other := NaN |}).
Proof.
  split; [reflexivity|]. split; [reflexivity|].
  eexists _, _. vm_compute. reflexivity.
Qed.

(** ** Saving and deleting songs *)
Section Songs.

Import UserPreferenceModel App.

Variable fit : Sequential -> FitCall -> option Sequential.

Lemma handleSaveMix_songs (draw : Draw) (st : State) (u : string) (mix : Song)
    (songs : gmap string (list Song)) :
  selected_user st = Some u ->
  save_updater u mix (songsByUser st) = Some songs ->
  exists st',
    handleSaveMix fit draw st mix = Rendered st' /\
    songsByUser st' = songs /\ user st' = user st /\ alerts st' = alerts st.
Proof.
  intros Hu Hs. unfold handleSaveMix. rewrite Hu, Hs.
  destruct (userModelRef st) as [m|]; [|eexists; now repeat split].
  destruct (features mix) as [f|]; [|eexists; now repeat split].
  destruct (gains mix) as [g|]; [|eexists; now repeat split].
  destruct (train fit draw m (env st) f g) as [[m' e'] b]. eexists; now repeat split.
Qed.

Lemma selected_user_eq (st st' : State) : user st' = user st -> selected_user st' = selected_user st.
Proof. unfold selected_user. now intros ->. Qed.

Lemma existsb_same_song (mix : Song) (l : list Song) :
  existsb (same_song mix) l = true <->
  exists s, In s l /\ title s = title mix /\ details s = details mix.
Proof.
  rewrite existsb_exists. unfold same_song.
  split; intros (s & Hs & H); exists s; split; trivial.
  - apply andb_prop in H as [H1 H2].
    split; eapply bool_decide_eq_true_1; eauto.
  - destruct H as [H1 H2]. rewrite !bool_decide_eq_true_2; auto.
Qed.

(** A user who has a list, or whose name no object inherits, is looked up
    as in a map. *)
Lemma songs_of_own (prev : gmap string (list Song)) (u : string) (l : list Song) :
  prev !! u = Some l -> songs_of prev u = Some l.
Proof. unfold songs_of. now intros ->. Qed.

Lemma songs_of_none (prev : gmap string (list Song)) (u : string) :
  prev !! u = None -> u ∉ inherited -> songs_of prev u = Some [].
Proof.
  intros H N. unfold songs_of. rewrite H. now rewrite bool_decide_eq_false_2.
Qed.

Lemma songs_of_default (prev : gmap string (list Song)) (u : string) (l : list Song) :
  songs_of prev u = Some l -> default [] (prev !! u) = l.
Proof.
  unfold songs_of. destruct (prev !! u); [now intros [= ->]|].
  destruct (bool_decide _); [discriminate | now intros [= <-]].
Qed.

(** A user named like a member of [Object.prototype], without a list: the
    updater throws. *)
Lemma save_updater_inherited (u : string) (mix : Song) (prev : gmap string (list Song)) :
  u ∈ inherited -> prev !! u = None -> save_updater u mix prev = None.
Proof.
  intros H N. unfold save_updater, songs_of. rewrite N.
  now rewrite bool_decide_eq_true_2.
Qed.

Lemma save_updater_duplicate (u : string) (mix : Song) (prev : gmap string (list Song))
    (l : list Song) :
  songs_of prev u = Some l ->
  (exists s, In s l /\ title s = title mix /\ details s = details mix) ->
  save_updater u mix prev = Some prev.
Proof.
  intros Hl H. unfold save_updater. rewrite Hl.
  now rewrite (proj2 (existsb_same_song mix _) H).
Qed.

Lemma save_updater_first (u : string) (mix : Song) (prev : gmap string (list Song)) :
  songs_of prev u = Some [] ->
  save_updater u mix prev = Some (<[u := [mix]]> prev).
Proof. intros H. unfold save_updater. now rewrite H. Qed.

(** For a user who has a list, or whose name no object inherits, saving a
    mix whose title and gain summary both equal those of a song already
    saved for that user leaves the song lists unchanged; and after saving
    two mixes with the same title and the same summary, starting without
    songs, exactly one is stored. *)
Lemma handleSaveMix_rejects_duplicate (draw : Draw) (st : State) (u : string)
    (mix : Song) (l : list Song) :
  selected_user st = Some u ->
  songs_of (songsByUser st) u = Some l ->
  ((exists s, In s l /\ title s = title mix /\ details s = details mix) ->
   exists st', handleSaveMix fit draw st mix = Rendered st' /\
               songsByUser st' = songsByUser st)
  /\
  (forall mix2,
     title mix2 = title mix -> details mix2 = details mix -> l = [] ->
     exists st2,
       and_then (handleSaveMix fit draw st mix) (fun st1 => handleSaveMix fit draw st1 mix2)
       = Rendered st2 /\
       songsByUser st2 !! u = Some [mix]).
Proof.
  intros Hu Hl. split.
  - intros Hdup.
    destruct (handleSaveMix_songs draw st u mix _ Hu (save_updater_duplicate u mix _ l Hl Hdup))
      as (st' & E & S & _). eauto.
  - intros mix2 Ht Hd ->.
    destruct (handleSaveMix_songs draw st u mix _ Hu (save_updater_first u mix _ Hl))
      as (st1 & E1 & S1 & U1 & _).
    rewrite E1. cbn [and_then].
    assert (Hu1 : selected_user st1 = Some u)
      by (rewrite (selected_user_eq _ _ U1); exact Hu).
    assert (L1 : songs_of (songsByUser st1) u = Some [mix])
      by (apply songs_of_own; rewrite S1; apply lookup_insert_eq).
    assert (D1 : save_updater u mix2 (songsByUser st1) = Some (songsByUser st1)).
    { apply (save_updater_duplicate u mix2 _ [mix] L1). exists mix. simpl. auto. }
    destruct (handleSaveMix_songs draw st1 u mix2 _ Hu1 D1) as (st2 & E2 & S2 & _).
    exists st2. split; [exact E2|]. rewrite S2, S1. apply lookup_insert_eq.
Qed.

End Songs.

(** Alex saves "track" twice: one song is stored. *)
Example alex_saves_twice :
  exists st2,
    App.and_then
      (App.handleSaveMix Scenario.nudge Scenario.draw0 Scenario.alex_empty Scenario.alex_mix)
      (fun st1 => App.handleSaveMix Scenario.nudge Scenario.draw0 st1 Scenario.alex_mix)
    = App.Rendered st2 /\
    App.songsByUser st2 !! "Alex" = Some [Scenario.alex_mix].
Proof.
  apply (handleSaveMix_rejects_duplicate Scenario.nudge Scenario.draw0
           Scenario.alex_empty "Alex" Scenario.alex_mix []); reflexivity.
Qed.

(** C5.  The claim holds for every user who has a list or whose name no
    object inherits ([handleSaveMix_rejects_duplicate]), but not for every
    user.  A profile may be named "constructor"; with nothing saved for
    it, [prev[user] || []] is the function that every object inherits
    under that name, [list.some] is not a function and the updater
    throws: after two saves of one mix no song is stored, where the claim
    says one. *)
Theorem handleSaveMix_inherited_name_stores_nothing :
  let st := Scenario.constructor_empty in
  let save st := App.handleSaveMix Scenario.nudge Scenario.draw0 st Scenario.alex_mix in
  App.selected_user st = Some "constructor" /\
  App.songsByUser st !! "constructor" = None /\
  App.save_updater "constructor" Scenario.alex_mix (App.songsByUser st) = None /\
  (exists e, save st = App.Thrown e) /\
  (exists e, App.and_then (save st) save = App.Thrown e).
Proof.
  cbv zeta. split; [reflexivity|]. split; [reflexivity|]. split; [reflexivity|].
  split; eexists; vm_compute; reflexivity.
Qed.

Section Training.

Import UserPreferenceModel App.

Variable fit : Sequential -> FitCall -> option Sequential.



(** A feature vector that has not [inputSize] entries makes [model.fit]
    throw, whatever the optimiser. *)
Lemma model_fit_shape (s : Sequential) (f : list num) (targets : list (list num))
    (epochs batchSize : nat) :
  length f <> inputSize ->
  model_fit fit s {| fit_inputs := [f]; fit_targets := targets;
                     fit_epochs := epochs; fit_batchSize := batchSize |} = None.
Proof.
  intros H. unfold model_fit. cbn [fit_inputs].
  now destruct (Nat.eqb_spec (length f) inputSize).
Qed.


(** C7.  Deleting the only saved song of the selected user empties the
    list and leaves the model alone: same model object, same stored
    parameters, no call of [model.fit], no alert; the console gets at most
    the line saying that no songs remain. *)
Theorem handleDeleteSong_only_song (draw : Draw) (st : State) (u : string) (song : Song) :
  selected_user st = Some u ->
  songsByUser st !! u = Some [song] ->
  exists st',
    handleDeleteSong fit draw st 0 = Rendered st' /\
    songsByUser st' !! u = Some [] /\
    userModelRef st' = userModelRef st /\
    localStorage (env st') = localStorage (env st) /\
    fitCalls (env st') = fitCalls (env st) /\
    alerts st' = alerts st /\
    (console (env st') = console (env st) \/
     console (env st') = console (env st)
       ++ ["No songs remaining, model will use default predictions"]).
Proof.
  intros Hu Hs. unfold handleDeleteSong. rewrite Hu, (songs_of_own _ _ _ Hs).
  change (remove_index 0 [song]) with (@nil Song).
  change (0 <? length (@nil Song))%nat with false.
  destruct (userModelRef st) as [m|]; [destruct (isInitialized m)|];
    (eexists; split; [reflexivity|]);
    cbn [songsByUser userModelRef env alerts log localStorage fitCalls console];
    rewrite lookup_insert_eq; repeat split; auto.
Qed.

End Training.



(** A mix whose feature vector has 22 entries: [model.fit] throws, the
    error is logged, nothing is stored for the model, and the mix is
    saved. *)
Example handleSaveMix_short_vector :
  exists st',
    App.handleSaveMix Scenario.nudge Scenario.draw0 Scenario.alex_empty Scenario.short_mix
    = App.Rendered st' /\
    App.userModelRef st' = App.userModelRef Scenario.alex_empty /\
    UserPreferenceModel.localStorage (App.env st') = ∅ /\
    UserPreferenceModel.console (App.env st') = ["Error training model:"%string] /\
    App.songsByUser st' !! "Alex" = Some [Scenario.short_mix].
Proof. eexists. split; [vm_compute; reflexivity|]. repeat split; reflexivity. Qed.

(** The theorem for Alex deleting the only saved song. *)
Lemma handleDeleteSong_only_song_witness :
  App.selected_user Scenario.alex_state = Some "Alex" /\
  exists st',
    App.handleDeleteSong Scenario.nudge Scenario.draw0 Scenario.alex_state 0
    = App.Rendered st' /\
    App.songsByUser st' !! "Alex" = Some [].
Proof.
  split; [reflexivity|].
  destruct (handleDeleteSong_only_song Scenario.nudge Scenario.draw0
              Scenario.alex_state "Alex" Scenario.alex_mix eq_refl eq_refl)
    as (st' & H1 & H2 & _).
  exists st'. split; [exact H1 | exact H2].
Defined.

(** ** The debounce of slider edits *)
Section Debounce.

Import Mixer.

Lemma frame_refl (st : State) : frame st st.
Proof. unfold frame; repeat split; auto. Qed.

Lemma frame_trans (a b c : State) : frame a b -> frame b c -> frame a c.
Proof.
  unfold frame. intros (A1 & A2 & A3 & A4 & A5 & A6 & A7 & A8)
                       (B1 & B2 & B3 & B4 & B5 & B6 & B7 & B8).
  repeat split; try congruence; auto.
Qed.

Lemma frame_on_audio (a : nat) (f : Audio.t -> Audio.t) (st s : State) :
  frame st s -> frame st (on_audio a f s).
Proof.
  intros H. apply (frame_trans _ _ _ H). unfold frame; cbn; repeat split; auto.
Qed.

Lemma frame_on_handover (id : nat) (f : Handover -> Handover) (st s : State) :
  frame st s -> frame st (on_handover id f s).
Proof.
  intros H. apply (frame_trans _ _ _ H). unfold frame; cbn; repeat split; auto.
Qed.

Lemma frame_set_audioRef (a : nat) (st s : State) :
  frame st s -> frame st (set_audioRef (Some a) s).
Proof.
  intros H. apply (frame_trans _ _ _ H). unfold frame; cbn; repeat split; eauto.
Qed.

Lemma frame_set_plays (l : list nat) (st s : State) :
  frame st s -> frame st (set_plays l s).
Proof.
  intros H. apply (frame_trans _ _ _ H). unfold frame; cbn; repeat split; auto.
Qed.

Lemma frame_console_error (msg : string) (st s : State) :
  frame st s -> frame st (console_error msg s).
Proof.
  intros H. apply (frame_trans _ _ _ H). unfold frame; cbn; repeat split; auto.
Qed.

Lemma frame_alert (msg : string) (st s : State) :
  frame st s -> frame st (alert msg s).
Proof.
  intros H. apply (frame_trans _ _ _ H). unfold frame; cbn; repeat split; auto.
Qed.

Lemma frame_clearTimer (id : positive) (st s : State) :
  frame st s -> frame st (clearTimer id s).
Proof.
  intros H. apply (frame_trans _ _ _ H). unfold frame; cbn; repeat split; auto.
  intros t Ht. apply filter_In in Ht. tauto.
Qed.

Lemma mix_requests_fetch (req : Request) (k : Continuation) (st : State) :
  mix_requests (fetch req k st)
  = mix_requests st ++ match req with MixRequest g => [g] | _ => [] end.
Proof.
  unfold mix_requests, fetch; cbn. rewrite omap_app. now destruct req.
Qed.

Lemma frame_poll (st : State) : frame st (fetch ProgressRequest KPoll st).
Proof.
  unfold frame. rewrite mix_requests_fetch, app_nil_r. cbn. repeat split; auto.
Qed.

(** The handlers of a handover are sequences of such steps. *)
Ltac frame_steps :=
  repeat first
    [ apply frame_refl
    | apply frame_on_audio
    | apply frame_on_handover
    | apply frame_set_audioRef
    | apply frame_set_plays
    | apply frame_console_error
    | apply frame_alert
    | apply frame_clearTimer
    | match goal with
      | |- frame _ (if ?c then _ else _) => destruct c
      | |- frame _ (match ?o with Some _ => _ | None => _ end) => destruct o
      end ].

Lemma frame_handleCanPlay (id : nat) (st : State) : frame st (handleCanPlay id st).
Proof. unfold handleCanPlay, swap. cbv zeta. frame_steps. Qed.

Lemma frame_fallback (id : nat) (st : State) : frame st (fallback id st).
Proof.
  unfold fallback.
  destruct (handovers st !! id) as [h|]; [|apply frame_refl].
  destruct (audios st !! h_newAudio h) as [newAudio|]; [|apply frame_refl].
  destruct (_ && _); [apply frame_handleCanPlay | apply frame_refl].
Qed.

Lemma frame_fade_tick (id : nat) (st : State) : frame st (fade_tick id st).
Proof. unfold fade_tick. cbv zeta. frame_steps. Qed.

(** No callback other than the debounce timeout and the timeout of the
    [autoPlay] effect touches what the debounce reads, sends a render
    request or arms a timer. *)
Lemma frame_run_callback (cb : Callback) (st : State) :
  is_update cb = false -> is_autoplay cb = false -> frame st (run_callback cb st).
Proof.
  destruct cb; simpl; intros H H'; try discriminate.
  - apply frame_fallback.
  - apply frame_fade_tick.
  - apply frame_alert, frame_refl.
  - apply frame_poll.
Qed.

Lemma debouncing_frame (id : positive) (g : GainSettings) (d : nat)
    (base : list GainSettings) (st st' : State) :
  debouncing id g d base st -> frame st st' -> debouncing id g d base st'.
Proof.
  intros (G & P & Q & A & R & T & M) (F1 & F2 & F3 & F4 & F5 & F6 & F7 & F8).
  unfold debouncing. rewrite F1, F2, F3, F4, F6.
  repeat split; auto.
  - rewrite List.Forall_forall in *. auto.
  - destruct M as [M|[M N]]; [now left | right]. split; trivial.
    rewrite List.Forall_forall in *. auto.
Qed.

Lemma debouncing_rearm (id id' : positive) (g : GainSettings) (d : nat)
    (base : list GainSettings) (st : State) :
  debouncing id g d base st -> debouncing id g d base (rearm id' st).
Proof.
  intros (G & P & Q & A & R & T & M).
  unfold debouncing, rearm; cbn. repeat split; auto.
  - rewrite List.Forall_forall in *. intros t' Ht'.
    apply in_map_iff in Ht' as (t & <- & Ht). specialize (T t Ht).
    destruct (period t) as [p|] eqn:Ep; [|exact T].
    destruct (timer_id t =? id')%positive; [|exact T].
    unfold armed in *; cbn. destruct T as [T0 T]. split; [exact T0|].
    intros U. destruct (T U) as (C & I & N & D).
    congruence.
  - destruct M as [M|[M N]]; [now left | right]. split; trivial.
    rewrite List.Forall_forall in *. intros t' Ht'.
    apply in_map_iff in Ht' as (t & <- & Ht). specialize (N t Ht).
    destruct (period t); [destruct (timer_id t =? id')%positive|]; exact N.
Qed.

Lemma is_pending_false (id : positive) (st : State) :
  Forall (fun t => timer_id t <> id) (timers st) -> is_pending id st = false.
Proof.
  intros H. unfold is_pending. apply not_true_is_false. intros E.
  apply existsb_exists in E as (t & Ht & E). apply Pos.eqb_eq in E.
  rewrite List.Forall_forall in H. exact (H t Ht E).
Qed.

Lemma clearTimer_gone (id : positive) (st : State) :
  Forall (fun t => timer_id t <> id) (timers (clearTimer id st)).
Proof.
  unfold clearTimer; cbn. apply List.Forall_forall. intros t Ht.
  apply filter_In in Ht as [_ Ht]. apply negb_true_iff, Pos.eqb_neq in Ht. exact Ht.
Qed.

(** The timeout of the debounce, when it fires: at most one request, with
    the gains it was armed with. *)
Lemma updatePlayingAudio_sends (g : GainSettings) (st : State) :
  frame st (updatePlayingAudio g st) \/
  (mix_requests (updatePlayingAudio g st) = mix_requests st ++ [g] /\
   gains (updatePlayingAudio g st) = gains st /\
   playing (updatePlayingAudio g st) = playing st /\
   paused (updatePlayingAudio g st) = paused st /\
   audioRef (updatePlayingAudio g st) = audioRef st /\
   updateTimeoutRef (updatePlayingAudio g st) = updateTimeoutRef st /\
   timers (updatePlayingAudio g st) = timers st).
Proof.
  unfold updatePlayingAudio.
  destruct (audioRef st) as [a|] eqn:Ea; [|left; apply frame_refl].
  destruct (audios st !! a) as [oldAudio|]; [|left; apply frame_refl].
  right. rewrite mix_requests_fetch. cbn. repeat split; auto.
Qed.

Lemma debouncing_fire (id : positive) (g : GainSettings) (d : nat)
    (base : list GainSettings) (t : Timer) (st : State) :
  debouncing id g d base st -> armed id g d t -> debouncing id g d base (fire t st).
Proof.
  intros D [Ta T]. unfold fire.
  destruct (is_pending (timer_id t) st) eqn:Ep; [|exact D].
  destruct (is_update (callback t)) eqn:Eu.
  - destruct (T eq_refl) as (C & I & N & _). rewrite N, C, I in *. cbn [run_callback].
    assert (D1 : debouncing id g d base (clearTimer id st))
      by (eapply debouncing_frame; [exact D | apply frame_clearTimer, frame_refl]).
    destruct D1 as (G & P & Q & A & R & F & M).
    destruct M as [M|[M Gone]].
    + pose proof (clearTimer_gone id st) as Gone.
      destruct (updatePlayingAudio_sends g (clearTimer id st))
        as [Fr|(S1 & S2 & S3 & S4 & S5 & S6 & S7)].
      * eapply debouncing_frame; [|exact Fr]. unfold debouncing. auto 10.
      * unfold debouncing. rewrite S1, S2, S3, S4, S5, S6, S7, M. auto 10.
    + destruct D as (_ & _ & _ & _ & _ & _ & [M0|[_ Gone0]]).
      * exfalso. clear -M M0 Ep.
        change (mix_requests (clearTimer id st)) with (mix_requests st) in M.
        rewrite M0 in M.
        apply (f_equal (@length _)) in M. rewrite length_app in M. simpl in M. lia.
      * rewrite (is_pending_false id st Gone0) in Ep. discriminate.
  - assert (D1 : debouncing id g d base
                   match period t with
                   | Some _ => rearm (timer_id t) st
                   | None => clearTimer (timer_id t) st
                   end).
    { destruct (period t).
      - now apply debouncing_rearm.
      - eapply debouncing_frame; [exact D | apply frame_clearTimer, frame_refl]. }
    eapply debouncing_frame; [exact D1 | now apply frame_run_callback].
Qed.

Lemma debouncing_fold_fire (id : positive) (g : GainSettings) (d : nat)
    (base : list GainSettings) (l : list Timer) (st : State) :
  debouncing id g d base st -> Forall (armed id g d) l ->
  debouncing id g d base (fold_left (fun s t => fire t s) l st).
Proof.
  revert st. induction l as [|t l IH]; intros st D H; simpl; [exact D|].
  inversion H; subst. apply IH; trivial. now apply debouncing_fire.
Qed.

Lemma debouncing_tick (id : positive) (g : GainSettings) (d : nat)
    (base : list GainSettings) (st : State) :
  debouncing id g d base st -> debouncing id g d base (tick st).
Proof.
  intros D. unfold tick. cbv zeta.
  assert (D1 : debouncing id g d base (set_now (S (now st)) st)) by exact D.
  apply debouncing_fold_fire; [exact D1|].
  destruct D1 as (_ & _ & _ & _ & _ & T & _).
  rewrite List.Forall_forall in *. intros t Ht. apply filter_In in Ht as [Ht _]. auto.
Qed.

Lemma now_run_callback (cb : Callback) (st : State) : now (run_callback cb st) = now st.
Proof.
  destruct (is_update cb) eqn:E; [|destruct (is_autoplay cb) eqn:E'].
  - destruct cb; try discriminate. cbn. unfold updatePlayingAudio.
    destruct (audioRef st) as [a|]; trivial. now destruct (audios st !! a).
  - destruct cb; try discriminate. reflexivity.
  - now destruct (frame_run_callback cb st E E') as (_ & _ & _ & _ & H & _).
Qed.

Lemma now_fire (t : Timer) (st : State) : now (fire t st) = now st.
Proof.
  unfold fire. destruct (is_pending _ _); trivial.
  rewrite now_run_callback. now destruct (period t).
Qed.

Lemma now_fold_fire (l : list Timer) (st : State) :
  now (fold_left (fun s t => fire t s) l st) = now st.
Proof.
  revert st. induction l as [|t l IH]; intros st; simpl; trivial.
  now rewrite IH, now_fire.
Qed.

Lemma now_tick (st : State) : now (tick st) = S (now st).
Proof. unfold tick. cbv zeta. now rewrite now_fold_fire. Qed.

Lemma mix_requests_fire_quiet (t : Timer) (st : State) :
  is_update (callback t) = false -> is_autoplay (callback t) = false ->
  mix_requests (fire t st) = mix_requests st.
Proof.
  intros Q Q'. unfold fire. destruct (is_pending _ _); trivial.
  destruct (frame_run_callback (callback t)
              match period t with
              | Some _ => rearm (timer_id t) st
              | None => clearTimer (timer_id t) st
              end Q Q') as (_ & _ & _ & _ & _ & H & _).
  rewrite H. now destruct (period t).
Qed.

Lemma mix_requests_fold_quiet (l : list Timer) (st : State) :
  Forall (fun t => is_update (callback t) = false /\ is_autoplay (callback t) = false) l ->
  mix_requests (fold_left (fun s t => fire t s) l st) = mix_requests st.
Proof.
  revert st. induction l as [|t l IH]; intros st H; simpl; trivial.
  inversion H as [|? ? [Q Q'] H']; subst. rewrite IH by assumption.
  now apply mix_requests_fire_quiet.
Qed.

(** Before the timeout is due, a millisecond sends nothing. *)
Lemma tick_early (id : positive) (g : GainSettings) (d : nat)
    (base : list GainSettings) (st : State) :
  debouncing id g d base st -> (S (now st) < d)%nat ->
  mix_requests (tick st) = mix_requests st.
Proof.
  intros (_ & _ & _ & _ & _ & T & _) Hd. unfold tick. cbv zeta.
  rewrite mix_requests_fold_quiet; [reflexivity|].
  rewrite List.Forall_forall in *. intros t Ht.
  apply filter_In in Ht as [Ht Hdue]. cbn in Ht, Hdue.
  unfold is_due in Hdue. apply Nat.leb_le in Hdue.
  destruct (T t Ht) as [Ta Tu]. split; [|exact Ta].
  destruct (is_update (callback t)) eqn:E; trivial.
  destruct (Tu eq_refl) as (_ & _ & _ & D). lia.
Qed.

Lemma ticks_early (id : positive) (g : GainSettings) (d : nat)
    (base : list GainSettings) (n : nat) (st : State) :
  debouncing id g d base st -> (now st + n < d)%nat ->
  debouncing id g d base (run st (repeat Tick n)) /\
  mix_requests (run st (repeat Tick n)) = mix_requests st /\
  now (run st (repeat Tick n)) = (now st + n)%nat.
Proof.
  revert st. induction n as [|n IH]; intros st D Hn; unfold run in *; simpl.
  - split; [exact D|]. split; [reflexivity | lia].
  - destruct (IH (tick st)) as (D' & M' & N').
    + now apply debouncing_tick.
    + rewrite now_tick. lia.
    + split; [exact D'|]. split.
      * rewrite M'. eapply tick_early; [exact D | lia].
      * rewrite N', now_tick. lia.
Qed.

Lemma ticks_late (id : positive) (g : GainSettings) (d : nat)
    (base : list GainSettings) (n : nat) (st : State) :
  debouncing id g d base st -> debouncing id g d base (run st (repeat Tick n)).
Proof.
  revert st. induction n as [|n IH]; intros st D; unfold run in *; simpl; [exact D|].
  apply IH. now apply debouncing_tick.
Qed.

Lemma debouncing_ok (id : positive) (g : GainSettings) (d : nat)
    (base : list GainSettings) (st : State) :
  debouncing id g d base st ->
  playing st = true /\ paused st = false /\ is_Some (audioRef st) /\ debounce_ok st.
Proof.
  intros (_ & P & Q & A & R & T & _). repeat split; trivial.
  unfold debounce_ok. rewrite List.Forall_forall in *. intros t Ht U.
  destruct (proj2 (T t Ht) U) as (_ & I & N & _). now rewrite R, I.
Qed.

Lemma debouncing_auto_play_done (id : positive) (g : GainSettings) (d : nat)
    (base : list GainSettings) (st : State) :
  debouncing id g d base st -> auto_play_done st.
Proof.
  intros (_ & _ & _ & _ & _ & T & _). unfold auto_play_done.
  rewrite List.Forall_forall in *. intros t Ht. apply (T t Ht).
Qed.

Lemma mix_requests_handleChange (key : Stem) (val : Z) (st : State) :
  mix_requests (handleChange key val st) = mix_requests st.
Proof.
  unfold handleChange. cbv zeta.
  destruct (_ && _); [|reflexivity].
  cbn [updateTimeoutRef set_gains]. now destruct (updateTimeoutRef st).
Qed.

(** An edit while a mix plays clears the pending timeout and arms a new
    one, 200 ms ahead, with the gains just set. *)
Lemma handleChange_arms (key : Stem) (val : Z) (st : State) :
  playing st = true -> paused st = false -> is_Some (audioRef st) -> debounce_ok st ->
  auto_play_done st ->
  debouncing (nextTimer st) (set_gain key (of_Z val) (gains st)) (now st + 200)
    (mix_requests st) (handleChange key val st) /\
  now (handleChange key val st) = now st.
Proof.
  intros P Q A Ok Done. unfold handleChange. cbv zeta.
  cbn [playing paused audioRef updateTimeoutRef set_gains].
  rewrite P, Q, (bool_decide_eq_true_2 _ A). cbn [andb negb].
  unfold debounce_ok in Ok. unfold auto_play_done in Done.
  rewrite List.Forall_forall in Ok, Done.
  assert (New : armed (nextTimer st) (set_gain key (of_Z val) (gains st)) (now st + 200)
                  {| timer_id := nextTimer st; due := now st + 200; period := None;
                     callback := CbUpdatePlayingAudio (set_gain key (of_Z val) (gains st)) |})
    by (split; [reflexivity | intros _; cbn; auto]).
  destruct (updateTimeoutRef st) as [id0|] eqn:R; cbn;
    (split; [|reflexivity]); unfold debouncing; cbn;
    repeat split; auto; apply Forall_app; split; try (constructor; [exact New | constructor]);
    apply List.Forall_forall; intros t Ht.
  - apply filter_In in Ht as [Ht Hne]. split; [now apply Done|]. intros U.
    destruct (Ok t Ht U) as [E _].
    injection E as ->. rewrite Pos.eqb_refl in Hne. discriminate.
  - split; [now apply Done|]. intros U. destruct (Ok t Ht U) as [E _]. discriminate.
Qed.

Lemma run_app (st : State) (es es' : list Event) :
  run st (es ++ es') = run (run st es) es'.
Proof. unfold run. apply fold_left_app. Qed.

(** The edits of a burst that follow the first: each comes less than
    200 ms after the one before, so no timeout fires in between. *)
Lemma burst_rest (base : list GainSettings) (rest : list (nat * (Stem * Z))) :
  forall (st : State) (id : positive),
  debouncing id (gains st) (now st + 200) base st ->
  mix_requests st = base ->
  Forall (fun e => (fst e < 200)%nat) rest ->
  let st' := run st (flat_map (fun e => repeat Tick (fst e) ++ [Change (fst (snd e)) (snd (snd e))]) rest) in
  (exists id', debouncing id' (gains st') (now st' + 200) base st') /\
  mix_requests st' = base /\
  gains st' = fold_left (fun g e => set_gain (fst (snd e)) (of_Z (snd (snd e))) g) rest (gains st).
Proof.
  induction rest as [|[gap [k v]] rest IH]; intros st id D M H; cbn [flat_map].
  - cbn. eauto.
  - apply List.Forall_cons_iff in H as [Hgap Hrest]. cbn [fst snd] in *.
    cbv zeta. rewrite !run_app.
    destruct (ticks_early id (gains st) (now st + 200) base gap st D) as (D1 & M1 & N1); [lia|].
    set (s1 := run st (repeat Tick gap)) in *.
    destruct (debouncing_ok _ _ _ _ _ D1) as (P & Q & A & Ok).
    pose proof (debouncing_auto_play_done _ _ _ _ _ D1) as Done.
    destruct (handleChange_arms k v s1 P Q A Ok Done) as (D2 & N2).
    change (run s1 [Change k v]) with (handleChange k v s1).
    set (s2 := handleChange k v s1) in *.
    assert (G1 : gains s1 = gains st) by apply D1.
    assert (G2 : gains s2 = set_gain k (of_Z v) (gains s1)) by apply D2.
    assert (M2 : mix_requests s2 = base)
      by (unfold s2; now rewrite mix_requests_handleChange, M1).
    rewrite <- G2, <- N2, M1, M in D2.
    destruct (IH s2 (nextTimer s1) D2 M2 Hrest) as (E1 & E2 & E3).
    split; [exact E1|]. split; [exact E2|].
    rewrite E3, G2, G1. reflexivity.
Qed.

(** The burst from any state in which a mix plays, the invariant of the
    debounce holds and the timeout of the [autoPlay] effect is not pending:
    nothing is sent while it lasts, at most one render request afterwards,
    with the gains after the last edit, and none before 200 ms of quiet. *)
Lemma debounce_burst (st : State) (k0 : Stem) (v0 : Z)
    (rest : list (nat * (Stem * Z))) (quiet : nat) :
  playing st = true -> paused st = false -> is_Some (audioRef st) ->
  debounce_ok st -> auto_play_done st ->
  Forall (fun e => (fst e < 200)%nat) rest ->
  let final := edited (gains st) k0 v0 rest in
  let during := run st (burst k0 v0 rest) in
  let after := run during (repeat Tick quiet) in
  gains after = final /\
  mix_requests during = mix_requests st /\
  (mix_requests after = mix_requests st \/
   mix_requests after = mix_requests st ++ [final]) /\
  ((quiet < 200)%nat -> mix_requests after = mix_requests st).
Proof.
  intros P Q A Ok Done Hrest final during after.
  destruct (handleChange_arms k0 v0 st P Q A Ok Done) as (D1 & N1).
  set (s1 := handleChange k0 v0 st) in *.
  assert (G1 : gains s1 = set_gain k0 (of_Z v0) (gains st)) by apply D1.
  assert (M1 : mix_requests s1 = mix_requests st)
    by apply mix_requests_handleChange.
  rewrite <- G1, <- N1 in D1.
  destruct (burst_rest (mix_requests st) rest s1 (nextTimer st) D1 M1 Hrest)
    as ([id D] & M & G).
  assert (E : during
              = run s1 (flat_map (fun e => repeat Tick (fst e)
                                           ++ [Change (fst (snd e)) (snd (snd e))]) rest))
    by reflexivity.
  rewrite <- E in D, M, G.
  assert (Gf : gains during = final) by (rewrite G, G1; reflexivity).
  rewrite Gf in D.
  pose proof (ticks_late id final _ _ quiet during D) as (Ga & _ & _ & _ & _ & _ & Ma).
  fold after in Ga, Ma.
  split; [exact Ga|]. split; [exact M|]. split.
  - destruct Ma as [Ma|[Ma _]]; auto.
  - intros Hq.
    destruct (ticks_early id final _ _ quiet during D) as (_ & Me & _); [lia|].
    fold after in Me. now rewrite Me.
Qed.

End Debounce.

(** ** The timer invariants hold in every reachable state *)
Section Reachable.

Import Mixer.

Section Tame.

Context {X : Type}.
Variable kind : Callback -> bool.
Variable ref : State -> X.

Lemma tame_refl (st : State) : tame kind ref st st.
Proof. split; [reflexivity|]. intros t Ht _. eauto. Qed.

Lemma tame_trans (a b c : State) :
  tame kind ref a b -> tame kind ref b c -> tame kind ref a c.
Proof.
  intros [A1 A2] [B1 B2]. split; [congruence|].
  intros t'' Ht'' U. destruct (B2 t'' Ht'' U) as (t' & Ht' & I & P & C).
  destruct (A2 t' Ht') as (t & Ht & I' & P' & C'); [now rewrite C|].
  exists t. repeat split; congruence.
Qed.

(** a step that leaves the timers and the reference alone *)
Lemma tame_same (st s s' : State) :
  timers s' = timers s -> ref s' = ref s ->
  tame kind ref st s -> tame kind ref st s'.
Proof.
  intros T R H. apply (tame_trans _ _ _ H). split; [exact R|].
  rewrite T. intros t Ht _. eauto.
Qed.

Lemma tame_clearTimer (id : positive) (st s : State) :
  ref (clearTimer id s) = ref s ->
  tame kind ref st s -> tame kind ref st (clearTimer id s).
Proof.
  intros R H. apply (tame_trans _ _ _ H). split; [exact R|].
  intros t Ht _. apply filter_In in Ht as [Ht _]. eauto.
Qed.

Lemma tame_rearm (id : positive) (st s : State) :
  ref (rearm id s) = ref s ->
  tame kind ref st s -> tame kind ref st (rearm id s).
Proof.
  intros R H. apply (tame_trans _ _ _ H). split; [exact R|].
  intros t' Ht' _. cbn in Ht'. apply in_map_iff in Ht' as (t & <- & Ht).
  exists t. split; [exact Ht|].
  destruct (period t) eqn:E; [destruct (timer_id t =? id)%positive|]; cbn; auto.
Qed.

(** arming a timer of another kind *)
Lemma tame_push (t : Timer) (st s : State) :
  kind (callback t) = false ->
  ref (set_timers (timers s ++ [t]) s) = ref s ->
  tame kind ref st s -> tame kind ref st (set_timers (timers s ++ [t]) s).
Proof.
  intros Q R H. apply (tame_trans _ _ _ H). split; [exact R|].
  intros t' Ht' U. cbn in Ht'. apply in_app_iff in Ht' as [Ht'|[<-|[]]]; [eauto | congruence].
Qed.

End Tame.

(** a render request is not a status request *)
Lemma poll_watch_push (g : GainSettings) (s : State) :
  poll_watch (set_requests (requests s ++ [MixRequest g]) s) = poll_watch s.
Proof.
  unfold poll_watch, progress_requests. cbn [requests set_requests progressIntervalRef].
  rewrite List.filter_app, List.length_app. cbn. f_equal. lia.
Qed.

Ltac tame_steps :=
  repeat first
    [ apply tame_refl
    | apply tame_clearTimer; [reflexivity|]
    | apply tame_rearm; [reflexivity|]
    | apply tame_push; [reflexivity|reflexivity|]
    | match goal with
      | |- tame _ _ _ (?h ?a ?s) =>
          apply (tame_same _ _ _ s);
            [reflexivity | first [reflexivity | apply poll_watch_push] |]
      | |- tame _ _ _ (if ?c then _ else _) => destruct c
      | |- tame _ _ _ (match ?o with Some _ => _ | None => _ end) => destruct o
      end ].

Ltac unfold_handlers :=
  unfold playMix, playMix_response, playMix_played, playMix_failed, pauseMix,
    resumeMix, stopMix, onended, onerror, poll_callback_response, pollProgress_response,
    handleUpload, handleUpload_response, clear_progress_interval, canplaythrough,
    loadeddata, played, handleCanPlay_played, fallback, handleCanPlay, fade_tick,
    swap, updatePlayingAudio_response, updatePlayingAudio,
    setTimeout, setInterval, fetch, console_error, alert;
  cbv beta iota zeta; cbn [fst snd].

(** *** The debounce timers *)

Lemma tame_run_callback (cb : Callback) (st : State) :
  tame is_update updateTimeoutRef st (run_callback cb st).
Proof. destruct cb; cbn [run_callback]; unfold_handlers; tame_steps. Qed.

Lemma tame_poll_callback_response (r : Response) (st : State) :
  tame is_update updateTimeoutRef st (poll_callback_response r st).
Proof.
  unfold poll_callback_response, pollProgress_response.
  destruct r as [| status | | data]; cbv beta iota zeta;
    try (now unfold_handlers; tame_steps).
  destruct (_ && _); [|destruct (has_status _ _)];
    cbn [negb]; unfold_handlers; tame_steps.
Qed.

Lemma tame_fire (t : Timer) (st : State) : tame is_update updateTimeoutRef st (fire t st).
Proof.
  unfold fire. destruct (is_pending _ _); [|apply tame_refl].
  eapply tame_trans; [|apply tame_run_callback].
  destruct (period t); tame_steps.
Qed.

Lemma tame_tick (st : State) : tame is_update updateTimeoutRef st (tick st).
Proof.
  unfold tick. cbv zeta.
  set (l := List.filter _ _). clearbody l.
  assert (H : tame is_update updateTimeoutRef st (set_now (S (now st)) st))
    by (split; [reflexivity | eauto]).
  revert H. generalize (set_now (S (now st)) st).
  induction l as [|t l IH]; intros s H; simpl; [exact H|].
  apply IH. eapply tame_trans; [exact H | apply tame_fire].
Qed.

Lemma debounce_ok_tame (st st' : State) :
  debounce_ok st -> tame is_update updateTimeoutRef st st' -> debounce_ok st'.
Proof.
  unfold debounce_ok. intros Ok [R H]. rewrite List.Forall_forall in *.
  intros t' Ht' U. destruct (H t' Ht' U) as (t & Ht & I & P & C).
  destruct (Ok t Ht) as [E N]; [now rewrite C|]. rewrite R, E, I, <- P. auto.
Qed.

Lemma debounce_ok_handleChange (key : Stem) (val : Z) (st : State) :
  debounce_ok st -> debounce_ok (handleChange key val st).
Proof.
  intros Ok. unfold handleChange. cbv zeta.
  cbn [playing paused audioRef updateTimeoutRef set_gains].
  destruct (playing st && negb (paused st) && bool_decide (is_Some (audioRef st)));
    [|exact Ok].
  unfold debounce_ok in *. rewrite List.Forall_forall in Ok.
  destruct (updateTimeoutRef st) as [id0|] eqn:R; cbn;
    (apply Forall_app; split; [|constructor; [intros _; cbn; auto | constructor]]);
    apply List.Forall_forall; intros t Ht U.
  - apply filter_In in Ht as [Ht Hne]. destruct (Ok t Ht U) as [E _].
    injection E as ->. rewrite Pos.eqb_refl in Hne. discriminate.
  - destruct (Ok t Ht U) as [E _]. discriminate.
Qed.

(** Every handler keeps the invariant of the debounce. *)
Lemma debounce_ok_step (st : State) (e : Event) : debounce_ok st -> debounce_ok (step st e).
Proof.
  intros Ok. destruct e; cbn [step];
    try (apply (debounce_ok_tame st _ Ok); unfold_handlers; tame_steps; fail).
  - now apply debounce_ok_handleChange.
  - apply (debounce_ok_tame st _ Ok), tame_tick.
  - destruct (awaiting st !! i) as [k|]; [|exact Ok].
    apply (debounce_ok_tame st _ Ok).
    eapply tame_trans with (b := set_awaiting (delete i (awaiting st)) st);
      [tame_steps|].
    destruct k; [| |apply tame_poll_callback_response|];
      destruct r; unfold_handlers; tame_steps.
Qed.

Lemma debounce_ok_run (es : list Event) (st : State) :
  debounce_ok st -> debounce_ok (run st es).
Proof.
  revert st. induction es as [|e es IH]; intros st Ok; [exact Ok|].
  apply (IH (step st e)). now apply debounce_ok_step.
Qed.

(** Whatever happened since the component was mounted, the invariant that
    the debounce asks for holds. *)
Lemma debounce_ok_reachable (initialGains : option GainSettings) (autoPlay : bool)
    (es : list Event) :
  debounce_ok (run (mount initialGains autoPlay) es).
Proof.
  apply debounce_ok_run.
  destruct autoPlay; [constructor; [intros H; discriminate H | constructor] | constructor].
Qed.

(** *** The timeout of the [autoPlay] effect

    No handler arms it: once it is not pending, it never is again. *)

Lemma autoplay_tame_run_callback (cb : Callback) (st : State) :
  tame is_autoplay (fun _ => tt) st (run_callback cb st).
Proof. destruct cb; cbn [run_callback]; unfold_handlers; tame_steps. Qed.

Lemma autoplay_tame_poll_callback_response (r : Response) (st : State) :
  tame is_autoplay (fun _ => tt) st (poll_callback_response r st).
Proof.
  unfold poll_callback_response, pollProgress_response.
  destruct r as [| status | | data]; cbv beta iota zeta;
    try (now unfold_handlers; tame_steps).
  destruct (_ && _); [|destruct (has_status _ _)];
    cbn [negb]; unfold_handlers; tame_steps.
Qed.

Lemma autoplay_tame_fire (t : Timer) (st : State) :
  tame is_autoplay (fun _ => tt) st (fire t st).
Proof.
  unfold fire. destruct (is_pending _ _); [|apply tame_refl].
  eapply tame_trans; [|apply autoplay_tame_run_callback].
  destruct (period t); tame_steps.
Qed.

Lemma autoplay_tame_tick (st : State) : tame is_autoplay (fun _ => tt) st (tick st).
Proof.
  unfold tick. cbv zeta.
  set (l := List.filter _ _). clearbody l.
  assert (H : tame is_autoplay (fun _ => tt) st (set_now (S (now st)) st))
    by (split; [reflexivity | eauto]).
  revert H. generalize (set_now (S (now st)) st).
  induction l as [|t l IH]; intros s H; simpl; [exact H|].
  apply IH. eapply tame_trans; [exact H | apply autoplay_tame_fire].
Qed.

Lemma auto_play_done_tame {X : Type} (obs : State -> X) (st st' : State) :
  auto_play_done st -> tame is_autoplay obs st st' -> auto_play_done st'.
Proof.
  unfold auto_play_done. intros H [_ T]. rewrite List.Forall_forall in *.
  intros t' Ht'. destruct (is_autoplay (callback t')) eqn:U; [|reflexivity].
  destruct (T t' Ht' U) as (t & Ht & _ & _ & C). rewrite <- C, (H t Ht) in U.
  discriminate.
Qed.

Lemma auto_play_done_step (st : State) (e : Event) :
  auto_play_done st -> auto_play_done (step st e).
Proof.
  intros Ok. apply (auto_play_done_tame (fun _ => tt) st _ Ok).
  destruct e; cbn [step];
    try (unfold handleChange; unfold_handlers; tame_steps; fail).
  - apply autoplay_tame_tick.
  - destruct (awaiting st !! i) as [k|]; [|apply tame_refl].
    eapply tame_trans with (b := set_awaiting (delete i (awaiting st)) st);
      [tame_steps|].
    destruct k; [| |apply autoplay_tame_poll_callback_response|];
      destruct r; unfold_handlers; tame_steps.
Qed.

Lemma auto_play_done_run (es : list Event) (st : State) :
  auto_play_done st -> auto_play_done (run st es).
Proof.
  revert st. induction es as [|e es IH]; intros st Ok; [exact Ok|].
  apply (IH (step st e)). now apply auto_play_done_step.
Qed.

(** A mixer mounted without [autoPlay] never has that timeout pending. *)
Lemma auto_play_done_reachable (initialGains : option GainSettings) (es : list Event) :
  auto_play_done (run (mount initialGains false) es).
Proof. apply auto_play_done_run. constructor. Qed.

(** *** The polling interval *)

Lemma poll_tame_run_callback (cb : Callback) (st : State) :
  tame is_poll progressIntervalRef st (run_callback cb st).
Proof. destruct cb; cbn [run_callback]; unfold_handlers; tame_steps. Qed.

Lemma poll_tame_fire (t : Timer) (st : State) :
  tame is_poll progressIntervalRef st (fire t st).
Proof.
  unfold fire. destruct (is_pending _ _); [|apply tame_refl].
  eapply tame_trans; [|apply poll_tame_run_callback].
  destruct (period t); tame_steps.
Qed.

Lemma poll_tame_tick (st : State) : tame is_poll progressIntervalRef st (tick st).
Proof.
  unfold tick. cbv zeta.
  set (l := List.filter _ _). clearbody l.
  assert (H : tame is_poll progressIntervalRef st (set_now (S (now st)) st))
    by (split; [reflexivity | eauto]).
  revert H. generalize (set_now (S (now st)) st).
  induction l as [|t l IH]; intros s H; simpl; [exact H|].
  apply IH. eapply tame_trans; [exact H | apply poll_tame_fire].
Qed.

Lemma poll_ok_tame (st st' : State) :
  poll_ok st -> tame is_poll progressIntervalRef st st' -> poll_ok st'.
Proof.
  unfold poll_ok. intros Ok [R H]. rewrite List.Forall_forall in *.
  intros t' Ht' U. destruct (H t' Ht' U) as (t & Ht & I & P & C).
  rewrite R, <- I. apply (Ok t Ht). now rewrite C.
Qed.

Lemma poll_idle_ok (st : State) : poll_idle st -> poll_ok st.
Proof.
  intros [_ H]. unfold poll_ok. rewrite List.Forall_forall in *.
  intros t Ht U. rewrite (H t Ht) in U. discriminate.
Qed.

Lemma poll_idle_tame {X : Type} (obs : State -> X) (st st' : State) :
  progressIntervalRef st' = progressIntervalRef st ->
  poll_idle st -> tame is_poll obs st st' -> poll_idle st'.
Proof.
  intros R [N H] [_ T]. split; [congruence|]. rewrite List.Forall_forall in *.
  intros t' Ht'. destruct (is_poll (callback t')) eqn:U; [|reflexivity].
  destruct (T t' Ht' U) as (t & Ht & _ & _ & C). rewrite <- C, (H t Ht) in U.
  discriminate.
Qed.

(** Clearing the interval that the reference holds leaves no polling
    timer. *)
Lemma poll_ok_clear (st : State) : poll_ok st -> poll_idle (clear_progress_interval st).
Proof.
  unfold poll_ok, poll_idle, clear_progress_interval. intros Ok.
  rewrite List.Forall_forall in *.
  destruct (progressIntervalRef st) as [id|] eqn:R.
  - split; [reflexivity|]. intros t Ht. cbn in Ht. apply filter_In in Ht as [Ht Hid].
    destruct (is_poll (callback t)) eqn:U; [|reflexivity].
    specialize (Ok t Ht U). injection Ok as ->.
    rewrite Pos.eqb_refl in Hid. discriminate.
  - split; [exact R|]. intros t Ht.
    destruct (is_poll (callback t)) eqn:U; [|reflexivity].
    specialize (Ok t Ht U). discriminate.
Qed.

Lemma clear_progress_interval_idle (st : State) :
  progressIntervalRef st = None -> clear_progress_interval st = st.
Proof. unfold clear_progress_interval. now intros ->. Qed.

Lemma requests_clear_progress_interval (st : State) :
  requests (clear_progress_interval st) = requests st.
Proof. unfold clear_progress_interval. now destruct (progressIntervalRef st). Qed.

Lemma poll_idle_same (s s' : State) :
  timers s' = timers s -> progressIntervalRef s' = progressIntervalRef s ->
  poll_idle s -> poll_idle s'.
Proof. unfold poll_idle. intros -> ->. trivial. Qed.

Lemma poll_idle_alert (msg : string) (delay : nat) (s : State) :
  poll_idle s -> poll_idle (fst (setTimeout (CbAlert msg) delay s)).
Proof.
  intros [R H]. split; [exact R|]. cbn.
  apply Forall_app. split; [exact H|]. now constructor.
Qed.

(** The handler of a terminal status leaves no polling timer and sends
    nothing. *)
Lemma poll_idle_terminal (data : Body) (st : State) :
  poll_ok st -> terminal data = true ->
  poll_idle (poll_callback_response (Json data) st) /\
  requests (poll_callback_response (Json data) st) = requests st.
Proof.
  intros Ok Ht. unfold poll_callback_response, pollProgress_response. cbv zeta.
  unfold terminal in Ht.
  set (st1 := set_progress _ st).
  assert (I : poll_idle (clear_progress_interval st1)) by now apply poll_ok_clear.
  assert (Q : requests (clear_progress_interval st1) = requests st)
    by (now rewrite requests_clear_progress_interval).
  revert I Q. generalize (clear_progress_interval st1). intros s I Q.
  destruct (has_status data "completed" && geb _ _).
  - cbn [negb].
    set (s2 := fst _).
    assert (I2 : poll_idle s2).
    { apply poll_idle_alert. revert I. now apply poll_idle_same. }
    rewrite clear_progress_interval_idle by apply I2. split; [exact I2 | exact Q].
  - cbn [orb] in Ht. rewrite Ht. cbn [negb].
    set (s2 := fst _).
    assert (I2 : poll_idle s2).
    { apply poll_idle_alert. revert I. now apply poll_idle_same. }
    rewrite clear_progress_interval_idle by apply I2. split; [exact I2 | exact Q].
Qed.

Lemma poll_ok_poll_callback_response (r : Response) (st : State) :
  poll_ok st -> poll_ok (poll_callback_response r st).
Proof.
  intros Ok.
  destruct r as [| status | | data];
    try (apply (poll_ok_tame st _ Ok);
         unfold poll_callback_response, pollProgress_response; cbn [negb];
         unfold_handlers; tame_steps; fail).
  destruct (terminal data) eqn:T.
  - now apply poll_idle_ok, poll_idle_terminal.
  - unfold poll_callback_response, pollProgress_response. cbv zeta.
    unfold terminal in T. apply orb_false_iff in T as [-> ->]. exact Ok.
Qed.

Lemma poll_ok_handleUpload_response (r : Response) (st : State) :
  poll_ok st -> poll_ok (handleUpload_response r st).
Proof.
  intros Ok. unfold handleUpload_response. cbv zeta.
  destruct r as [| status | | data];
    try (apply (poll_ok_tame st _ Ok); unfold_handlers; tame_steps; fail).
  destruct (has_status data "processing");
    [|apply (poll_ok_tame st _ Ok); unfold_handlers; tame_steps].
  apply poll_ok_clear in Ok. destruct Ok as [_ H]. revert H.
  generalize (clear_progress_interval st). intros s H.
  unfold poll_ok. cbn. apply Forall_app. split.
  - rewrite List.Forall_forall in *. intros t Ht U. rewrite (H t Ht) in U. discriminate.
  - now constructor.
Qed.

(** Every handler keeps the invariant of the polling. *)
Lemma poll_ok_step (st : State) (e : Event) : poll_ok st -> poll_ok (step st e).
Proof.
  intros Ok. destruct e; cbn [step];
    try (apply (poll_ok_tame st _ Ok); unfold handleChange; unfold_handlers;
         tame_steps; fail).
  - apply (poll_ok_tame st _ Ok), poll_tame_tick.
  - destruct (awaiting st !! i) as [k|]; [|exact Ok].
    assert (Ok' : poll_ok (set_awaiting (delete i (awaiting st)) st)) by exact Ok.
    revert Ok'. generalize (set_awaiting (delete i (awaiting st)) st). intros s Ok'.
    destruct k;
      [ | |now apply poll_ok_poll_callback_response
        |now apply poll_ok_handleUpload_response];
      apply (poll_ok_tame s _ Ok'); destruct r; unfold_handlers; tame_steps.
Qed.

Lemma poll_ok_run (es : list Event) (st : State) : poll_ok st -> poll_ok (run st es).
Proof.
  revert st. induction es as [|e es IH]; intros st Ok; [exact Ok|].
  apply (IH (step st e)). now apply poll_ok_step.
Qed.

Lemma poll_ok_reachable (initialGains : option GainSettings) (autoPlay : bool)
    (es : list Event) :
  poll_ok (run (mount initialGains autoPlay) es).
Proof.
  apply poll_ok_run.
  destruct autoPlay; [constructor; [intros H; discriminate H | constructor] | constructor].
Qed.

(** *** Without a polling timer no status request leaves *)

Lemma quiet_run_callback (cb : Callback) (st : State) :
  is_poll cb = false -> tame is_poll poll_watch st (run_callback cb st).
Proof.
  destruct cb; try discriminate; intros _; cbn [run_callback];
    unfold_handlers; tame_steps.
Qed.

Lemma quiet_fire (t : Timer) (st : State) :
  is_poll (callback t) = false -> tame is_poll poll_watch st (fire t st).
Proof.
  intros Q. unfold fire. destruct (is_pending _ _); [|apply tame_refl].
  eapply tame_trans; [|now apply quiet_run_callback].
  destruct (period t); tame_steps.
Qed.

Lemma quiet_tick (st : State) : poll_idle st -> tame is_poll poll_watch st (tick st).
Proof.
  intros [_ I]. unfold tick. cbv zeta.
  assert (L : Forall (fun t => is_poll (callback t) = false)
                (List.filter (is_due (now (set_now (S (now st)) st)))
                   (timers (set_now (S (now st)) st)))).
  { rewrite List.Forall_forall in *. intros t Ht. apply filter_In in Ht as [Ht _].
    now apply I. }
  revert L. generalize (List.filter (is_due (now (set_now (S (now st)) st)))
                          (timers (set_now (S (now st)) st))). intros l L.
  assert (H : tame is_poll poll_watch st (set_now (S (now st)) st))
    by (split; [reflexivity | eauto]).
  revert H. generalize (set_now (S (now st)) st).
  induction L as [|t l Q L IH]; intros s H; simpl; [exact H|].
  apply IH. eapply tame_trans; [exact H | now apply quiet_fire].
Qed.

(** Once no polling timer is pending, time alone sends no status request,
    however long it runs. *)
Lemma idle_ticks (n : nat) (st : State) :
  poll_idle st ->
  poll_idle (run st (repeat Tick n)) /\
  progress_requests (run st (repeat Tick n)) = progress_requests st.
Proof.
  revert st. induction n as [|n IH]; intros st I; [now split|].
  cbn [repeat run fold_left step].
  pose proof (quiet_tick st I) as T.
  assert (W : poll_watch (tick st) = poll_watch st) by apply T.
  injection W as R Q.
  assert (I' : poll_idle (tick st)) by (revert T; now apply poll_idle_tame).
  destruct (IH (tick st) I') as [A B]. split; [exact A|].
  unfold run in B. rewrite B. exact Q.
Qed.

End Reachable.

(** ** The debounced burst *)
Section DebouncedBurst.

Import Mixer.

(** C1.  Whatever happened since the mixer was mounted, while a mix plays
    and is not paused, a burst of slider edits, each less than 200 ms after
    the one before, sends no render request while it lasts; whatever time
    passes afterwards, at most one render request is sent, and it carries
    the gains as they are after the last edit; before 200 ms have passed
    since the last edit nothing is sent.  For a mixer mounted with
    [autoPlay], whose timeout sends the render request of [playMix], the
    burst is taken after that timeout has fired. *)
Theorem debounce_burst_single_request (initialGains : option GainSettings)
    (autoPlay : bool) (history : list Event) (k0 : Stem) (v0 : Z)
    (rest : list (nat * (Stem * Z))) (quiet : nat) :
  let st := run (mount initialGains autoPlay) history in
  (autoPlay = true -> auto_play_done st) ->
  playing st = true -> paused st = false -> is_Some (audioRef st) ->
  Forall (fun e => (fst e < 200)%nat) rest ->
  let final := edited (gains st) k0 v0 rest in
  let during := run st (burst k0 v0 rest) in
  let after := run during (repeat Tick quiet) in
  gains after = final /\
  mix_requests during = mix_requests st /\
  (mix_requests after = mix_requests st \/
   mix_requests after = mix_requests st ++ [final]) /\
  ((quiet < 200)%nat -> mix_requests after = mix_requests st).
Proof.
  intros st Done P Q A Hrest.
  apply debounce_burst; [exact P | exact Q | exact A | | | exact Hrest].
  - apply debounce_ok_reachable.
  - destruct autoPlay; [now apply Done | apply auto_play_done_reachable].
Qed.

End DebouncedBurst.

(** The theorem after "Play Mix", for edits every 50 ms during 500 ms
    followed by one second of quiet; and in a mixer mounted with
    [autoPlay], once its timeout has fired and the mix plays, for the same
    edits followed by 150 ms of quiet. *)
Lemma debounce_burst_single_request_witness :
  (Mixer.playing Scenario.playing_mix = true /\
   let after := Mixer.run (Mixer.run Scenario.playing_mix
                             (Mixer.burst Mixer.Vocals 1 Scenario.slider_edits))
                  (repeat Mixer.Tick 1000) in
   Mixer.mix_requests after = Mixer.mix_requests Scenario.playing_mix \/
   Mixer.mix_requests after
   = Mixer.mix_requests Scenario.playing_mix
     ++ [Mixer.edited (Mixer.gains Scenario.playing_mix) Mixer.Vocals 1 Scenario.slider_edits])
  /\
  (let st := Mixer.run (Mixer.mount None true)
               (repeat Mixer.Tick 100
                ++ [Mixer.Responded 0 Scenario.rendered; Mixer.PlaySettled 0 true]) in
   Mixer.auto_play_done st /\ Mixer.playing st = true /\
   let after := Mixer.run (Mixer.run st (Mixer.burst Mixer.Vocals 1 Scenario.slider_edits))
                  (repeat Mixer.Tick 150) in
   Mixer.mix_requests after = Mixer.mix_requests st).
Proof.
  split.
  - split; [reflexivity|].
    apply (debounce_burst_single_request None false
             [Mixer.Play; Mixer.Responded 0 Scenario.rendered; Mixer.PlaySettled 0 true]
             Mixer.Vocals 1 Scenario.slider_edits 1000).
    + discriminate.
    + reflexivity.
    + reflexivity.
    + exists 0%nat. reflexivity.
    + repeat constructor.
  - cbv zeta.
    assert (D : Mixer.auto_play_done
                  (Mixer.run (Mixer.mount None true)
                     (repeat Mixer.Tick 100
                      ++ [Mixer.Responded 0 Scenario.rendered; Mixer.PlaySettled 0 true]))).
    { vm_compute. repeat constructor. }
    split; [exact D|]. split; [reflexivity|].
    apply (debounce_burst_single_request None true
             (repeat Mixer.Tick 100
              ++ [Mixer.Responded 0 Scenario.rendered; Mixer.PlaySettled 0 true])
             Mixer.Vocals 1 Scenario.slider_edits 150).
    + intros _. exact D.
    + reflexivity.
    + reflexivity.
    + exists 0%nat. reflexivity.
    + repeat constructor.
    + lia.
Defined.

(** On that run the request is indeed sent: one render request after the
    one of "Play Mix", with vocals at +6 and the other stems at 0. *)
Example debounce_burst_sends_final :
  Mixer.mix_requests
    (Mixer.run (Mixer.run Scenario.playing_mix
                  (Mixer.burst Mixer.Vocals 1 Scenario.slider_edits))
       (repeat Mixer.Tick 1000))
  = [ {| vocals := of_Z 0; drums := of_Z 0; bass := of_Z 0; other := of_Z 0 |};
      {| vocals := of_Z 6; drums := of_Z 0; bass := of_Z 0; other := of_Z 0 |} ].
Proof. vm_compute. reflexivity. Qed.


(** ** The crossfade *)
Section Crossfade.

Import Mixer.

(** The two ramps: [k/30] up and [1 - k/30] down, in lockstep. *)
Lemma ramp_lockstep (k : nat) :
  (k <= steps)%nat ->
  newVolume_at k = Fin (Qred (Z.of_nat k # 30)) /\
  oldVolume_at k = Fin (Qred ((30 - Z.of_nat k) # 30)) /\
  (newVolume_at k + oldVolume_at k)%num = of_Z 1.
Proof.
  intros H.
  do 31 (destruct k as [|k]; [vm_compute; auto|]).
  unfold steps in H. lia.
Qed.

Lemma tick_idle (st : State) :
  Forall (fun t => (S (now st) < due t)%nat) (timers st) ->
  tick st = set_now (S (now st)) st.
Proof.
  intros H. unfold tick. cbv zeta. cbn [timers set_now now].
  replace (List.filter (is_due (S (now st))) (timers st)) with (@nil Timer); [reflexivity|].
  symmetry. induction H as [|t l Ht _ IH]; simpl; trivial.
  unfold is_due at 1. destruct (Nat.leb_spec (due t) (S (now st))); [lia | exact IH].
Qed.

Lemma tick_single (t : Timer) (st : State) :
  timers st = [t] -> (due t <= S (now st))%nat ->
  tick st = fire t (set_now (S (now st)) st).
Proof.
  intros Ht Hd. unfold tick. cbv zeta. cbn [timers set_now now]. rewrite Ht.
  cbn [List.filter]. unfold is_due.
  destruct (Nat.leb_spec (due t) (S (now st))); [reflexivity | lia].
Qed.

Lemma fading_wait (hd : Handover) (fid : positive) (o n : Audio.t) (k d : nat) (st : State) :
  fading hd fid o n k d st -> (S (now st) < d)%nat ->
  fading hd fid o n k d (tick st) /\ now (tick st) = S (now st).
Proof.
  intros F Hd. rewrite tick_idle.
  - split; [exact F | reflexivity].
  - destruct F as (T & _). rewrite T. repeat constructor. exact Hd.
Qed.

Lemma old_still_plays (o : Audio.t) (k : nat) :
  Audio.paused (match k with O => o | S _ => Audio.set_volume (oldVolume_at k) o end)
  = Audio.paused o.
Proof. now destruct k. Qed.

(** What one run of the fade callback does to a crossfade with [k] steps
    done. *)
Lemma fading_tick (hd : Handover) (fid : positive) (o n : Audio.t) (k d : nat) (st : State) :
  fading hd fid o n k d st -> S (now st) = d ->
  now (tick st) = S (now st) /\
  if (steps <=? S k)%nat then faded hd o n (tick st)
  else fading hd fid o n (S k) (d + stepTime) (tick st).
Proof.
  intros (T & H & I & Ne & Po & Ao & An & R) Hd.
  split; [apply now_tick|].
  rewrite (tick_single _ st T) by (cbn; lia).
  unfold fire, is_pending. cbn [timers set_now timer_id period callback].
  rewrite T. cbn [existsb timer_id]. rewrite Pos.eqb_refl. cbn [orb].
  unfold rearm. cbn [timers set_now set_timers]. rewrite T.
  cbn [map period timer_id due callback]. rewrite Pos.eqb_refl. cbn [run_callback].
  unfold fade_tick. cbn [handovers set_timers set_now]. rewrite H. cbv zeta.
  cbn [h_step with_h_step h_newAudio h_oldAudio h_fadeInterval h_oldVolume].
  assert (Dist : negb (h_oldAudio hd =? h_newAudio hd)%nat = true)
    by (apply negb_true_iff, Nat.eqb_neq; exact Ne).
  rewrite Dist. cbn [andb].
  unfold on_audio, on_handover, clearTimer.
  cbn [audios timers handovers audioRef
       set_audios set_handovers set_timers set_now set_audioRef].
  rewrite list_lookup_alter_ne by congruence. rewrite Ao.
  rewrite old_still_plays, Po. cbn [negb].
  destruct (steps <=? S k)%nat.
  - rewrite I. unfold faded.
    cbn [audios timers handovers audioRef
         set_audios set_handovers set_timers set_now set_audioRef
         List.filter timer_id].
    rewrite Pos.eqb_refl. cbn [negb].
    split; [reflexivity|]. split; [|split; [|reflexivity]].
    + rewrite list_lookup_alter_ne by congruence.
      rewrite list_lookup_alter_eq, list_lookup_alter_eq, list_lookup_alter_ne by congruence.
      rewrite Ao. now destruct k.
    + rewrite list_lookup_alter_eq, list_lookup_alter_ne by congruence.
      rewrite list_lookup_alter_ne by congruence.
      rewrite list_lookup_alter_eq, An. reflexivity.
  - unfold fading.
    cbn [audios timers handovers audioRef
         set_audios set_handovers set_timers set_now set_audioRef
         h_newAudio h_oldAudio h_fadeInterval].
    split; [reflexivity|]. split; [|repeat split; trivial].
    + rewrite lookup_alter_eq, H. reflexivity.
    + rewrite list_lookup_alter_eq, list_lookup_alter_ne by congruence.
      rewrite Ao. now destruct k.
    + rewrite list_lookup_alter_ne by congruence.
      rewrite list_lookup_alter_eq, An. reflexivity.
Qed.

Lemma fading_waits (hd : Handover) (fid : positive) (o n : Audio.t) (k d m : nat) (st : State) :
  fading hd fid o n k d st -> (now st + m < d)%nat ->
  fading hd fid o n k d (run st (repeat Tick m)) /\
  now (run st (repeat Tick m)) = (now st + m)%nat.
Proof.
  revert st. induction m as [|m IH]; intros st F Hm; unfold run in *; simpl.
  - split; [exact F | lia].
  - destruct (fading_wait hd fid o n k d st F) as [F1 N1]; [lia|].
    destruct (IH (tick st) F1) as [F2 N2]; [lia|].
    split; [exact F2 | lia].
Qed.

(** One period of the fade interval: the callback runs once, at its end. *)
Lemma fading_period (hd : Handover) (fid : positive) (o n : Audio.t) (k d : nat) (st : State) :
  fading hd fid o n k d st -> (now st + stepTime)%nat = d ->
  now (run st (repeat Tick stepTime)) = d /\
  if (steps <=? S k)%nat then faded hd o n (run st (repeat Tick stepTime))
  else fading hd fid o n (S k) (d + stepTime) (run st (repeat Tick stepTime)).
Proof.
  intros F Hd.
  change (repeat Tick stepTime) with (repeat Tick 4 ++ [Tick]).
  rewrite run_app.
  destruct (fading_waits hd fid o n k d 4 st F) as [F1 N1];
    [change stepTime with 5%nat in Hd; lia|].
  change (run (run st (repeat Tick 4)) [Tick]) with (tick (run st (repeat Tick 4))).
  destruct (fading_tick hd fid o n k d _ F1) as [N2 F2];
    [change stepTime with 5%nat in Hd; lia|].
  split; [|exact F2]. change stepTime with 5%nat in Hd. lia.
Qed.

Lemma fading_steps (hd : Handover) (fid : positive) (o n : Audio.t) (d : nat) (st : State) :
  fading hd fid o n 0 d st -> (now st + stepTime)%nat = d ->
  forall k, (k < steps)%nat ->
  fading hd fid o n k (d + stepTime * k) (run st (repeat Tick (stepTime * k))) /\
  (now (run st (repeat Tick (stepTime * k))) + stepTime)%nat = (d + stepTime * k)%nat.
Proof.
  intros F Hd k. induction k as [|k IH]; intros Hk.
  - rewrite Nat.mul_0_r, Nat.add_0_r. split; [exact F | exact Hd].
  - destruct IH as [F1 N1]; [lia|].
    rewrite Nat.mul_succ_r, repeat_app, run_app.
    destruct (fading_period hd fid o n k _ _ F1 N1) as [N2 F2].
    destruct (Nat.leb_spec steps (S k)); [lia|].
    rewrite Nat.add_assoc. split; [exact F2 | lia].
Qed.

Lemma fading_done (hd : Handover) (fid : positive) (o n : Audio.t) (d : nat) (st : State) :
  fading hd fid o n 0 d st -> (now st + stepTime)%nat = d ->
  faded hd o n (run st (repeat Tick (stepTime * steps))).
Proof.
  intros F Hd.
  destruct (fading_steps hd fid o n d st F Hd 29) as [F1 N1]; [unfold steps; lia|].
  change (stepTime * steps)%nat with (stepTime * 29 + stepTime)%nat.
  rewrite repeat_app, run_app.
  destruct (fading_period hd fid o n 29 _ _ F1 N1) as [_ F2]. exact F2.
Qed.

Lemma run_cons (st : State) (e : Event) (es : list Event) :
  run st (e :: es) = run (step st e) es.
Proof. reflexivity. Qed.

(** Symbolic execution of one handler: unfold the handlers and the record
    operations, leave list and map operations alone ... *)
Ltac exec :=
  cbv beta iota zeta delta
    [ step updatePlayingAudio fetch played on_audio on_handover
      updatePlayingAudio_response setTimeout setInterval canplaythrough handleCanPlay
      clearTimer handleCanPlay_played swap console_error fading faded
      gains playing paused separating progress audioRef progressIntervalRef
      updateTimeoutRef now nextTimer timers audios requests awaiting handovers
      starting plays alerts console
      set_gains set_playing set_paused set_separating set_progress set_audioRef
      set_progressIntervalRef set_updateTimeoutRef set_now set_nextTimer set_timers
      set_audios set_requests set_awaiting set_handovers set_starting set_plays
      set_alerts set_console
      h_currentTime h_wasPlaying h_oldAudio h_oldVolume h_newAudio h_listening
      crossfadeStarted h_playPending h_step h_fadeInterval h_fallbackTimeout
      with_h_listening with_crossfadeStarted with_h_playPending with_h_step
      with_h_fadeInterval
      c_currentTime c_wasPlaying c_oldAudio c_oldVolume
      timer_id due period callback
      negb andb orb fmap option_fmap option_map ].

(** ... and resolve the lookups that block it. *)
Ltac lookups :=
  repeat first
    [ rewrite lookup_insert_eq
    | rewrite lookup_alter_eq
    | rewrite list_lookup_alter_eq
    | rewrite list_lookup_alter_ne by lia
    | rewrite (list_lookup_middle _ [] _ _) by (now rewrite ?length_alter)
    | rewrite lookup_app_l by (rewrite ?length_alter; lia)
    | rewrite length_alter
    | rewrite alter_insert_eq
    | rewrite app_nil_l
    | rewrite Pos.eqb_refl
    | progress cbn [List.filter existsb app] ].

Ltac settle := exec; repeat (progress (lookups; exec)).

Ltac next_step :=
  match goal with |- context [run (step ?s ?e) _] =>
    eassert (E : step s e = _) end.

(** A live update in isolation, from the call of [updatePlayingAudio] to
    the start of the fade interval; the old stream plays [dt1] seconds
    while the mix is rendered and [dt2] seconds while the new stream
    loads. *)
Lemma handover_starts_fading (st : State) (g : GainSettings) (old : nat) (o : Audio.t)
    (data : Body) (path : string) (d dt1 dt2 : num) :
  audioRef st = Some old -> audios st !! old = Some o -> Audio.paused o = false ->
  timers st = [] -> starting st = [] -> usable_path data = Some path ->
  let h := length (audios st) in
  let target := Math_min (Audio.currentTime o) (or_else d (Audio.currentTime o)) in
  let o' := Audio.set_currentTime (Audio.currentTime o + dt1 + dt2)%num o in
  let n := {| Audio.src := ("http://127.0.0.1:8000" ++ path)%string;
              Audio.currentTime := target; Audio.duration := d;
              Audio.volume := of_Z 0; Audio.paused := false; Audio.readyState := 4 |} in
  let hd := {| h_currentTime := Audio.currentTime o; h_wasPlaying := true;
               h_oldAudio := old; h_oldVolume := Audio.volume o; h_newAudio := h;
               h_listening := false; crossfadeStarted := true; h_playPending := false;
               h_step := 0; h_fadeInterval := Some (Pos.succ (nextTimer st));
               h_fallbackTimeout := nextTimer st |} in
  let s0 := run (updatePlayingAudio g st)
              [Played old dt1; Responded (length (requests st)) (Json data);
               Played old dt2; CanPlayThrough h d; PlaySettled h true] in
  fading hd (Pos.succ (nextTimer st)) o' n 0 (now st + stepTime) s0 /\ now s0 = now st.
Proof.
  intros R Ao Po T S U h target o' n hd s0.
  assert (Hlt : (old < h)%nat) by (eapply lookup_lt_Some; exact Ao).
  assert (Hne : old <> h) by lia.
  destruct st as [gains0 playing0 paused0 separating0 progress0 audioRef0 pir0 utr0 now0
                   nextTimer0 timers0 audios0 requests0 awaiting0 handovers0 starting0
                   plays0 alerts0 console0].
  cbn in R, Ao, T, S, h, Hlt, Hne, hd. subst audioRef0 timers0 starting0.
  subst s0 hd n o' target h.
  match goal with |- context [run (updatePlayingAudio g ?s) _] =>
    eassert (E : updatePlayingAudio g s = _) end.
  { exec. rewrite Ao. exec. rewrite Po. exec. reflexivity. }
  rewrite E; clear E. rewrite run_cons.
  next_step.
  { exec. reflexivity. }
  rewrite E; clear E. rewrite run_cons.
  next_step.
  { settle. rewrite U. settle. reflexivity. }
  rewrite E; clear E. rewrite run_cons.
  next_step.
  { exec. reflexivity. }
  rewrite E; clear E. rewrite run_cons.
  next_step.
  { settle. reflexivity. }
  rewrite E; clear E. rewrite run_cons.
  next_step.
  { settle. reflexivity. }
  rewrite E; clear E.
  unfold run. cbn [fold_left]. split; [|reflexivity].
  unfold fading. exec.
  repeat split; trivial.
  - lookups. reflexivity.
  - lookups. rewrite Ao. exec. rewrite Po.
    cbn [Audio.paused Audio.set_currentTime]. rewrite Po. reflexivity.
  - lookups. exec. reflexivity.
Qed.

(** The crossfade of a live update on a playing stream, taken in
    isolation.  The new stream is positioned at the position that was saved
    when the update began, cut to the duration of the new stream when that
    is a non-zero number.  Once the new stream plays, every 5 ms one of 30
    steps sets the new volume to k/30 and the old volume to 1 - k/30, which
    add up to 1, the old stream staying the live reference; after 150 ms
    the old stream is paused and its volume put back to what it was, the
    new stream is the live reference at volume 1 and the interval is
    cleared. *)
Lemma crossfade_handover (st : State) (g : GainSettings) (old : nat) (o : Audio.t)
    (data : Body) (path : string) (d dt1 dt2 : num) :
  audioRef st = Some old -> audios st !! old = Some o -> Audio.paused o = false ->
  timers st = [] -> starting st = [] -> usable_path data = Some path ->
  let h := length (audios st) in
  let target := Math_min (Audio.currentTime o) (or_else d (Audio.currentTime o)) in
  let o' := Audio.set_currentTime (Audio.currentTime o + dt1 + dt2)%num o in
  let n := {| Audio.src := ("http://127.0.0.1:8000" ++ path)%string;
              Audio.currentTime := target; Audio.duration := d;
              Audio.volume := of_Z 0; Audio.paused := false; Audio.readyState := 4 |} in
  let s0 := run (updatePlayingAudio g st)
              [Played old dt1; Responded (length (requests st)) (Json data);
               Played old dt2; CanPlayThrough h d; PlaySettled h true] in
  (forall k, (k < steps)%nat ->
     let s := run s0 (repeat Tick (stepTime * k)) in
     now s = (now st + stepTime * k)%nat /\
     audioRef s = Some old /\
     audios s !! h = Some (Audio.set_volume (newVolume_at k) n) /\
     audios s !! old
       = Some (match k with O => o' | S _ => Audio.set_volume (oldVolume_at k) o' end) /\
     newVolume_at k = Fin (Qred (Z.of_nat k # 30)) /\
     oldVolume_at k = Fin (Qred ((30 - Z.of_nat k) # 30)) /\
     (newVolume_at k + oldVolume_at k)%num = of_Z 1) /\
  (let s := run s0 (repeat Tick (stepTime * steps)) in
   audioRef s = Some h /\
   audios s !! h = Some (Audio.set_volume (of_Z 1) n) /\
   audios s !! old = Some (Audio.set_volume (Audio.volume o) (Audio.set_paused true o')) /\
   timers s = []).
Proof.
  intros R Ao Po T S U h target o' n s0.
  destruct (handover_starts_fading st g old o data path d dt1 dt2 R Ao Po T S U)
    as [F0 N0].
  fold h target o' n s0 in F0, N0.
  assert (D0 : (now s0 + stepTime)%nat = (now st + stepTime)%nat) by now rewrite N0.
  split.
  - intros k Hk s.
    destruct (fading_steps _ _ _ _ _ _ F0 D0 k Hk) as [(_ & _ & _ & _ & _ & Fo & Fn & Fr) Nk].
    fold s in Fo, Fn, Fr, Nk. cbn [h_oldAudio h_newAudio] in Fo, Fn, Fr.
    destruct (ramp_lockstep k) as (R1 & R2 & R3); [lia|].
    repeat split; trivial. lia.
  - intros s.
    destruct (fading_done _ _ _ _ _ _ F0 D0) as (Ft & Fo & Fn & Fr).
    fold s in Ft, Fo, Fn, Fr. cbn [h_oldAudio h_newAudio h_oldVolume] in Fo, Fn, Fr.
    auto.
Qed.

End Crossfade.

(** The crossfade on the mix that has played ten seconds: the render takes
    1.5 s, the new stream 0.5 s to load. *)
Example crossfade_handover_at_ten_seconds :
  Mixer.audioRef Scenario.at_ten_seconds = Some 0%nat /\
  let s := Mixer.run
             (Mixer.run
                (Mixer.updatePlayingAudio
                   {| vocals := of_Z 6; drums := of_Z 0; bass := of_Z 0; other := of_Z 0 |}
                   Scenario.at_ten_seconds)
                [ Mixer.Played 0 (Fin (3 # 2)); Mixer.Responded 1 Scenario.rendered;
                  Mixer.Played 0 (Fin (1 # 2)); Mixer.CanPlayThrough 1 (of_Z 180);
                  Mixer.PlaySettled 1 true ])
             (repeat Mixer.Tick (Mixer.stepTime * Mixer.steps)) in
  Mixer.audioRef s = Some 1%nat /\ Mixer.timers s = [].
Proof.
  split; [reflexivity|].
  pose proof (crossfade_handover Scenario.at_ten_seconds
                {| vocals := of_Z 6; drums := of_Z 0; bass := of_Z 0; other := of_Z 0 |}
                0%nat
                {| Audio.src := "http://127.0.0.1:8000/mix.wav";
                   Audio.currentTime := of_Z 10; Audio.duration := NaN;
                   Audio.volume := of_Z 1; Audio.paused := false;
                   Audio.readyState := 0 |}
                {| Mixer.b_path := Some "/mix.wav"; Mixer.b_status := None;
                   Mixer.b_progress := None |}
                "/mix.wav" (of_Z 180) (Fin (3 # 2)) (Fin (1 # 2))
                eq_refl eq_refl eq_refl eq_refl eq_refl eq_refl) as [_ H].
  cbv zeta in H. destruct H as (H1 & _ & _ & H4). split; [exact H1 | exact H4].
Qed.

(** C4.  The crossfade itself is as claimed ([crossfade_handover]:
    lockstep ramps over 150 ms, then the old stream is paused and the new
    one is the live reference at volume 1), but the new stream is not put
    at the old stream's current position.  The code sets it, under the
    comment "Set position to match old audio", to the position saved before
    the render was requested, and the old stream plays on while the mix is
    rendered and loaded.  On the mix that has played ten seconds, with a
    render of 1.5 s and a load of 0.5 s, the old stream is at second 12
    when the new one is ready, and the new one is set to second 10, not to
    12 (the minimum of the current position and the duration of 180 s). *)
Theorem handover_position_is_stale :
  Audio.currentTime <$> Mixer.audios Scenario.handing_over !! 0%nat = Some (of_Z 12) /\
  Audio.currentTime <$> Mixer.audios Scenario.handing_over !! 1%nat = Some (of_Z 10) /\
  Audio.duration <$> Mixer.audios Scenario.handing_over !! 1%nat = Some (of_Z 180) /\
  Math_min (of_Z 12) (of_Z 180) <> of_Z 10.
Proof.
  split; [vm_compute; reflexivity|]. split; [vm_compute; reflexivity|].
  split; [vm_compute; reflexivity|]. vm_compute. discriminate.
Qed.

(** ** Failures during a live update *)
Section LiveUpdateFailure.

Import Mixer.

(** C3, as the code has it.  When the render of a live update fails (no
    response, error status, unreadable body, no path), nothing but the
    console changes: the audio elements, the live reference, the play and
    pause flags, the timers and the alerts are as before, and one line is
    logged.  When starting the new stream fails during the handover, the
    failure is logged too and nothing is alerted, but the handler swaps
    without crossfade: the old stream is paused, the new stream becomes the
    live reference at volume 1, and [play] is called on it again. *)
Theorem live_update_failure (st : State) :
  (forall i c r,
     awaiting st !! i = Some (KUpdate c) -> render_failed r = true ->
     let st' := step st (Responded i r) in
     audios st' = audios st /\ audioRef st' = audioRef st /\
     playing st' = playing st /\ paused st' = paused st /\
     timers st' = timers st /\ alerts st' = alerts st /\
     console st' = console st ++ ["Error updating audio:"%string])
  /\
  (forall h hd,
     handovers st !! h = Some hd -> h_playPending hd = true ->
     existsb (Nat.eqb h) (starting st) = false ->
     h_oldAudio hd <> h_newAudio hd ->
     let st' := step st (PlaySettled h false) in
     console st' = console st ++ ["Error playing updated audio:"%string] /\
     alerts st' = alerts st /\
     playing st' = playing st /\ paused st' = paused st /\
     audioRef st' = Some (h_newAudio hd) /\
     audios st' !! h_oldAudio hd = Audio.set_paused true <$> audios st !! h_oldAudio hd /\
     audios st' !! h_newAudio hd
       = Audio.set_volume (of_Z 1) <$> audios st !! h_newAudio hd /\
     plays st' = plays st ++ (if h_wasPlaying hd then [h_newAudio hd] else [])).
Proof.
  split.
  - intros i c r Hi Hr st'. unfold st'. cbn [step]. rewrite Hi.
    unfold updatePlayingAudio_response.
    destruct r as [| status | | data]; cbn in Hr; try (cbn; auto 10; fail).
    destruct (usable_path data); [discriminate|]. cbn. auto 10.
  - intros h hd Hh Hp Hs Hne st'. unfold st'. cbn [step]. rewrite Hs.
    unfold handleCanPlay_played. rewrite Hh, Hp. cbv zeta.
    unfold swap, console_error, on_audio, on_handover.
    destruct (h_wasPlaying hd);
      cbn [console alerts playing paused audioRef audios plays
           set_console set_alerts set_playing set_paused set_audioRef set_audios
           set_plays set_handovers];
      rewrite ?app_nil_r;
      repeat split; trivial;
      first [ rewrite list_lookup_alter_ne by congruence; apply list_lookup_alter_eq
            | rewrite list_lookup_alter_eq, list_lookup_alter_ne by congruence; reflexivity ].
Qed.

End LiveUpdateFailure.

(** The theorem on the handover of the scenario. *)
Lemma live_update_failure_witness :
  let st := Scenario.handing_over in
  Mixer.handovers st !! 1%nat <> None /\
  Mixer.audioRef (Mixer.step st (Mixer.PlaySettled 1 false)) = Some 1%nat.
Proof.
  cbv zeta. split; [vm_compute; discriminate|].
  destruct (live_update_failure Scenario.handing_over) as [_ H].
  destruct (Mixer.handovers Scenario.handing_over !! 1%nat) as [hd|] eqn:E;
    [|vm_compute in E; discriminate E].
  assert (Hhd : Mixer.h_oldAudio hd = 0%nat /\ Mixer.h_newAudio hd = 1%nat
                /\ Mixer.h_playPending hd = true)
    by (vm_compute in E; injection E as <-; auto).
  destruct Hhd as (Ho & Hn & Hp).
  destruct (H 1%nat hd E Hp) as (_ & _ & _ & _ & R & _);
    [reflexivity | rewrite Ho, Hn; discriminate |].
  now rewrite R, Hn.
Defined.

(** The claim fails on that handover: when [play] on the new stream is
    rejected, the stream that was playing is paused and is no longer the
    live reference. *)
Lemma handover_play_failure_pauses_old :
  let before := Scenario.handing_over in
  let after := Mixer.step before (Mixer.PlaySettled 1 false) in
  Mixer.audioRef before = Some 0%nat /\
  Audio.paused <$> Mixer.audios before !! 0%nat = Some false /\
  Mixer.audioRef after = Some 1%nat /\
  Audio.paused <$> Mixer.audios after !! 0%nat = Some true /\
  Mixer.alerts after = [].
Proof. cbv zeta. repeat split; vm_compute; reflexivity. Qed.

(** ** Polling the separation job *)
Section Polling.

Import Mixer.

(** [completed] with a progress of at least 1 is terminal. *)
Lemma completed_is_terminal (data : Body) (p : num) :
  b_status data = Some "completed"%string -> b_progress data = Some p ->
  geb p (of_Z 1) = true -> terminal data = true.
Proof.
  intros Hs Hp Hge. unfold terminal, has_status, progressValue_of. rewrite Hs, Hp.
  rewrite bool_decide_eq_true_2 by reflexivity. cbn [default andb].
  now rewrite percent_at_least.
Qed.

(** [completed] with a progress of at most 0.99, or without one, is not. *)
Lemma completed_early_is_not_terminal (data : Body) :
  b_status data = Some "completed"%string ->
  (b_progress data = None \/ exists q, b_progress data = Some (Fin q) /\ (q <= 99 # 100)%Q) ->
  terminal data = false.
Proof.
  intros Hs Hp. unfold terminal, has_status, progressValue_of. rewrite Hs.
  rewrite bool_decide_eq_true_2, bool_decide_eq_false_2 by (reflexivity || discriminate).
  destruct Hp as [->|(q & -> & Hq)]; [reflexivity|].
  change (default NaN (Some (Fin q))) with (Fin q). now rewrite percent_below.
Qed.

(** The rounding of the product shows at one half: a progress of 0.285 is
    shown as 28 percent, since the product is the binary64 value below
    28.5, and a progress of 0.015 as 2 percent, since the product is 1.5. *)
Example progressValue_of_halves :
  let body p := {| b_path := None; b_status := None; b_progress := Some (Fin p) |} in
  progressValue_of (body (285 # 1000)) = of_Z 28 /\
  progressValue_of (body (15 # 1000)) = of_Z 2 /\
  progressValue_of (body (99 # 100)) = of_Z 99 /\
  progressValue_of (body (1 # 1)) = of_Z 100.
Proof. cbv zeta. repeat split; vm_compute; reflexivity. Qed.

(** A terminal status stops the polling: the interval held by
    [progressIntervalRef] is cleared, the reference reset, [separating]
    dropped, and one alert scheduled 100 ms ahead; nothing is alerted
    yet. *)
Lemma poll_terminal_stops (st : State) (i : nat) (data : Body) :
  awaiting st !! i = Some KPoll -> terminal data = true ->
  let st' := step st (Responded i (Json data)) in
  progressIntervalRef st' = None /\
  separating st' = false /\
  alerts st' = alerts st /\
  requests st' = requests st /\
  exists msg,
    timers st'
    = match progressIntervalRef st with
      | Some id => List.filter (fun t => negb (Pos.eqb (timer_id t) id)) (timers st)
      | None => timers st
      end
      ++ [ {| timer_id := nextTimer st; due := now st + 100; period := None;
              callback := CbAlert msg |} ].
Proof.
  intros Hi Ht st'. unfold st'. cbn [step]. rewrite Hi.
  unfold poll_callback_response, pollProgress_response. cbv zeta.
  unfold terminal in Ht.
  destruct (has_status data "completed" && geb (progressValue_of data) (of_Z 100)).
  - unfold clear_progress_interval, setTimeout, clearTimer.
    cbn [progressIntervalRef set_progress set_awaiting].
    destruct (progressIntervalRef st) as [id|] eqn:R; cbn; rewrite ?R; cbn;
      repeat split; eauto.
  - cbn [orb] in Ht. rewrite Ht.
    unfold clear_progress_interval, setTimeout, clearTimer.
    cbn [progressIntervalRef set_progress set_awaiting].
    destruct (progressIntervalRef st) as [id|] eqn:R; cbn; rewrite ?R; cbn;
      repeat split; eauto.
Qed.

(** A poll that fails (no response, error status, unreadable body) is
    logged and changes nothing else: the interval stays armed and the job
    is still separating. *)
Lemma poll_failure_is_transient (st : State) (i : nat) (r : Response) :
  awaiting st !! i = Some KPoll ->
  (forall data, r <> Json data) ->
  let st' := step st (Responded i r) in
  timers st' = timers st /\
  progressIntervalRef st' = progressIntervalRef st /\
  separating st' = separating st /\
  progress st' = progress st /\
  alerts st' = alerts st /\
  exists msg, console st' = console st ++ [msg].
Proof.
  intros Hi Hr st'. unfold st'. cbn [step]. rewrite Hi.
  unfold poll_callback_response, pollProgress_response.
  destruct r as [| status | | data]; cbn; try (repeat split; eauto; fail).
  now destruct (Hr data).
Qed.

(** Whatever happened since the mixer was mounted, once a terminal status
    is handled the reference is reset and no polling timer is left, so
    however long the browser runs on, no further status request leaves. *)
Lemma no_poll_after_terminal (initialGains : option GainSettings) (autoPlay : bool)
    (history : list Event) (i : nat) (data : Body) (n : nat) :
  let st := run (mount initialGains autoPlay) history in
  awaiting st !! i = Some KPoll -> terminal data = true ->
  let st' := step st (Responded i (Json data)) in
  progressIntervalRef st' = None /\
  progress_requests (run st' (repeat Tick n)) = progress_requests st.
Proof.
  intros st Hi Ht st'.
  assert (Ok : poll_ok (set_awaiting (delete i (awaiting st)) st))
    by apply (poll_ok_reachable initialGains autoPlay history).
  destruct (poll_idle_terminal data _ Ok Ht) as [I Q].
  assert (E : st' = poll_callback_response (Json data)
                      (set_awaiting (delete i (awaiting st)) st))
    by (unfold st'; cbn [step]; now rewrite Hi).
  rewrite <- E in I, Q.
  split; [apply I|].
  destruct (idle_ticks n st' I) as [_ ->].
  unfold progress_requests. now rewrite Q.
Qed.

End Polling.

(** When every status request is answered before the next one leaves, the
    completion is alerted once and no request follows it. *)
Example prompt_polls_alert_once :
  let st := Mixer.run (Mixer.mount None false) Scenario.prompt_polls in
  Mixer.alerts st = ["Separation complete."%string] /\
  Mixer.requests st = [Mixer.StartSeparationRequest; Mixer.ProgressRequest] /\
  Mixer.progressIntervalRef st = None /\ Mixer.timers st = [].
Proof. cbv zeta. repeat split; vm_compute; reflexivity. Qed.

(** C8.  A terminal status clears the polling interval
    ([poll_terminal_stops]) and a failed poll changes nothing
    ([poll_failure_is_transient]), but the completion is not always alerted
    once: the interval does not wait for the answer of a poll, and when two
    polls are in flight and both are answered with [completed], the second
    answer is handled after the interval was cleared and alerts again. *)
Theorem overlapping_polls_alert_twice :
  let st := Mixer.run (Mixer.mount None false) Scenario.overlapping_polls in
  Mixer.requests st
  = [Mixer.StartSeparationRequest; Mixer.ProgressRequest; Mixer.ProgressRequest] /\
  Mixer.progressIntervalRef st = None /\
  Mixer.alerts st = ["Separation complete."%string; "Separation complete."%string].
Proof. cbv zeta. repeat split; vm_compute; reflexivity. Qed.

(** * Beyond the specification

    Properties of the code that the specification does not state. *)

(** ** Ranges of JavaScript numbers *)
Section NumRanges.

Lemma finite_nonneg (x : num) : nonneg x -> finite x.
Proof. intros (q & -> & _). now exists q. Qed.

Lemma nonneg_zero : nonneg (of_Z 0).
Proof. exists 0%Q. split; [reflexivity | apply Qle_refl]. Qed.

Lemma nonneg_add (x y : num) : nonneg x -> nonneg y -> nonneg (x + y)%num.
Proof.
  intros (a & -> & Ha) (b & -> & Hb). exists (Qred (a + b)). split; [reflexivity|].
  rewrite Qred_correct. lra.
Qed.

Lemma nonneg_abs (x : num) : finite x -> nonneg (Math_abs x).
Proof.
  intros (q & ->). exists (Qred (Qabs q)). split; [reflexivity|].
  rewrite Qred_correct. apply Qabs_nonneg.
Qed.

Lemma finite_at_index (l : list num) (i : nat) :
  Forall finite l -> (i < length l)%nat -> finite (AudioFeatures.at_index l i).
Proof.
  intros H Hi. rewrite List.Forall_forall in H. apply H. now apply nth_In.
Qed.

Lemma div_of_Z_pos (a : Q) (k : Z) :
  0 < k -> (Fin a / of_Z k)%num = Fin (Qred (a / inject_Z k)).
Proof.
  intros Hk. simpl. rewrite Qsign_inject_Z.
  destruct (Z.compare_spec k 0); try lia. reflexivity.
Qed.

Lemma inject_Z_pos (k : Z) : 0 < k -> (0 < inject_Z k)%Q.
Proof. intros H. change 0%Q with (inject_Z 0). now rewrite <- Zlt_Qlt. Qed.

Lemma inject_Z_nonneg (k : Z) : 0 <= k -> (0 <= inject_Z k)%Q.
Proof. intros H. change 0%Q with (inject_Z 0). now rewrite <- Zle_Qle. Qed.

(** [Math.max(lo, Math.min(hi, x))] is NaN for NaN and between the bounds
    otherwise. *)
Lemma clamp_cases (lo hi : Z) (x : num) :
  lo <= hi ->
  let r := Math_max (of_Z lo) (Math_min (of_Z hi) x) in
  (x = NaN /\ r = NaN) \/ (x <> NaN /\ within (inject_Z lo) (inject_Z hi) r).
Proof.
  intros Hle r. unfold r. destruct x as [q| | |].
  - right. split; [discriminate|].
    unfold Math_min. cbn [cmp of_Z].
    destruct (inject_Z hi ?= q)%Q eqn:E1.
    + rewrite Math_max_of_Z. eexists; split; [reflexivity|].
      rewrite <- Zle_Qle, <- Zle_Qle. lia.
    + rewrite Math_max_of_Z. eexists; split; [reflexivity|].
      rewrite <- Zle_Qle, <- Zle_Qle. lia.
    + apply Qgt_alt in E1.
      unfold Math_max. cbn [cmp of_Z].
      destruct (inject_Z lo ?= q)%Q eqn:E2.
      * eexists; split; [reflexivity|]. split; [apply Qle_refl|].
        now rewrite <- Zle_Qle.
      * apply Qlt_alt in E2. exists q. split; [reflexivity|]. split; lra.
      * eexists; split; [reflexivity|]. split; [apply Qle_refl|].
        now rewrite <- Zle_Qle.
  - right. split; [discriminate|].
    change (Math_min (of_Z hi) PInf) with (of_Z hi). rewrite Math_max_of_Z.
    eexists; split; [reflexivity|]. rewrite <- Zle_Qle, <- Zle_Qle. lia.
  - right. split; [discriminate|].
    change (Math_max (of_Z lo) (Math_min (of_Z hi) NInf)) with (of_Z lo).
    eexists; split; [reflexivity|]. split; [apply Qle_refl|]. now rewrite <- Zle_Qle.
  - left. split; reflexivity.
Qed.

End NumRanges.

(** ** The features computed on the first channel *)
Section Extraction.

Import AudioFeatures.

(** *** Zero crossings *)

Lemma zeroCrossing_loop_le (fuel : nat) (l : list num) (i c : nat) :
  (zeroCrossing_loop fuel l i c <= c + (length l - i))%nat.
Proof.
  revert i c. induction fuel as [|fuel IH]; intros i c; cbn [zeroCrossing_loop]; [lia|].
  destruct (Nat.ltb_spec i (length l)); [|lia].
  etransitivity; [apply IH|].
  destruct (xorb _ _); lia.
Qed.

(** X1.  The zero-crossing rate of an empty buffer is [0 / 0], NaN; that of
    any other buffer is a finite value from 0 up to, but not reaching, 1:
    there is at most one crossing per sample after the first. *)
Theorem calculateZeroCrossingRate_range (channelData : list num) :
  (channelData = [] -> calculateZeroCrossingRate channelData = NaN) /\
  (channelData <> [] ->
   exists q, calculateZeroCrossingRate channelData = Fin q /\ (0 <= q)%Q /\ (q < 1)%Q).
Proof.
  split.
  - intros ->. reflexivity.
  - intros Hne. unfold calculateZeroCrossingRate.
    pose proof (zeroCrossing_loop_le (length channelData) channelData 1 0) as Hc.
    set (c := zeroCrossing_loop _ _ _ _) in *.
    assert (Hn : (0 < length channelData)%nat) by (destruct channelData; simpl; [congruence | lia]).
    unfold of_Z at 1. rewrite div_of_Z_pos by lia.
    eexists; split; [reflexivity|]. rewrite Qred_correct. split.
    + apply Qle_shift_div_l; [apply inject_Z_pos; lia|].
      rewrite Qmult_0_l. apply inject_Z_nonneg. lia.
    + apply Qlt_shift_div_r; [apply inject_Z_pos; lia|].
      rewrite Qmult_1_l. rewrite <- Zlt_Qlt. lia.
Qed.

(** *** Spectral flux *)

Lemma nonneg_rise (a b : num) :
  finite a -> finite b -> nonneg (Math_max (of_Z 0) (a - b))%num.
Proof.
  intros (x & ->) (y & ->). cbn [sub neg add]. unfold Math_max. cbn [cmp of_Z].
  destruct (inject_Z 0 ?= Qred (x + Qred (- y)))%Q eqn:E.
  - apply nonneg_zero.
  - apply Qlt_alt in E. eexists; split; [reflexivity|]. now apply Qlt_le_weak.
  - apply nonneg_zero.
Qed.

Lemma flux_loop_nonneg (fuel : nat) (l : list num) (i : nat) (flux : num) :
  Forall finite l -> (windowSize <= i)%nat -> nonneg flux ->
  nonneg (flux_loop fuel l i flux).
Proof.
  intros Hl. revert i flux.
  induction fuel as [|fuel IH]; intros i flux Hi Hf; cbn [flux_loop]; [exact Hf|].
  destruct (Nat.ltb_spec i (length l)); [|exact Hf].
  apply IH; [lia|]. apply nonneg_add; [exact Hf|].
  apply nonneg_rise; apply finite_nonneg, nonneg_abs, finite_at_index; trivial; lia.
Qed.

(** X2.  On a buffer of at least 1024 finite samples the spectral flux is a
    finite value, zero or above: the division by
    [Math.floor(length / 1024)] is then by an integer of at least 1. *)
Theorem calculateSpectralFlux_long (channelData : list num) :
  (windowSize <= length channelData)%nat -> Forall finite channelData ->
  nonneg (calculateSpectralFlux channelData).
Proof.
  intros Hlen Hfin. unfold calculateSpectralFlux.
  destruct (flux_loop_nonneg (length channelData) channelData windowSize (of_Z 0) Hfin)
    as (f & -> & Hf); [lia | apply nonneg_zero |].
  unfold windowSize in *. change (Z.of_nat 1024) with 1024.
  unfold of_Z at 1. rewrite div_of_Z_pos by lia. cbn [Math_floor].
  set (k := Qfloor _).
  assert (Hk : 1 <= k).
  { unfold k. change 1 with (Qfloor (inject_Z 1)). apply Qfloor_resp_le.
    rewrite Qred_correct. apply Qle_shift_div_l; [reflexivity|].
    rewrite Qmult_1_l. rewrite <- Zle_Qle. lia. }
  rewrite div_of_Z_pos by lia.
  eexists; split; [reflexivity|]. rewrite Qred_correct.
  apply Qle_shift_div_l; [apply inject_Z_pos; lia|]. now rewrite Qmult_0_l.
Qed.

End Extraction.

(** The theorem on a clip of six samples: three crossings out of six. *)
Lemma calculateZeroCrossingRate_range_witness :
  Scenario.six_samples <> [] /\
  exists q, AudioFeatures.calculateZeroCrossingRate Scenario.six_samples = Fin q /\ (0 <= q)%Q /\ (q < 1)%Q.
Proof.
  split; [discriminate|].
  apply (calculateZeroCrossingRate_range Scenario.six_samples). discriminate.
Defined.

(** The theorem on the click: the flux is (1/2) / 1. *)
Lemma calculateSpectralFlux_long_witness :
  (AudioFeatures.windowSize <= length Scenario.click)%nat /\
  nonneg (AudioFeatures.calculateSpectralFlux Scenario.click).
Proof.
  split; [apply Nat.leb_le; reflexivity|].
  apply (calculateSpectralFlux_long Scenario.click).
  - apply Nat.leb_le. reflexivity.
  - apply Forall_app. split.
    + apply List.Forall_forall. intros x Hx. apply repeat_spec in Hx. subst x.
      eexists. reflexivity.
    + repeat constructor. eexists. reflexivity.
Defined.

(** ** Tempo *)
Section Tempo.

Import AudioFeatures.

(** [peaks / duration * 60] is a number as soon as the duration is neither
    zero nor NaN, whatever the samples are *)
Lemma bpm_finite (peaks : nat) (duration : num) :
  truthy duration = true -> finite (of_Z (Z.of_nat peaks) / duration * of_Z 60)%num.
Proof.
  intros Hd. destruct duration as [d| | |]; try discriminate.
  - cbn [truthy] in Hd. apply negb_true_iff in Hd.
    unfold of_Z at 1. cbn [div]. unfold Qsign.
    destruct (d ?= 0)%Q eqn:E.
    + apply Qeq_alt in E. apply Qeq_bool_neq in Hd. contradiction.
    + eexists. reflexivity.
    + eexists. reflexivity.
  - eexists. reflexivity.
  - eexists. reflexivity.
Qed.

Lemma zero_div (duration : num) :
  truthy duration = true -> (of_Z (Z.of_nat 0) / duration)%num = Fin 0.
Proof.
  intros Hd. destruct duration as [d| | |]; try discriminate; try reflexivity.
  cbn [truthy] in Hd. apply negb_true_iff in Hd.
  assert (E0 : Qred (inject_Z 0 / d) = 0%Q).
  { transitivity (Qred 0); [|reflexivity].
    apply Qred_complete. unfold Qdiv. apply Qmult_0_l. }
  change (of_Z (Z.of_nat 0)) with (Fin (inject_Z 0)). cbn [div]. unfold Qsign.
  destruct (d ?= 0)%Q eqn:E.
  - apply Qeq_alt in E. apply Qeq_bool_neq in Hd. contradiction.
  - now rewrite E0.
  - now rewrite E0.
Qed.

Lemma estimateTempo_cases (channelData : list num) (duration : num) :
  (estimateTempo channelData duration = NaN \/
   within 60 180 (estimateTempo channelData duration)) /\
  (truthy duration = true -> within 60 180 (estimateTempo channelData duration)).
Proof.
  unfold estimateTempo. cbv zeta.
  set (bpm := (_ / duration * of_Z 60)%num).
  destruct (clamp_cases 60 180 bpm) as [[Hn Hr]|[Hn Hr]]; [lia | |].
  - split; [now left|]. intros Hd.
    unfold bpm in Hn.
    match type of Hn with
    | (of_Z (Z.of_nat ?p) / _ * _)%num = _ =>
        destruct (bpm_finite p duration Hd) as (q & Hq)
    end.
    rewrite Hq in Hn. discriminate Hn.
  - split; [now right | intros _; exact Hr].
Qed.

(** X3.  The tempo estimate is clamped to 60..180 BPM: it is a finite
    value in that range whenever the duration of the buffer is neither zero
    nor NaN, whatever the samples are; in every case it is either in that
    range or NaN. *)
Theorem estimateTempo_range (channelData : list num) (duration : num) :
  (estimateTempo channelData duration = NaN \/
   within 60 180 (estimateTempo channelData duration)) /\
  (truthy duration = true -> within 60 180 (estimateTempo channelData duration)).
Proof. apply estimateTempo_cases. Qed.

Lemma energies_loop_length (fuel : nat) (l : list num) (i : nat) (acc : list num) :
  (length (energies_loop fuel l i acc)
   <= length acc + (length l - i + (tempoWindow - 1)) / tempoWindow)%nat.
Proof.
  revert i acc. induction fuel as [|fuel IH]; intros i acc; cbn [energies_loop]; [lia|].
  destruct (Nat.ltb_spec i (length l)); [|lia].
  etransitivity; [apply IH|]. rewrite length_app. cbn [length].
  unfold tempoWindow in *.
  destruct (le_lt_dec (i + 4096) (length l)).
  - replace (length l - i + (4096 - 1))%nat
      with (length l - (i + 4096) + (4096 - 1) + 1 * 4096)%nat by lia.
    rewrite Nat.div_add by lia. lia.
  - replace (length l - (i + 4096))%nat with 0%nat by lia.
    rewrite (Nat.div_small (0 + (4096 - 1)) 4096) by lia.
    assert (1 <= (length l - i + (4096 - 1)) / 4096)%nat; [|lia].
    apply Nat.div_le_lower_bound; lia.
Qed.

Lemma peaks_loop_short (fuel : nat) (energies : list num) :
  (length energies <= 2)%nat -> peaks_loop fuel energies 1 0 = 0%nat.
Proof.
  intros H. destruct fuel; cbn [peaks_loop]; [reflexivity|].
  destruct (Z.ltb_spec (Z.of_nat 1) (Z.of_nat (length energies) - 1)); [lia | reflexivity].
Qed.

(** X4.  A buffer of at most two windows of 4096 samples has no interior
    window, hence no peak: whenever its duration is neither zero nor NaN
    the tempo estimate is the lower bound, 60 BPM, whatever the samples
    are. *)
Theorem estimateTempo_short (channelData : list num) (duration : num) :
  (length channelData <= 2 * tempoWindow)%nat -> truthy duration = true ->
  estimateTempo channelData duration = of_Z 60.
Proof.
  intros Hlen Hd. unfold estimateTempo. cbv zeta.
  rewrite peaks_loop_short.
  - rewrite zero_div by exact Hd. reflexivity.
  - pose proof (energies_loop_length (length channelData) channelData 0 []) as H.
    cbn [length] in H. unfold tempoWindow in *.
    assert ((length channelData - 0 + (4096 - 1)) / 4096 < 3)%nat; [|lia].
    apply Nat.Div0.div_lt_upper_bound. lia.
Qed.

(** X5.  [normalizeFeatures] maps the tempo estimate of a buffer whose
    duration is neither zero nor NaN into 0..1. *)
Theorem normalized_tempo_range (f : RawFeatures) (channelData : list num) :
  raw_tempo f = estimateTempo channelData (raw_duration f) ->
  truthy (raw_duration f) = true ->
  within 0 1 (tempo (normalizeFeatures f)).
Proof.
  intros Ht Hd. cbn [normalizeFeatures tempo]. rewrite Ht.
  destruct (proj2 (estimateTempo_cases channelData (raw_duration f)) Hd)
    as (q & -> & Hlo & Hhi).
  cbn [sub neg add of_Z]. rewrite div_of_Z_pos by lia.
  eexists; split; [reflexivity|]. rewrite !Qred_correct. split.
  - apply Qle_shift_div_l; [reflexivity|]. rewrite Qmult_0_l.
    change (- inject_Z 60)%Q with (- (60))%Q. lra.
  - apply Qle_shift_div_r; [reflexivity|]. rewrite Qmult_1_l.
    change (- inject_Z 60)%Q with (- (60))%Q. change (inject_Z 120) with 120%Q. lra.
Qed.

End Tempo.

(** ** Spectral centroid and rolloff *)
Section Spectrum.

Import AudioFeatures.

Lemma window_le_length (l : list num) : (window l <= length l)%nat.
Proof. unfold window. lia. Qed.

Lemma window_le_fftSize (l : list num) : (window l <= fftSize)%nat.
Proof. unfold window. lia. Qed.

Lemma bin_frequency_Fin (i : nat) (s : Q) :
  bin_frequency i (Fin s)
  = Fin (Qred (Qred (inject_Z (Z.of_nat i) * s) / inject_Z 4096)).
Proof.
  unfold bin_frequency. change (2 * Z.of_nat fftSize) with 4096.
  unfold of_Z at 1. cbn [mul]. now rewrite div_of_Z_pos by lia.
Qed.

Lemma Qhalf (s : Q) : (s / 2 == (1 # 2) * s)%Q.
Proof. field. Qed.

(** a bin below [fftSize] lies below half the sample rate *)
Lemma bin_frequency_bound (i : nat) (s : Q) :
  (i <= fftSize)%nat -> (0 <= s)%Q ->
  exists f, bin_frequency i (Fin s) = Fin f /\ (0 <= f)%Q /\ (f <= s / 2)%Q.
Proof.
  intros Hi Hs. rewrite bin_frequency_Fin. eexists; split; [reflexivity|].
  rewrite !Qred_correct. unfold fftSize in Hi.
  assert (H0 : (0 <= inject_Z (Z.of_nat i))%Q) by (apply inject_Z_nonneg; lia).
  assert (H1 : (inject_Z (Z.of_nat i) <= 2048)%Q).
  { change 2048%Q with (inject_Z 2048). rewrite <- Zle_Qle. lia. }
  change (inject_Z 4096) with 4096%Q.
  set (x := inject_Z (Z.of_nat i)) in *. split.
  - apply Qle_shift_div_l; [reflexivity|]. nra.
  - apply Qle_shift_div_r; [reflexivity|]. rewrite Qhalf. nra.
Qed.

Lemma centroid_loop_inv (fuel : nat) (l : list num) (s : Q) (samples i : nat) (c m : num) :
  Forall finite l -> (0 <= s)%Q ->
  (samples <= length l)%nat -> (samples <= fftSize)%nat ->
  centroid_inv s (c, m) ->
  centroid_inv s (centroid_loop fuel l (Fin s) samples i c m).
Proof.
  intros Hl Hs Hlen Hfft. revert i c m.
  induction fuel as [|fuel IH]; intros i c m H; cbn [centroid_loop]; [exact H|].
  destruct (Nat.ltb_spec i samples); [|exact H].
  apply IH. destruct H as (cq & mq & [= -> ->] & Hc & Hm & Hcm).
  destruct (bin_frequency_bound i s) as (f & -> & Hf0 & Hf); [lia | exact Hs |].
  destruct (nonneg_abs (at_index l i)) as (a & -> & Ha);
    [apply finite_at_index; [exact Hl | lia]|].
  exists (Qred (cq + Qred (f * a))), (Qred (mq + a)).
  split; [reflexivity|]. rewrite !Qred_correct.
  rewrite Qhalf in Hf. split; [nra|]. split; [lra|]. nra.
Qed.

Lemma centroid_loop_silent (fuel : nat) (l : list num) (sr : num) (samples i : nat) (c m : num) :
  Forall is_zero l -> (samples <= length l)%nat -> is_zero m ->
  is_zero (snd (centroid_loop fuel l sr samples i c m)).
Proof.
  intros Hl Hlen. revert i c m.
  induction fuel as [|fuel IH]; intros i c m H; cbn [centroid_loop]; [exact H|].
  destruct (Nat.ltb_spec i samples); [|exact H].
  apply IH. destruct H as (mq & -> & Hm).
  rewrite List.Forall_forall in Hl.
  destruct (Hl (at_index l i)) as (x & -> & Hx); [apply nth_In; lia|].
  eexists; split; [reflexivity|]. rewrite !Qred_correct, Hm, Hx. reflexivity.
Qed.

(** X6.  On a silent buffer (all samples zero; the empty buffer is one)
    the spectral centroid is 0, not [0 / 0]: the division is guarded.  On
    finite samples, with a sample rate that is finite and not negative, it
    is a finite value between 0 and half the sample rate. *)
Theorem calculateSpectralCentroid_range (channelData : list num) (sampleRate : num) :
  (Forall is_zero channelData -> calculateSpectralCentroid channelData sampleRate = of_Z 0) /\
  (Forall finite channelData -> nonneg sampleRate ->
   exists q s, calculateSpectralCentroid channelData sampleRate = Fin q /\
               sampleRate = Fin s /\ (0 <= q)%Q /\ (q <= s / 2)%Q).
Proof.
  unfold calculateSpectralCentroid. cbv zeta. split.
  - intros Hz.
    pose proof (centroid_loop_silent (window channelData) channelData sampleRate
                  (window channelData) 0 (of_Z 0) (of_Z 0) Hz
                  (window_le_length channelData)) as H.
    destruct (centroid_loop _ _ _ _ _ _ _) as [c m]. cbn [snd] in H.
    destruct H as (mq & -> & Hm); [exists 0%Q; split; reflexivity|].
    unfold gtb. cbn [cmp of_Z].
    assert (E : (mq ?= inject_Z 0)%Q = Eq) by (apply Qeq_alt; exact Hm).
    now rewrite E.
  - intros Hf (s & -> & Hs).
    destruct (centroid_loop_inv (window channelData) channelData s
                (window channelData) 0 (of_Z 0) (of_Z 0) Hf Hs
                (window_le_length channelData) (window_le_fftSize channelData))
      as (c & m & -> & Hc & Hm & Hcm).
    { exists 0%Q, 0%Q. split; [reflexivity|]. split; [lra|]. split; [lra|]. lra. }
    unfold gtb. cbn [cmp of_Z].
    destruct (m ?= inject_Z 0)%Q eqn:E.
    + exists 0%Q, s. split; [reflexivity|]. split; [reflexivity|].
      rewrite Qhalf. split; lra.
    + exists 0%Q, s. split; [reflexivity|]. split; [reflexivity|].
      rewrite Qhalf. split; lra.
    + apply Qgt_alt in E. change (inject_Z 0) with 0%Q in E.
      cbn [div]. unfold Qsign.
      assert (E' : (m ?= 0)%Q = Gt) by (apply Qgt_alt; exact E). rewrite E'.
      exists (Qred (c / m)), s. split; [reflexivity|]. split; [reflexivity|].
      rewrite Qred_correct. split.
      * apply Qle_shift_div_l; [exact E | lra].
      * apply Qle_shift_div_r; [exact E | now rewrite Qhalf].
Qed.

(** *** Rolloff *)

Lemma totalEnergy_loop_nonneg (fuel : nat) (l : list num) (samples i : nat) (e : num) :
  Forall finite l -> (samples <= length l)%nat -> nonneg e ->
  nonneg (totalEnergy_loop fuel l samples i e).
Proof.
  intros Hl Hlen. revert i e.
  induction fuel as [|fuel IH]; intros i e H; cbn [totalEnergy_loop]; [exact H|].
  destruct (Nat.ltb_spec i samples); [|exact H].
  apply IH. apply nonneg_add; [exact H|].
  apply nonneg_abs, finite_at_index; [exact Hl | lia].
Qed.

(** When the sum that the first loop reaches from [(i, cum)] is at least
    the threshold, the second loop returns from inside. *)
Lemma rolloff_loop_returns (fuel : nat) (l : list num) (sr : num)
    (samples i : nat) (cum threshold : num) :
  (samples - i <= fuel)%nat -> (i < samples)%nat ->
  geb (totalEnergy_loop fuel l samples i cum) threshold = true ->
  exists k, (i <= k < samples)%nat /\
            rolloff_loop fuel l sr samples i cum threshold = Some (bin_frequency k sr).
Proof.
  revert i cum. induction fuel as [|fuel IH]; intros i cum Hfuel Hi Hge; [lia|].
  cbn [rolloff_loop totalEnergy_loop] in *.
  destruct (Nat.ltb_spec i samples); [|lia].
  destruct (geb (cum + Math_abs (at_index l i))%num threshold) eqn:E.
  - exists i. split; [lia | reflexivity].
  - destruct (le_lt_dec samples (S i)).
    + exfalso. destruct fuel; cbn [totalEnergy_loop] in Hge.
      * congruence.
      * destruct (Nat.ltb_spec (S i) samples); [lia | congruence].
    + destruct (IH (S i) _ ltac:(lia) ltac:(lia) Hge) as (k & Hk & ->).
      exists k. split; [lia | reflexivity].
Qed.

(** X7.  The spectral rolloff of an empty buffer is the fallback, 85% of
    half the sample rate.  On a non-empty buffer of finite samples the
    fallback is never reached: the cumulated energy meets 85% of the total
    at some bin of the window, and the result is the frequency of that
    bin. *)
Theorem calculateSpectralRolloff_bin (channelData : list num) (sampleRate : num) :
  (channelData = [] ->
   calculateSpectralRolloff channelData sampleRate
   = (sampleRate / of_Z 2 * Fin (85 # 100))%num) /\
  (channelData <> [] -> Forall finite channelData ->
   exists k, (k < window channelData)%nat /\
             calculateSpectralRolloff channelData sampleRate = bin_frequency k sampleRate).
Proof.
  split.
  - intros ->. reflexivity.
  - intros Hne Hf. unfold calculateSpectralRolloff. cbv zeta.
    assert (Hw : (0 < window channelData)%nat).
    { unfold window, fftSize. destruct channelData; simpl; [congruence | lia]. }
    destruct (totalEnergy_loop_nonneg (window channelData) channelData
                (window channelData) 0 (of_Z 0) Hf (window_le_length channelData)
                nonneg_zero) as (t & Ht & Ht0).
    destruct (rolloff_loop_returns (window channelData) channelData sampleRate
                (window channelData) 0 (of_Z 0)
                (Fin (85 # 100) * totalEnergy_loop (window channelData) channelData
                                    (window channelData) 0 (of_Z 0))%num)
      as (k & Hk & ->); [lia | exact Hw | |].
    + rewrite Ht. unfold geb. cbn [mul cmp].
      destruct (t ?= Qred ((85 # 100) * t))%Q eqn:E; trivial.
      apply Qlt_alt in E. rewrite Qred_correct in E. lra.
    + exists k. split; [lia | reflexivity].
Qed.

End Spectrum.

(** The theorems on the clip of six samples, 6/44100 s long. *)
Lemma estimateTempo_range_witness :
  truthy (Fin (6 # 44100)) = true /\
  within 60 180 (AudioFeatures.estimateTempo Scenario.six_samples (Fin (6 # 44100))).
Proof.
  split; [reflexivity|].
  apply (proj2 (estimateTempo_range Scenario.six_samples (Fin (6 # 44100)))). reflexivity.
Defined.

Lemma estimateTempo_short_witness :
  (length Scenario.six_samples <= 2 * AudioFeatures.tempoWindow)%nat /\
  AudioFeatures.estimateTempo Scenario.six_samples (Fin (6 # 44100)) = of_Z 60.
Proof.
  split; [apply Nat.leb_le; reflexivity|].
  apply (estimateTempo_short Scenario.six_samples (Fin (6 # 44100))).
  - apply Nat.leb_le. reflexivity.
  - reflexivity.
Defined.

Lemma normalized_tempo_range_witness :
  truthy (AudioFeatures.raw_duration Scenario.six_samples_features) = true /\
  within 0 1 (AudioFeatures.tempo (AudioFeatures.normalizeFeatures Scenario.six_samples_features)).
Proof.
  split; [reflexivity|].
  apply (normalized_tempo_range Scenario.six_samples_features Scenario.six_samples); reflexivity.
Defined.

Lemma six_samples_finite : Forall finite Scenario.six_samples.
Proof. repeat constructor; eexists; reflexivity. Qed.

Lemma calculateSpectralCentroid_range_witness :
  nonneg (of_Z 44100) /\
  exists q s, AudioFeatures.calculateSpectralCentroid Scenario.six_samples (of_Z 44100) = Fin q /\
              of_Z 44100 = Fin s /\ (0 <= q)%Q /\ (q <= s / 2)%Q.
Proof.
  assert (H : nonneg (of_Z 44100)) by (eexists; split; [reflexivity | discriminate]).
  split; [exact H|].
  apply (proj2 (calculateSpectralCentroid_range Scenario.six_samples (of_Z 44100)));
    [exact six_samples_finite | exact H].
Defined.

Lemma calculateSpectralRolloff_bin_witness :
  Scenario.six_samples <> [] /\
  exists k, (k < AudioFeatures.window Scenario.six_samples)%nat /\
            AudioFeatures.calculateSpectralRolloff Scenario.six_samples (of_Z 44100)
            = AudioFeatures.bin_frequency k (of_Z 44100).
Proof.
  split; [discriminate|].
  apply (proj2 (calculateSpectralRolloff_bin Scenario.six_samples (of_Z 44100)));
    [discriminate | exact six_samples_finite].
Defined.

(** ** The genre vector and the model input *)
Section Genre.

Import AudioFeatures.

Lemma classifyGenre_one_of (features : Features) :
  let z := of_Z 0 in
  In (classifyGenre features)
    [ [Fin (8 # 10); z; z; z; z; z; z; z; z; z];
      [z; Fin (8 # 10); z; z; z; z; z; z; z; z];
      [z; z; Fin (8 # 10); z; z; z; z; z; z; z];
      [z; z; z; Fin (8 # 10); z; z; z; z; z; z];
      [Fin (3 # 10); z; z; z; z; z; z; z; z; z] ].
Proof.
  cbv zeta. unfold classifyGenre.
  repeat match goal with |- context [if ?c then _ else _] => destruct c end;
    simpl; auto 10.
Qed.

(** X8.  Whatever the features, even NaN, [classifyGenre] returns one of
    five vectors of ten slots: 0.8 on pop, rock, electronic or hip-hop, or
    0.3 on pop; the slots of jazz, classical, country, metal, reggae and
    blues are never set. *)
Theorem classifyGenre_cases (features : Features) :
  let z := of_Z 0 in
  In (classifyGenre features)
    [ [Fin (8 # 10); z; z; z; z; z; z; z; z; z];
      [z; Fin (8 # 10); z; z; z; z; z; z; z; z];
      [z; z; Fin (8 # 10); z; z; z; z; z; z; z];
      [z; z; z; Fin (8 # 10); z; z; z; z; z; z];
      [Fin (3 # 10); z; z; z; z; z; z; z; z; z] ].
Proof. apply classifyGenre_one_of. Qed.

Lemma featuresToVector_parts (features : Features) :
  let v := featuresToVector features (classifyGenre features) in
  length v = UserPreferenceModel.inputSize /\
  drop 13 v = classifyGenre features /\
  drop 17 v = repeat (of_Z 0) 6.
Proof.
  cbv zeta. pose proof (classifyGenre_one_of features) as H. cbv zeta in H.
  simpl in H. unfold featuresToVector.
  destruct H as [<-|[<-|[<-|[<-|[<-|[]]]]]]; repeat split; reflexivity.
Qed.

(** X9.  The genre vector fills the last ten entries of the model input:
    with the genre of [classifyGenre] the input has 23 entries, the input
    size of the model, and its last six are always 0. *)
Theorem featuresToVector_shape (features : Features) :
  let v := featuresToVector features (classifyGenre features) in
  length v = UserPreferenceModel.inputSize /\
  drop 13 v = classifyGenre features /\
  drop 17 v = repeat (of_Z 0) 6.
Proof. apply featuresToVector_parts. Qed.

End Genre.

(** ** The preference model: encoding, persistence, users *)
Section ModelStore.

Import AudioFeatures UserPreferenceModel.

Variable tanhQ : Q -> Q.
Variable fit : Sequential -> FitCall -> option Sequential.

(** *** Gains to targets and back *)

Lemma round_integer (z : Z) (q : Q) : (q == inject_Z z)%Q -> Qfloor (q + (1 # 2)) = z.
Proof.
  intros E. rewrite (Qfloor_comp _ (inject_Z z + (1 # 2))) by (now rewrite E).
  pose proof (Qfloor_le (inject_Z z + (1 # 2))) as Hle.
  pose proof (Qlt_floor (inject_Z z + (1 # 2))) as Hlt.
  set (k := Qfloor _) in *.
  assert (A : (inject_Z k < inject_Z (z + 1))%Q) by (rewrite inject_Z_plus; change (inject_Z 1) with 1%Q; lra).
  assert (B : (inject_Z z < inject_Z (k + 1))%Q) by lra.
  rewrite <- Zlt_Qlt in A, B. lia.
Qed.

Lemma to_dB_normalized (values : list num) (i : nat) (z : Z) :
  at_index values i = normalize_gain (of_Z z) -> to_dB values i = of_Z z.
Proof.
  intros E. unfold to_dB. rewrite E. unfold normalize_gain.
  cbn [add of_Z]. rewrite div_of_Z_pos by lia.
  cbn [mul sub neg add of_Z Math_round]. unfold of_Z. do 2 f_equal.
  apply round_integer. rewrite !Qred_correct.
  change (inject_Z 18) with 18%Q. change (inject_Z 6) with 6%Q. field.
Qed.

(** X10.  What [train] makes of a gain, [predict] turns back into it: for
    integer gains, decoding the target [(g + 6) / 18] gives [g] clamped to
    -24..12, hence [g] itself for every gain that the sliders can hold. *)
Theorem gains_round_trip (v d b o : Z) :
  let g := {| vocals := of_Z v; drums := of_Z d; bass := of_Z b; other := of_Z o |} in
  let clamp z := of_Z (Z.max (-24) (Z.min 12 z)) in
  gains_of_values (normalizedGains g)
  = {| vocals := clamp v; drums := clamp d; bass := clamp b; other := clamp o |} /\
  (Forall (fun z => -24 <= z <= 12) [v; d; b; o] ->
   gains_of_values (normalizedGains g) = g).
Proof.
  cbv zeta.
  assert (E : forall x y z w : Z,
             gains_of_values
               (normalizedGains {| vocals := of_Z x; drums := of_Z y;
                                   bass := of_Z z; other := of_Z w |})
             = {| vocals := of_Z (Z.max (-24) (Z.min 12 x));
                  drums := of_Z (Z.max (-24) (Z.min 12 y));
                  bass := of_Z (Z.max (-24) (Z.min 12 z));
                  other := of_Z (Z.max (-24) (Z.min 12 w)) |}).
  { intros x y z w. unfold gains_of_values, normalizedGains.
    cbn [vocals drums bass other].
    rewrite (to_dB_normalized _ 0 x), (to_dB_normalized _ 1 y),
      (to_dB_normalized _ 2 z), (to_dB_normalized _ 3 w) by reflexivity.
    now rewrite !clamp_dB_of_Z. }
  split; [apply E|].
  intros H. rewrite E.
  apply Forall_cons in H as [Hv H]. apply Forall_cons in H as [Hd H].
  apply Forall_cons in H as [Hb H]. apply Forall_cons in H as [Ho _].
  repeat f_equal; lia.
Qed.

(** *** Stored weights *)




(** *** One model per user *)

Lemma storage_key_inj (a b : Model) : storage_key a = storage_key b -> userId a = userId b.
Proof. unfold storage_key. intros H. simpl in H. now injection H. Qed.

Lemma initialize_storage (draw : Draw) (self : Model) (env : Env) :
  localStorage (snd (initialize draw self env)) = localStorage env /\
  userId (fst (initialize draw self env)) = userId self.
Proof.
  unfold initialize. destruct (isInitialized self); [now split|].
  destruct (loadWeights self env); now split.
Qed.

Lemma saveWeights_other (self other : Model) (env : Env) :
  userId other <> userId self ->
  localStorage (saveWeights self env) !! storage_key other
  = localStorage env !! storage_key other.
Proof.
  intros Hne. unfold saveWeights. destruct (model self); [|reflexivity].
  cbn [localStorage]. apply lookup_insert_ne.
  intros H. apply Hne. symmetry. now apply storage_key_inj.
Qed.

Lemma run_fit_other (self0 other : Model) (env0 : Env) (m : Sequential) (c : FitCall) :
  userId other <> userId self0 ->
  match run_fit fit self0 env0 m c with
  | (Some self1, env1) =>
      localStorage (saveWeights self1 env1) !! storage_key other
      = localStorage env0 !! storage_key other
  | (None, env1) => localStorage env1 = localStorage env0
  end.
Proof.
  intros Hne. unfold run_fit. destruct (model_fit fit m c) as [fitted|]; cbn; [|reflexivity].
  unfold saveWeights. cbn [model localStorage].
  apply lookup_insert_ne. intros H. apply Hne. symmetry.
  now apply (storage_key_inj _ other) in H.
Qed.

Lemma train_other (draw : Draw) (self other : Model) (env : Env)
    (f : list num) (g : GainSettings) :
  userId other <> userId self ->
  localStorage (snd (fst (train fit draw self env f g))) !! storage_key other
  = localStorage env !! storage_key other.
Proof.
  intros Hne. unfold train.
  destruct (initialize_storage draw self env) as [Hs Hu].
  assert (E : exists self0 env0,
            (if isInitialized self then (self, env) else initialize draw self env)
            = (self0, env0) /\ localStorage env0 = localStorage env /\
            userId self0 = userId self).
  { destruct (isInitialized self); [now eexists _, _|].
    destruct (initialize draw self env) as [self0 env0]. now eexists _, _. }
  destruct E as (self0 & env0 & -> & Hs0 & Hu0).
  destruct (model self0) as [m|]; [|cbn [fst snd]; now rewrite Hs0].
  match goal with |- context [run_fit fit self0 env0 m ?c] =>
    pose proof (run_fit_other self0 other env0 m c) as R;
    destruct (run_fit fit self0 env0 m c) as [[self1|] env1] end;
    cbn [fst snd log localStorage].
  - rewrite R by congruence. now rewrite Hs0.
  - rewrite R by congruence. now rewrite Hs0.
Qed.

Lemma batchTrain_other (draw : Draw) (self other : Model) (env : Env) (songs : list Song) :
  userId other <> userId self ->
  localStorage (snd (fst (batchTrain fit draw self env songs))) !! storage_key other
  = localStorage env !! storage_key other.
Proof.
  intros Hne. unfold batchTrain.
  destruct (initialize_storage draw self env) as [Hs Hu].
  assert (E : exists self0 env0,
            (if isInitialized self then (self, env) else initialize draw self env)
            = (self0, env0) /\ localStorage env0 = localStorage env /\
            userId self0 = userId self).
  { destruct (isInitialized self); [now eexists _, _|].
    destruct (initialize draw self env) as [self0 env0]. now eexists _, _. }
  destruct E as (self0 & env0 & -> & Hs0 & Hu0).
  destruct (length (List.filter is_valid_song songs) =? 0)%nat;
    [cbn [fst snd log localStorage]; now rewrite Hs0|].
  destruct (model self0) as [m|]; [|cbn [fst snd]; now rewrite Hs0].
  match goal with |- context [run_fit fit self0 env0 m ?c] =>
    pose proof (run_fit_other self0 other env0 m c) as R;
    destruct (run_fit fit self0 env0 m c) as [[self1|] env1] end;
    cbn [fst snd log localStorage].
  - rewrite R by congruence. now rewrite Hs0.
  - rewrite R by congruence. now rewrite Hs0.
Qed.

(** X12.  The models of two users never mix: neither [train] nor
    [batchTrain] on the model of one user changes what [loadWeights] and
    [getStats] give for a model object of another user. *)
Theorem other_users_model_untouched (draw : Draw) (self other : Model) (env : Env)
    (f : list num) (g : GainSettings) (songs : list Song) :
  userId other <> userId self ->
  let env1 := snd (fst (train fit draw self env f g)) in
  let env2 := snd (fst (batchTrain fit draw self env songs)) in
  loadWeights other env1 = loadWeights other env /\
  loadWeights other env2 = loadWeights other env /\
  getStats other env1 = getStats other env /\
  getStats other env2 = getStats other env.
Proof.
  intros Hne env1 env2.
  pose proof (train_other draw self other env f g Hne) as H1.
  pose proof (batchTrain_other draw self other env songs Hne) as H2.
  fold env1 in H1. fold env2 in H2.
  unfold loadWeights, getStats. now rewrite H1, H2.
Qed.

End ModelStore.

(** ** Batch training and the life of a model object *)
Section ModelMethods.

Import AudioFeatures UserPreferenceModel.

Variable tanhQ : Q -> Q.
Variable fit : Sequential -> FitCall -> option Sequential.

Lemma omap_training_pair_length (songs : list Song) :
  length (omap training_pair (List.filter is_valid_song songs))
  = length (List.filter is_valid_song songs).
Proof.
  induction songs as [|s songs IH]; [reflexivity|]. cbn [List.filter].
  destruct (is_valid_song s) eqn:V; [|exact IH].
  unfold is_valid_song in V. destruct (training_pair s) eqn:E; [|discriminate].
  cbn [omap list_omap]. rewrite E. cbn [length]. f_equal. exact IH.
Qed.


(** X14.  Songs saved without features or without gains never train:
    when no song of the list carries both, [batchTrain] on an initialised
    model returns without calling [model.fit], leaves the model object and
    [localStorage] as they were and only logs one line. *)
Theorem batchTrain_no_valid_song (draw : Draw) (self : Model) (env : Env) (songs : list Song) :
  isInitialized self = true ->
  Forall (fun s => features s = None \/ gains s = None) songs ->
  exists msg,
    batchTrain fit draw self env songs
    = (self, {| localStorage := localStorage env;
                console := console env ++ [msg];
                fitCalls := fitCalls env |}, true).
Proof.
  intros Hi Hs. unfold batchTrain. rewrite Hi.
  assert (E : List.filter is_valid_song songs = []).
  { induction Hs as [|s songs H _ IH]; [reflexivity|]. cbn [List.filter].
    assert (V : is_valid_song s = false).
    { unfold is_valid_song, training_pair.
      destruct H as [-> | ->]; [reflexivity|]. now destruct (features s). }
    now rewrite V. }
  rewrite E. cbn [length Nat.eqb]. eexists. reflexivity.
Qed.


End ModelMethods.



(** The theorems for Alex. *)
Lemma gains_round_trip_witness :
  Forall (fun z => -24 <= z <= 12) [6; 0; -3; -24] /\
  UserPreferenceModel.gains_of_values
    (UserPreferenceModel.normalizedGains
       {| vocals := of_Z 6; drums := of_Z 0; bass := of_Z (-3); other := of_Z (-24) |})
  = {| vocals := of_Z 6; drums := of_Z 0; bass := of_Z (-3); other := of_Z (-24) |}.
Proof.
  assert (H : Forall (fun z => -24 <= z <= 12) [6; 0; -3; -24])
    by (repeat constructor; lia).
  split; [exact H|].
  apply (proj2 (gains_round_trip 6 0 (-3) (-24))). exact H.
Defined.


Lemma other_users_model_untouched_witness :
  UserPreferenceModel.userId (UserPreferenceModel.constructor "Sam")
  <> UserPreferenceModel.userId Scenario.alex_model /\
  UserPreferenceModel.loadWeights (UserPreferenceModel.constructor "Sam")
    (snd (fst (UserPreferenceModel.train Scenario.nudge Scenario.draw0 Scenario.alex_model
                 Scenario.env0 (repeat (Fin (1 # 2)) 23)
                 {| vocals := of_Z 6; drums := of_Z 0; bass := of_Z 0; other := of_Z 0 |})))
  = UserPreferenceModel.loadWeights (UserPreferenceModel.constructor "Sam") Scenario.env0.
Proof.
  assert (H : UserPreferenceModel.userId (UserPreferenceModel.constructor "Sam")
              <> UserPreferenceModel.userId Scenario.alex_model) by discriminate.
  split; [exact H|].
  apply (other_users_model_untouched Scenario.nudge Scenario.draw0 Scenario.alex_model
           (UserPreferenceModel.constructor "Sam") Scenario.env0
           (repeat (Fin (1 # 2)) 23)
           {| vocals := of_Z 6; drums := of_Z 0; bass := of_Z 0; other := of_Z 0 |}
           [Scenario.alex_mix] H).
Defined.


Lemma batchTrain_no_valid_song_witness :
  UserPreferenceModel.isInitialized Scenario.alex_model = true /\
  exists msg,
    UserPreferenceModel.batchTrain Scenario.nudge Scenario.draw0 Scenario.alex_model
      Scenario.env0 [Scenario.old_song]
    = (Scenario.alex_model,
       {| UserPreferenceModel.localStorage := ∅;
          UserPreferenceModel.console := [msg];
          UserPreferenceModel.fitCalls := [] |}, true).
Proof.
  split; [reflexivity|].
  apply (batchTrain_no_valid_song Scenario.nudge Scenario.draw0 Scenario.alex_model
           Scenario.env0 [Scenario.old_song]); [reflexivity|].
  repeat constructor.
Defined.


(** ** The song list: deleting a song, undoing a save *)
Section SongList.

Import UserPreferenceModel App.

Variable fit : Sequential -> FitCall -> option Sequential.

Lemma filter_index_above (i a : nat) (l : list Song) :
  (i < a)%nat ->
  map snd (List.filter (fun p => negb (fst p =? i)%nat) (combine (seq a (length l)) l)) = l.
Proof.
  revert a. induction l as [|x l IH]; intros a Ha; [reflexivity|].
  cbn [length seq combine List.filter fst].
  destruct (Nat.eqb_spec a i); [lia|]. cbn [negb map snd].
  f_equal. apply IH. lia.
Qed.

Lemma filter_index_from (i a : nat) (l : list Song) :
  (a <= i)%nat ->
  map snd (List.filter (fun p => negb (fst p =? i)%nat) (combine (seq a (length l)) l))
  = take (i - a) l ++ drop (S (i - a)) l.
Proof.
  revert a. induction l as [|x l IH]; intros a Ha.
  - now rewrite take_nil, drop_nil.
  - cbn [length seq combine List.filter fst].
    destruct (Nat.eqb_spec a i) as [->|Hne]; cbn [negb].
    + rewrite Nat.sub_diag. cbn [take drop app]. rewrite drop_0.
      apply filter_index_above. lia.
    + cbn [map snd]. rewrite (IH (S a)) by lia.
      replace (i - a)%nat with (S (i - S a)) by lia. reflexivity.
Qed.

(** [filter((_, idx) => idx !== songIndex)] drops the entry at [songIndex]
    and keeps the others in order. *)
Lemma remove_index_spec (i : nat) (l : list Song) :
  remove_index i l = take i l ++ drop (S i) l.
Proof. unfold remove_index. rewrite filter_index_from by lia. now rewrite Nat.sub_0_r. Qed.

Lemma handleDeleteSong_songs (draw : Draw) (st : State) (u : string) (l : list Song)
    (i : nat) :
  selected_user st = Some u ->
  songs_of (songsByUser st) u = Some l ->
  exists st',
    handleDeleteSong fit draw st i = Rendered st' /\
    songsByUser st' = <[u := remove_index i l]> (songsByUser st) /\
    user st' = user st /\ tab st' = tab st /\ alerts st' = alerts st.
Proof.
  intros Hu Hl. unfold handleDeleteSong. rewrite Hu, Hl. cbv zeta.
  destruct (userModelRef st) as [m|]; [|eexists; now repeat split].
  destruct (isInitialized m); [|eexists; now repeat split].
  destruct (0 <? _)%nat; [|eexists; now repeat split].
  destruct (batchTrain _ _ _ _ _) as [[m' e'] b]. eexists; now repeat split.
Qed.

Lemma handleDeleteSong_list (draw : Draw) (st : State) (u : string) (l : list Song)
    (i : nat) :
  selected_user st = Some u ->
  songs_of (songsByUser st) u = Some l ->
  exists st',
    handleDeleteSong fit draw st i = Rendered st' /\
    songsByUser st' !! u = Some (take i l ++ drop (S i) l) /\
    (forall u', u' <> u -> songsByUser st' !! u' = songsByUser st !! u') /\
    tab st' = tab st /\ alerts st' = alerts st.
Proof.
  intros Hu Hl.
  destruct (handleDeleteSong_songs draw st u l i Hu Hl) as (st' & E & Hs & _ & Ht & Ha).
  exists st'. split; [exact E|]. rewrite remove_index_spec in Hs.
  split; [rewrite Hs; apply lookup_insert_eq|]. split; [|now split].
  intros u' Hne. rewrite Hs. now apply lookup_insert_ne.
Qed.

(** X17.  [handleDeleteSong] removes exactly the song at the given index
    from the list of the selected user and keeps the others in order; an
    index past the end removes nothing; the lists of the other users, the
    tab and the alerts are untouched.  This holds for a user who has a
    list, and for a user without one whose name no object inherits (the
    list is then empty); for a profile named like a member of
    [Object.prototype] and without a list, [userSongs.filter] is not a
    function and the updater throws. *)
Theorem handleDeleteSong_removes_indexed (draw : Draw) (st : State) (u : string) (i : nat) :
  selected_user st = Some u ->
  (forall l, songs_of (songsByUser st) u = Some l ->
     exists st',
       handleDeleteSong fit draw st i = Rendered st' /\
       songsByUser st' !! u = Some (take i l ++ drop (S i) l) /\
       ((length l <= i)%nat -> songsByUser st' !! u = Some l) /\
       ((i < length l)%nat ->
        length (default [] (songsByUser st' !! u)) = (length l - 1)%nat) /\
       (forall u', u' <> u -> songsByUser st' !! u' = songsByUser st !! u') /\
       tab st' = tab st /\ alerts st' = alerts st) /\
  (u ∈ inherited -> songsByUser st !! u = None ->
   handleDeleteSong fit draw st i = Thrown (env st)).
Proof.
  intros Hu. split.
  - intros l Hl.
    destruct (handleDeleteSong_list draw st u l i Hu Hl) as (st' & R & E & O & Ht & Ha).
    exists st'. split; [exact R|].
    split; [exact E|]. split; [|split; [|split; [|split]]]; trivial.
    + intros Hi. rewrite E, take_ge, drop_ge by lia. now rewrite app_nil_r.
    + intros Hi. rewrite E. cbn [default]. unfold id.
      rewrite length_app, length_take, length_drop. lia.
  - intros Hin Hnone. unfold handleDeleteSong, songs_of. rewrite Hu, Hnone.
    now rewrite bool_decide_eq_true_2.
Qed.

Lemma omap_training_pair_filter (songs : list Song) :
  omap training_pair (List.filter is_valid_song songs) = omap training_pair songs.
Proof.
  induction songs as [|s songs IH]; [reflexivity|]. cbn [List.filter omap list_omap].
  unfold is_valid_song at 1. destruct (training_pair s) eqn:E.
  - cbn [omap list_omap]. rewrite E. f_equal. exact IH.
  - exact IH.
Qed.

(** X18.  After a deletion the model is retrained on the songs that
    remain: when the model of the selected user is initialised and at
    least one remaining song carries features and gains, [model.fit] is
    called exactly once, for 10 epochs, on the features and the normalised
    gains of exactly those remaining songs, in their order; the model is
    then the fitted one, or the one before when the call throws. *)
Theorem handleDeleteSong_retrains_on_rest (draw : Draw) (st : State) (u : string)
    (m : Model) (s : Sequential) (i : nat) :
  selected_user st = Some u ->
  userModelRef st = Some m -> isInitialized m = true -> model m = Some s ->
  let l := default [] (songsByUser st !! u) in
  let rest := take i l ++ drop (S i) l in
  let examples := omap training_pair rest in
  examples <> [] ->
  exists st' call,
    handleDeleteSong fit draw st i = Rendered st' /\
    fitCalls (env st') = fitCalls (env st) ++ [call] /\
    fit_inputs call = map fst examples /\
    fit_targets call = map (fun p => normalizedGains (snd p)) examples /\
    fit_epochs call = 10%nat /\
    (exists m', userModelRef st' = Some m' /\
                model m' = Some (default s (model_fit fit s call))).
Proof.
  intros Hu Hr Hi Hm l rest examples Hex.
  assert (Hl : songs_of (songsByUser st) u = Some l).
  { subst examples rest l. unfold songs_of.
    destruct (songsByUser st !! u) as [l0|]; [reflexivity|].
    exfalso. apply Hex. change (default [] None) with (@nil Song).
    now rewrite take_nil, drop_nil. }
  unfold handleDeleteSong. rewrite Hu, Hl, Hr, Hi. cbv zeta.
  rewrite remove_index_spec. fold rest.
  assert (Hv : (0 < length (List.filter is_valid_song rest))%nat).
  { rewrite <- (omap_training_pair_length rest), omap_training_pair_filter.
    fold examples. destruct examples; [congruence | simpl; lia]. }
  assert (Hrest : (0 <? length rest)%nat = true).
  { apply Nat.ltb_lt. pose proof (List.filter_length_le is_valid_song rest). lia. }
  rewrite Hrest. unfold batchTrain. rewrite Hi, Hm.
  destruct (Nat.eqb_spec (length (List.filter is_valid_song rest)) 0); [lia|].
  rewrite omap_training_pair_filter. fold examples. unfold run_fit.
  destruct (model_fit fit s _) as [fitted|] eqn:F;
    cbn [fmap option_fmap option_map saveWeights model env userModelRef log fitCalls];
    eexists _, _; (split; [reflexivity|]);
    cbn [env userModelRef fitCalls fit_inputs fit_targets fit_epochs log];
    repeat split; eauto;
    eexists; (split; [reflexivity|]); cbn [model]; rewrite F; (reflexivity || exact Hm).
Qed.

(** X19.  Deleting the song that a save has just appended restores the
    song list: after an accepted save, [handleDeleteSong] at the index of
    the new song gives the selected user the list held before, and leaves
    the lists of the other users as they were (for a user who has a list or
    whose name no object inherits). *)
Theorem save_then_delete_restores (draw : Draw) (st : State) (u : string)
    (l : list Song) (mix : Song) :
  selected_user st = Some u ->
  songs_of (songsByUser st) u = Some l ->
  existsb (same_song mix) l = false ->
  exists st1 st2,
    handleSaveMix fit draw st mix = Rendered st1 /\
    handleDeleteSong fit draw st1 (length l) = Rendered st2 /\
    songsByUser st1 !! u = Some (l ++ [mix]) /\
    songsByUser st2 !! u = Some l /\
    (forall u', u' <> u -> songsByUser st2 !! u' = songsByUser st !! u').
Proof.
  intros Hu Hl Hnew.
  assert (Hs : save_updater u mix (songsByUser st) = Some (<[u := l ++ [mix]]> (songsByUser st)))
    by (unfold save_updater; now rewrite Hl, Hnew).
  destruct (handleSaveMix_songs fit draw st u mix _ Hu Hs) as (st1 & E1 & S1 & U1 & _).
  assert (L1 : songsByUser st1 !! u = Some (l ++ [mix]))
    by (rewrite S1; apply lookup_insert_eq).
  assert (Hu1 : selected_user st1 = Some u)
    by (rewrite (selected_user_eq _ _ U1); exact Hu).
  destruct (handleDeleteSong_list draw st1 u (l ++ [mix]) (length l) Hu1
              (songs_of_own _ _ _ L1)) as (st2 & E2 & D & O & _).
  exists st1, st2. split; [exact E1|]. split; [exact E2|]. split; [exact L1|]. split.
  - rewrite D. f_equal.
    rewrite take_app_length, drop_ge by (rewrite length_app; simpl; lia).
    apply app_nil_r.
  - intros u' Hne. rewrite (O u' Hne), S1. now apply lookup_insert_ne.
Qed.

End SongList.

(** The theorems for Alex. *)
Lemma handleDeleteSong_removes_indexed_witness :
  App.selected_user Scenario.alex_two_songs = Some "Alex"%string /\
  exists st',
    App.handleDeleteSong Scenario.nudge Scenario.draw0 Scenario.alex_two_songs 0
    = App.Rendered st' /\
    App.songsByUser st' !! "Alex"%string = Some [Scenario.old_song].
Proof.
  split; [reflexivity|].
  destruct (proj1 (handleDeleteSong_removes_indexed Scenario.nudge Scenario.draw0
                     Scenario.alex_two_songs "Alex" 0 eq_refl)
              [Scenario.alex_mix; Scenario.old_song] eq_refl)
    as (st' & H1 & H2 & _).
  exists st'. split; [exact H1 | exact H2].
Defined.

Lemma handleDeleteSong_retrains_on_rest_witness :
  App.selected_user Scenario.alex_two_songs = Some "Alex"%string /\
  exists st' call,
    App.handleDeleteSong Scenario.nudge Scenario.draw0 Scenario.alex_two_songs 1
    = App.Rendered st' /\
    UserPreferenceModel.fitCalls (App.env st') = [call] /\
    UserPreferenceModel.fit_inputs call = [repeat (Fin (1 # 2)) 23].
Proof.
  split; [reflexivity|].
  destruct (handleDeleteSong_retrains_on_rest Scenario.nudge Scenario.draw0
              Scenario.alex_two_songs "Alex" Scenario.alex_model
              (UserPreferenceModel.createModel Scenario.draw0) 1)
    as (st' & call & H0 & H1 & H2 & _); try reflexivity; [discriminate|].
  exists st', call. split; [exact H0|]. split; [exact H1 | exact H2].
Defined.

Lemma save_then_delete_restores_witness :
  App.selected_user Scenario.alex_state = Some "Alex"%string /\
  exists st1 st2,
    App.handleSaveMix Scenario.nudge Scenario.draw0 Scenario.alex_state Scenario.old_song
    = App.Rendered st1 /\
    App.handleDeleteSong Scenario.nudge Scenario.draw0 st1 1 = App.Rendered st2 /\
    App.songsByUser st2 !! "Alex"%string = Some [Scenario.alex_mix].
Proof.
  split; [reflexivity|].
  destruct (save_then_delete_restores Scenario.nudge Scenario.draw0
              Scenario.alex_state "Alex" [Scenario.alex_mix] Scenario.old_song
              eq_refl eq_refl eq_refl)
    as (st1 & st2 & H1 & H2 & _ & H3 & _).
  exists st1, st2. split; [exact H1|]. split; [exact H2 | exact H3].
Defined.

(** ** The list of profiles *)
Section Profiles.

Import Landing.

Variable trim : string -> string.

Lemma handleAddUser_step (answer : option string) (st : State) :
  NoDup (users st) ->
  NoDup (users (handleAddUser trim answer st)) /\
  users st `prefix_of` users (handleAddUser trim answer st) /\
  (forall u, u ∈ users (handleAddUser trim answer st) -> u ∈ users st \/ u <> "").
Proof.
  intros Hnd. unfold handleAddUser. destruct answer as [name|]; [|now auto].
  destruct (bool_decide (name <> "") && bool_decide (trim name <> "")) eqn:E; [|now auto].
  apply andb_prop in E as [_ Ht]. apply bool_decide_eq_true_1 in Ht.
  destruct (bool_decide (trim name ∈ users st)) eqn:I; cbn [negb users]; [now auto|].
  apply bool_decide_eq_false_1 in I. split; [|split].
  - apply NoDup_app. split; [exact Hnd|]. split; [|apply NoDup_singleton].
    intros x Hx Hx'. apply list_elem_of_singleton in Hx'. now subst x.
  - now apply prefix_app_r.
  - intros u Hu. apply elem_of_app in Hu as [Hu|Hu]; [now left|].
    apply list_elem_of_singleton in Hu. subst u. now right.
Qed.

(** X20.  Profile names stay distinct: whatever is answered to the
    prompts of [handleAddUser], and whatever [trim] does, a list of users
    without duplicates stays without duplicates, the users already there
    stay where they are, and no added name is empty. *)
Theorem handleAddUser_keeps_users_distinct (answers : list (option string)) (st : State) :
  NoDup (users st) ->
  let st' := addUsers trim answers st in
  NoDup (users st') /\
  users st `prefix_of` users st' /\
  (forall u, u ∈ users st' -> u ∈ users st \/ u <> "").
Proof.
  revert st. induction answers as [|a answers IH]; intros st Hnd; cbn [addUsers fold_left].
  - split; [exact Hnd|]. split; [reflexivity | auto].
  - destruct (handleAddUser_step a st Hnd) as (N1 & P1 & E1).
    destruct (IH _ N1) as (N2 & P2 & E2). split; [exact N2|]. split.
    + now transitivity (users (handleAddUser trim a st)).
    + intros u Hu. destruct (E2 u Hu) as [H|H]; [apply E1, H | now right].
Qed.

(** A name that is already in the list is refused with an alert, and a
    cancelled or blank answer changes nothing. *)
Lemma handleAddUser_refusals (st : State) (name : string) :
  handleAddUser trim None st = st /\
  (trim name = "" -> handleAddUser trim (Some name) st = st) /\
  (trim name <> "" -> name <> "" -> trim name ∈ users st ->
   handleAddUser trim (Some name) st
   = {| users := users st; alerts := alerts st ++ ["User already exists!"%string] |}).
Proof.
  split; [reflexivity|]. unfold handleAddUser. split.
  - intros E. rewrite (bool_decide_eq_false_2 (trim name <> "")) by tauto.
    now rewrite andb_false_r.
  - intros Ht Hn Hin. rewrite !bool_decide_eq_true_2 by assumption. reflexivity.
Qed.

End Profiles.

(** The theorem for the default users and three prompts: a new name with
    spaces before it, the same name again, and a cancelled prompt. *)
Lemma handleAddUser_keeps_users_distinct_witness :
  NoDup Landing.defaultUsers /\
  Landing.users
    (Landing.addUsers Scenario.trim_left [Some "  Robin"%string; Some "Robin"%string; None]
       {| Landing.users := Landing.defaultUsers; Landing.alerts := [] |})
  = ["Alex"; "Sam"; "Jamie"; "Robin"]%string /\
  NoDup
    (Landing.users
       (Landing.addUsers Scenario.trim_left [Some "  Robin"%string; Some "Robin"%string; None]
          {| Landing.users := Landing.defaultUsers; Landing.alerts := [] |})).
Proof.
  assert (H : NoDup Landing.defaultUsers).
  { apply (bool_decide_unpack _). vm_compute. exact I. }
  split; [exact H|]. split; [reflexivity|].
  refine (proj1 (handleAddUser_keeps_users_distinct Scenario.trim_left
                   [Some "  Robin"%string; Some "Robin"%string; None]
                   {| Landing.users := Landing.defaultUsers; Landing.alerts := [] |} _)).
  exact H.
Defined.

(** ** The saved song *)
Section SavedSong.

Import AudioFeatures SaveMix.
Import Stdlib.Strings.Ascii.

Variable toString : num -> string.

Lemma append_String (c : ascii) (s t : string) : String c s +:+ t = String c (s +:+ t).
Proof. reflexivity. Qed.

Lemma append_empty (t : string) : "" +:+ t = t.
Proof. reflexivity. Qed.

Lemma no_dot_or_slash_dot (base ext : string) :
  no_dot_or_slash (base +:+ String "." ext) = false.
Proof.
  induction base as [|c base IH].
  - reflexivity.
  - rewrite append_String. cbn [no_dot_or_slash]. rewrite IH. apply andb_false_r.
Qed.

Lemma strip_extension_last (base ext : string) :
  is_extension ext = true -> strip_extension (base +:+ String "." ext) = base.
Proof.
  intros He. induction base as [|c base IH].
  - rewrite append_empty. cbn [strip_extension]. now rewrite He.
  - rewrite append_String. cbn [strip_extension]. rewrite IH.
    unfold is_extension at 1. rewrite no_dot_or_slash_dot.
    now rewrite !andb_false_r.
Qed.

(** X21.  The title of a saved mix is the name of the file without its
    last extension: for a file named [base.ext], with [ext] not empty and
    free of dots and slashes, [handleSave] passes a song titled [base],
    whatever [base] contains; the song carries the gains of the sliders
    and, when features were extracted, a feature vector of the input size
    of the model. *)
Theorem handleSave_song (base ext : string) (g : GainSettings)
    (audioFeatures : option Features) :
  is_extension ext = true ->
  exists song,
    handleSave toString (Some (base +:+ "." +:+ ext)) g audioFeatures = Some song /\
    title song = base /\
    artist song = "Custom Mix"%string /\
    gains song = Some g /\
    match audioFeatures with
    | Some _ => exists v, features song = Some v /\ length v = UserPreferenceModel.inputSize
    | None => features song = None
    end.
Proof.
  intros He. unfold handleSave. eexists. split; [reflexivity|].
  cbn [title artist gains features].
  split; [now apply strip_extension_last|]. split; [reflexivity|]. split; [reflexivity|].
  destruct audioFeatures as [f|]; [|reflexivity].
  eexists. split; [reflexivity|]. apply featuresToVector_parts.
Qed.

End SavedSong.

(** The theorem for "my.song.mp3". *)
Lemma handleSave_song_witness :
  SaveMix.is_extension "mp3" = true /\
  exists song,
    SaveMix.handleSave Scenario.render_number (Some "my.song.mp3"%string)
      {| vocals := of_Z 6; drums := of_Z 0; bass := of_Z (-3); other := of_Z 0 |} None
    = Some song /\
    title song = "my.song"%string.
Proof.
  split; [reflexivity|].
  destruct (handleSave_song Scenario.render_number "my.song" "mp3"
              {| vocals := of_Z 6; drums := of_Z 0; bass := of_Z (-3); other := of_Z 0 |}
              None)
    as (song & H1 & H2 & _); [reflexivity|].
  exists song. split; [exact H1 | exact H2].
Defined.

(** ** The summary of the gains tells the mixes apart *)
Section Details.

Import AudioFeatures SaveMix.
Import Stdlib.Strings.Ascii.

Variable toString : num -> string.

(** on the integers that the sliders can hold, a template literal prints
    the decimal digits *)
Hypothesis toString_integer :
  forall z : Z, -24 <= z <= 12 -> toString (of_Z z) = pretty z.

Lemma append_assoc (a b c : string) : (a +:+ b) +:+ c = a +:+ (b +:+ c).
Proof.
  induction a as [|x a IH]; [reflexivity|].
  rewrite !append_String. now rewrite IH.
Qed.

Lemma lacks_append (c : ascii) (a b : string) :
  lacks c (a +:+ b) = lacks c a && lacks c b.
Proof.
  induction a as [|x a IH]; [reflexivity|].
  rewrite append_String. cbn [lacks]. rewrite IH. apply andb_assoc.
Qed.

(** Two strings cut at the first occurrence of [c] agree part by part. *)
Lemma split_at (c : ascii) (s1 s2 r1 r2 : string) :
  lacks c s1 = true -> lacks c s2 = true ->
  s1 +:+ String c r1 = s2 +:+ String c r2 -> s1 = s2 /\ r1 = r2.
Proof.
  revert s2. induction s1 as [|a s1 IH]; intros [|b s2] H1 H2 E.
  - rewrite !append_empty in E. injection E as ->. now split.
  - rewrite append_empty, append_String in E. injection E as <- _.
    cbn [lacks] in H2. now rewrite Ascii.eqb_refl in H2.
  - rewrite append_empty, append_String in E. injection E as -> _.
    cbn [lacks] in H1. now rewrite Ascii.eqb_refl in H1.
  - rewrite !append_String in E. injection E as -> E.
    cbn [lacks] in H1, H2. apply andb_prop in H1 as [_ H1]. apply andb_prop in H2 as [_ H2].
    destruct (IH s2 H1 H2 E) as [-> ->]. now split.
Qed.

Lemma lacks_pretty_N_char (c : ascii) (x : N) :
  c = ","%char \/ c = " "%char -> Ascii.eqb (pretty_N_char x) c = false.
Proof.
  intros [-> | ->]; unfold pretty_N_char; repeat case_match; reflexivity.
Qed.

Lemma lacks_pretty_N_go (c : ascii) (x : N) (s : string) :
  c = ","%char \/ c = " "%char -> lacks c s = true -> lacks c (pretty_N_go x s) = true.
Proof.
  intros Hc. revert s. induction (N.lt_wf_0 x) as [x _ IH]; intros s Hs.
  assert (x = 0 \/ 0 < x)%N as [->|Hx] by lia.
  - now rewrite pretty_N_go_0.
  - rewrite pretty_N_go_step by exact Hx. apply IH.
    + now apply N.div_lt.
    + cbn [lacks]. now rewrite lacks_pretty_N_char, Hs.
Qed.

Lemma lacks_pretty_Z (c : ascii) (z : Z) :
  c = ","%char \/ c = " "%char -> lacks c (pretty z) = true.
Proof.
  intros Hc.
  assert (P : forall p : positive, lacks c (pretty p) = true).
  { intros p. unfold pretty, pretty_positive, pretty, pretty_N.
    destruct (decide (N.pos p = 0%N)); [discriminate|].
    now apply lacks_pretty_N_go. }
  destruct z as [|p|p]; unfold pretty, pretty_Z.
  - destruct Hc as [-> | ->]; reflexivity.
  - apply P.
  - change ("-" +:+ pretty p) with (String "-" (pretty p)). cbn [lacks].
    rewrite P. destruct Hc as [-> | ->]; reflexivity.
Qed.

Lemma gtb_of_Z (z : Z) : gtb (of_Z z) (of_Z 0) = (0 <? z)%Z.
Proof.
  unfold gtb. rewrite cmp_of_Z. destruct (Z.compare_spec z 0), (Z.ltb_spec 0 z); trivial; lia.
Qed.

(** [fmt] on such an integer: a sign for the positive ones, the digits,
    [" dB"] *)
Lemma fmt_integer (z : Z) :
  -24 <= z <= 12 ->
  fmt toString (of_Z z) = (if (0 <? z)%Z then "+" else "") +:+ pretty z +:+ " dB".
Proof.
  intros Hz. unfold fmt. rewrite gtb_of_Z, toString_integer by exact Hz.
  destruct (0 <? z)%Z; [|reflexivity]. now rewrite append_assoc.
Qed.

Lemma fmt_integer_lacks_comma (z : Z) :
  -24 <= z <= 12 -> lacks "," (fmt toString (of_Z z)) = true.
Proof.
  intros Hz. rewrite fmt_integer, !lacks_append, lacks_pretty_Z by (trivial; now left).
  now destruct (0 <? z)%Z.
Qed.

Lemma fmt_integer_inj (z z' : Z) :
  -24 <= z <= 12 -> -24 <= z' <= 12 ->
  fmt toString (of_Z z) = fmt toString (of_Z z') -> z = z'.
Proof.
  intros Hr Hr'. rewrite !fmt_integer by assumption. intros E.
  assert (S : forall a b : Z, pretty a +:+ " dB" = pretty b +:+ " dB" -> a = b).
  { intros a b H. change " dB" with (String " " "dB") in H.
    apply split_at in H as [H _]; try (apply lacks_pretty_Z; now right).
    now apply (inj pretty). }
  destruct (Z.ltb_spec 0 z) as [Hz|Hz], (Z.ltb_spec 0 z') as [Hz'|Hz'].
  - rewrite !append_String, !append_empty in E. injection E as E. now apply S.
  - exfalso. rewrite append_String, !append_empty in E.
    destruct z' as [|p|p]; try lia; unfold pretty at 2, pretty_Z in E.
    + discriminate E.
    + change ("-" +:+ pretty p) with (String "-" (pretty p)) in E.
      rewrite append_String in E. discriminate E.
  - exfalso. rewrite append_String, !append_empty in E.
    destruct z as [|p|p]; try lia; unfold pretty at 1, pretty_Z in E.
    + discriminate E.
    + change ("-" +:+ pretty p) with (String "-" (pretty p)) in E.
      rewrite append_String in E. discriminate E.
  - rewrite !append_empty in E. now apply S.
Qed.

Ltac normalise_append H :=
  repeat rewrite append_assoc in H;
  repeat rewrite append_String in H;
  repeat rewrite append_empty in H.

Ltac peel H :=
  repeat match type of H with String _ _ = String _ _ => injection H as H end.

Lemma details_of_integer_inj (v d b o v' d' b' o' : Z) :
  Forall (fun z => -24 <= z <= 12) [v; d; b; o; v'; d'; b'; o'] ->
  details_of toString
    {| vocals := of_Z v; drums := of_Z d; bass := of_Z b; other := of_Z o |}
  = details_of toString
      {| vocals := of_Z v'; drums := of_Z d'; bass := of_Z b'; other := of_Z o' |} ->
  v = v' /\ d = d' /\ b = b' /\ o = o'.
Proof.
  intros R.
  apply Forall_cons in R as [Rv R]. apply Forall_cons in R as [Rd R].
  apply Forall_cons in R as [Rb R]. apply Forall_cons in R as [Ro R].
  apply Forall_cons in R as [Rv' R]. apply Forall_cons in R as [Rd' R].
  apply Forall_cons in R as [Rb' R]. apply Forall_cons in R as [Ro' _].
  unfold details_of, channels.
  cbn [map fst snd Mixer.get_gain vocals drums bass other String.concat].
  pose proof (fmt_integer_lacks_comma v Rv). pose proof (fmt_integer_lacks_comma v' Rv').
  pose proof (fmt_integer_lacks_comma d Rd). pose proof (fmt_integer_lacks_comma d' Rd').
  pose proof (fmt_integer_lacks_comma b Rb). pose proof (fmt_integer_lacks_comma b' Rb').
  pose proof (fmt_integer_inj v v' Rv Rv') as Iv. pose proof (fmt_integer_inj d d' Rd Rd') as Id.
  pose proof (fmt_integer_inj b b' Rb Rb') as Ib. pose proof (fmt_integer_inj o o' Ro Ro') as Io.
  set (V := fmt toString (of_Z v)) in *. set (V' := fmt toString (of_Z v')) in *.
  set (D := fmt toString (of_Z d)) in *. set (D' := fmt toString (of_Z d')) in *.
  set (B := fmt toString (of_Z b)) in *. set (B' := fmt toString (of_Z b')) in *.
  set (O := fmt toString (of_Z o)) in *. set (O' := fmt toString (of_Z o')) in *.
  intros E. normalise_append E. peel E.
  apply split_at in E as [EV E]; try assumption. peel E.
  apply split_at in E as [ED E]; try assumption. peel E.
  apply split_at in E as [EB E]; try assumption. peel E.
  auto.
Qed.

(** X22.  Two songs passed by [handleSave] with gains that the sliders can
    hold count as the same song for the duplicate check of [handleSaveMix]
    exactly when their titles agree and all four gains agree: a mix of the
    same file with another setting of the sliders is never taken for a
    duplicate. *)
Theorem same_song_iff_same_title_and_gains (name name' : string)
    (v d b o v' d' b' o' : Z) (audioFeatures audioFeatures' : option Features) :
  Forall (fun z => -24 <= z <= 12) [v; d; b; o; v'; d'; b'; o'] ->
  let g := {| vocals := of_Z v; drums := of_Z d; bass := of_Z b; other := of_Z o |} in
  let g' := {| vocals := of_Z v'; drums := of_Z d'; bass := of_Z b'; other := of_Z o' |} in
  exists song song',
    handleSave toString (Some name) g audioFeatures = Some song /\
    handleSave toString (Some name') g' audioFeatures' = Some song' /\
    (App.same_song song song' = true <->
     strip_extension name = strip_extension name' /\ (v, d, b, o) = (v', d', b', o')).
Proof.
  intros R. cbv zeta. unfold handleSave.
  eexists _, _. split; [reflexivity|]. split; [reflexivity|].
  unfold App.same_song. cbn [title details]. rewrite andb_true_iff, !bool_decide_eq_true.
  split.
  - intros [Ht Hd]. split; [now symmetry|].
    symmetry in Hd. apply details_of_integer_inj in Hd as (-> & -> & -> & ->); trivial.
  - intros [Ht [= -> -> -> ->]]. now split.
Qed.

End Details.

(** The theorem for "track.mp3" and "track.wav", vocals at +6 and at +5. *)
Lemma same_song_iff_same_title_and_gains_witness :
  (forall z : Z, -24 <= z <= 12 -> Scenario.render_number (of_Z z) = pretty z) /\
  Forall (fun z => -24 <= z <= 12) [6; 0; 0; 0; 5; 0; 0; 0] /\
  exists song song',
    SaveMix.handleSave Scenario.render_number (Some "track.mp3"%string)
      {| vocals := of_Z 6; drums := of_Z 0; bass := of_Z 0; other := of_Z 0 |} None
    = Some song /\
    SaveMix.handleSave Scenario.render_number (Some "track.wav"%string)
      {| vocals := of_Z 5; drums := of_Z 0; bass := of_Z 0; other := of_Z 0 |} None
    = Some song' /\
    (App.same_song song song' = true <->
     SaveMix.strip_extension "track.mp3" = SaveMix.strip_extension "track.wav" /\
     (6, 0, 0, 0) = (5, 0, 0, 0)).
Proof.
  assert (R : Forall (fun z => -24 <= z <= 12) [6; 0; 0; 0; 5; 0; 0; 0])
    by (repeat constructor; lia).
  split; [intros z _; reflexivity|]. split; [exact R|].
  apply (same_song_iff_same_title_and_gains Scenario.render_number (fun z _ => eq_refl)
           "track.mp3" "track.wav" 6 0 0 0 5 0 0 0 None None R).
Defined.

(** ** Play Mix that fails, polls that go on, uploads *)
Section Responses.

Import Mixer.

(** X24.  When "Play Mix" fails.  A render request that is not answered,
    or is answered with an error status, with a body that is not JSON or
    without a path, alerts once, logs once, and leaves the audio elements,
    the live reference and the timers as they were.  When [audio.play()]
    is rejected, the [catch] alerts and logs once; when the element fires
    [error], its [onerror] handler alerts and logs as well (the handler of
    the new element of a live update only logs).  Both clear the playing
    and paused flags.  So when the mix cannot be loaded and the browser
    reports it both ways, the user is alerted twice. *)
Theorem playMix_failure (st : State) (i : nat) (r : Response) (a : nat) :
  (awaiting st !! i = Some KPlay -> render_failed r = true ->
   let st' := step st (Responded i r) in
   alerts st' = alerts st ++ ["Error playing mix"%string] /\
   console st' = console st ++ ["Mix playback error:"%string] /\
   playing st' = false /\ paused st' = false /\
   audios st' = audios st /\ audioRef st' = audioRef st /\
   timers st' = timers st /\ requests st' = requests st) /\
  (existsb (Nat.eqb a) (starting st) = true ->
   let st' := step st (PlaySettled a false) in
   alerts st' = alerts st ++ ["Error playing mix"%string] /\
   console st' = console st ++ ["Mix playback error:"%string] /\
   playing st' = false /\ paused st' = false /\
   audios st' = audios st /\ audioRef st' = audioRef st) /\
  (is_Some (audios st !! a) ->
   let st' := step st (Errored a) in
   console st' = console st ++ ["Audio playback error:"%string] /\
   alerts st'
   = alerts st ++ (if bool_decide (is_Some (handovers st !! a)) then []
                   else [error_alert]) /\
   playing st' = false /\ paused st' = false /\
   audios st' = audios st /\ audioRef st' = audioRef st /\ timers st' = timers st) /\
  (existsb (Nat.eqb a) (starting st) = true ->
   is_Some (audios st !! a) -> handovers st !! a = None ->
   forall es, es = [Errored a; PlaySettled a false] \/ es = [PlaySettled a false; Errored a] ->
   length (alerts (run st es)) = (length (alerts st) + 2)%nat /\
   length (console (run st es)) = (length (console st) + 2)%nat /\
   playing (run st es) = false /\ paused (run st es) = false).
Proof.
  split; [|split; [|split]].
  - intros Hi Hr st'. unfold st'. cbn [step]. rewrite Hi. unfold playMix_response.
    destruct r as [| status | | data]; try (cbn; repeat split; reflexivity).
    cbn [render_failed] in Hr. destruct (usable_path data); [discriminate|].
    cbn; repeat split; reflexivity.
  - intros Hs st'. unfold st'. cbn [step]. rewrite Hs. cbn. repeat split; reflexivity.
  - intros [x Hx] st'. unfold st'. cbn [step]. unfold onerror. rewrite Hx.
    cbn [console_error handovers set_console].
    destruct (bool_decide (is_Some (handovers st !! a))); cbn;
      rewrite ?app_nil_r; repeat split; reflexivity.
  - intros Hs [x Hx] Hh es Hes.
    assert (F : is_Some (@None Handover) -> False) by (intros [? H]; discriminate H).
    destruct Hes as [-> | ->]; unfold run; cbn [fold_left step].
    + assert (E : onerror a st
                  = set_paused false
                      (set_playing false
                         (alert error_alert (console_error "Audio playback error:" st)))).
      { unfold onerror. rewrite Hx. cbn [console_error handovers set_console].
        rewrite Hh. now rewrite (bool_decide_eq_false_2 _ F). }
      rewrite E.
      cbn [starting alert console_error set_alerts set_console set_playing set_paused].
      rewrite Hs. cbn. rewrite !length_app. cbn. repeat split; lia.
    + rewrite Hs. unfold onerror.
      cbn [playMix_played playMix_failed audios handovers set_paused set_playing alert
           console_error set_alerts set_console set_starting].
      rewrite Hx, Hh. rewrite (bool_decide_eq_false_2 _ F).
      cbn. rewrite !length_app. cbn. repeat split; lia.
Qed.

(** X25.  A status other than a terminal one keeps the polling going: when
    the status is not ["error"], and is not ["completed"] or comes with a
    progress that is missing or at most 0.99, the handler only stores the
    percentage; the interval, its reference, the separating flag, the
    alerts and the console stay as they were.  In particular
    ["completed"] alone does not stop the polling. *)
Theorem poll_goes_on (st : State) (i : nat) (data : Body) :
  awaiting st !! i = Some KPoll ->
  b_status data <> Some "error"%string ->
  (b_status data <> Some "completed"%string \/ b_progress data = None \/
   exists q, b_progress data = Some (Fin q) /\ (q <= 99 # 100)%Q) ->
  let st' := step st (Responded i (Json data)) in
  progress st' = progressValue_of data /\
  timers st' = timers st /\
  progressIntervalRef st' = progressIntervalRef st /\
  separating st' = separating st /\
  alerts st' = alerts st /\ console st' = console st /\
  requests st' = requests st.
Proof.
  intros Hi He Hc st'. unfold st'. cbn [step]. rewrite Hi.
  unfold poll_callback_response, pollProgress_response. cbv zeta.
  assert (E1 : has_status data "completed" && geb (progressValue_of data) (of_Z 100) = false).
  { destruct Hc as [Hc|[Hc|(q & Hc & Hq)]].
    - unfold has_status. now rewrite bool_decide_eq_false_2.
    - unfold progressValue_of. rewrite Hc. apply andb_false_r.
    - unfold progressValue_of. rewrite Hc.
      change (default NaN (Some (Fin q))) with (Fin q).
      rewrite percent_below by exact Hq. apply andb_false_r. }
  assert (E2 : has_status data "error" = false)
    by (unfold has_status; now rewrite bool_decide_eq_false_2).
  rewrite E1, E2. cbn. repeat split; reflexivity.
Qed.

(** X26.  The answer to the request that starts the separation: with the
    status ["processing"] the interval held before, if any, is cleared and
    one polling interval of 300 ms is armed and held by the reference;
    with any other answer, or none, the user is alerted once, the
    separating flag and the progress are reset, and timers and reference
    stay as they were. *)
Theorem handleUpload_answer (st : State) (i : nat) (r : Response) :
  awaiting st !! i = Some KStart ->
  let st' := step st (Responded i r) in
  (forall data, r = Json data -> b_status data = Some "processing"%string ->
   progressIntervalRef st' = Some (nextTimer st) /\
   timers st'
   = match progressIntervalRef st with
     | Some id => List.filter (fun t => negb (Pos.eqb (timer_id t) id)) (timers st)
     | None => timers st
     end
     ++ [ {| timer_id := nextTimer st; due := now st + 300; period := Some 300%nat;
             callback := CbPoll |} ] /\
   alerts st' = alerts st /\ separating st' = separating st) /\
  ((forall data, r = Json data -> b_status data <> Some "processing"%string) ->
   alerts st' = alerts st ++ ["Error starting separation"%string] /\
   separating st' = false /\ progress st' = of_Z 0 /\
   timers st' = timers st /\ progressIntervalRef st' = progressIntervalRef st).
Proof.
  intros Hi st'. unfold st'. cbn [step]. rewrite Hi. unfold handleUpload_response.
  cbv zeta. split.
  - intros data -> Hs. unfold has_status. rewrite bool_decide_eq_true_2 by exact Hs.
    unfold clear_progress_interval, setInterval, clearTimer.
    cbn [progressIntervalRef set_awaiting].
    destruct (progressIntervalRef st); cbn; repeat split; reflexivity.
  - intros Hn. destruct r as [| status | | data]; try (cbn; repeat split; reflexivity).
    unfold has_status. rewrite bool_decide_eq_false_2 by now apply Hn.
    cbn. repeat split; reflexivity.
Qed.

End Responses.

(** The theorems on the scenarios. *)
Lemma playMix_failure_witness :
  existsb (Nat.eqb 0) (Mixer.starting Scenario.unplayable_mix) = true /\
  Mixer.alerts
    (Mixer.run Scenario.unplayable_mix [Mixer.Errored 0; Mixer.PlaySettled 0 false])
  = [Mixer.error_alert; "Error playing mix"%string] /\
  length (Mixer.alerts
            (Mixer.run Scenario.unplayable_mix [Mixer.Errored 0; Mixer.PlaySettled 0 false]))
  = 2%nat.
Proof.
  split; [reflexivity|]. split; [reflexivity|].
  refine (proj1 (proj2 (proj2 (proj2 (playMix_failure Scenario.unplayable_mix 0
                                        Scenario.no_stems 0))) _ _ _ _ _)).
  - reflexivity.
  - eexists. reflexivity.
  - reflexivity.
  - left. reflexivity.
Defined.

Lemma poll_goes_on_witness :
  Mixer.awaiting Scenario.polling !! 1%nat = Some Mixer.KPoll /\
  Mixer.timers (Mixer.step Scenario.polling
                  (Mixer.Responded 1 Scenario.almost_completed))
  = Mixer.timers Scenario.polling.
Proof.
  split; [vm_compute; reflexivity|].
  refine (proj1 (proj2 (poll_goes_on Scenario.polling 1
                          {| Mixer.b_path := None;
                             Mixer.b_status := Some "completed"%string;
                             Mixer.b_progress := Some (Fin (99 # 100)) |} _ _ _))).
  - vm_compute. reflexivity.
  - discriminate.
  - right. right. exists (99 # 100)%Q. split; [reflexivity|]. apply Qle_refl.
Defined.

Lemma handleUpload_answer_witness :
  Mixer.awaiting Scenario.uploading !! 0%nat = Some Mixer.KStart /\
  Mixer.progressIntervalRef (Mixer.step Scenario.uploading (Mixer.Responded 0 Scenario.processing))
  = Some 1%positive.
Proof.
  split; [reflexivity|].
  refine (proj1 (proj1 (handleUpload_answer Scenario.uploading 0 Scenario.processing _)
                   {| Mixer.b_path := None;
                      Mixer.b_status := Some "processing"%string;
                      Mixer.b_progress := None |} _ _)); reflexivity.
Defined.

(** ** Slider edits while nothing plays *)
Section IdleEdits.

Import Mixer.

(** a status request is not a render request *)
Lemma play_watch_push (s : State) :
  play_watch (set_requests (requests s ++ [ProgressRequest]) s) = play_watch s.
Proof.
  unfold play_watch, mix_requests. cbn [requests set_requests playing paused].
  rewrite omap_app. cbn. now rewrite app_nil_r.
Qed.

Ltac unfold_mixer :=
  unfold playMix, playMix_response, playMix_played, playMix_failed, pauseMix,
    resumeMix, stopMix, onended, poll_callback_response, pollProgress_response,
    handleUpload, handleUpload_response, clear_progress_interval, canplaythrough,
    loadeddata, played, onerror, handleCanPlay_played, fallback, handleCanPlay, fade_tick,
    swap, updatePlayingAudio_response, updatePlayingAudio,
    setTimeout, setInterval, fetch, console_error, alert;
  cbv beta iota zeta; cbn [fst snd].

Ltac watch_steps :=
  repeat first
    [ apply tame_refl
    | apply tame_clearTimer; [reflexivity|]
    | apply tame_rearm; [reflexivity|]
    | apply tame_push; [reflexivity|reflexivity|]
    | match goal with
      | |- tame _ _ _ (?h ?a ?s) =>
          apply (tame_same _ _ _ s);
            [reflexivity | first [reflexivity | apply play_watch_push] |]
      | |- tame _ _ _ (if ?c then _ else _) => destruct c
      | |- tame _ _ _ (match ?o with Some _ => _ | None => _ end) => destruct o
      end ].

Lemma play_quiet_run_callback (cb : Callback) (st : State) :
  is_update cb = false -> is_autoplay cb = false ->
  tame is_update play_watch st (run_callback cb st).
Proof.
  destruct cb; try discriminate; intros _ _; cbn [run_callback];
    unfold_mixer; watch_steps.
Qed.

Lemma play_quiet_fire (t : Timer) (st : State) :
  is_update (callback t) = false -> is_autoplay (callback t) = false ->
  tame is_update play_watch st (fire t st).
Proof.
  intros Q Q'. unfold fire. destruct (is_pending _ _); [|apply tame_refl].
  eapply tame_trans; [|now apply play_quiet_run_callback].
  destruct (period t); watch_steps.
Qed.

Lemma play_quiet_tick (st : State) :
  no_update_pending st -> auto_play_done st -> tame is_update play_watch st (tick st).
Proof.
  intros I D. unfold tick. cbv zeta.
  assert (L : Forall (fun t => is_update (callback t) = false
                               /\ is_autoplay (callback t) = false)
                (List.filter (is_due (now (set_now (S (now st)) st)))
                   (timers (set_now (S (now st)) st)))).
  { unfold no_update_pending in I. unfold auto_play_done in D.
    rewrite List.Forall_forall in *.
    intros t Ht. apply filter_In in Ht as [Ht _]. split; [now apply I | now apply D]. }
  revert L. generalize (List.filter (is_due (now (set_now (S (now st)) st)))
                          (timers (set_now (S (now st)) st))). intros l L.
  assert (H : tame is_update play_watch st (set_now (S (now st)) st))
    by (split; [reflexivity | eauto]).
  revert H. generalize (set_now (S (now st)) st).
  induction L as [|t l [Q Q'] L IH]; intros s H; simpl; [exact H|].
  apply IH. eapply tame_trans; [exact H | now apply play_quiet_fire].
Qed.

Lemma no_update_pending_tame {X : Type} (obs : State -> X) (st st' : State) :
  no_update_pending st -> tame is_update obs st st' -> no_update_pending st'.
Proof.
  unfold no_update_pending. intros H [_ T]. rewrite List.Forall_forall in *.
  intros t' Ht'. destruct (is_update (callback t')) eqn:U; [|reflexivity].
  destruct (T t' Ht' U) as (t & Ht & _ & _ & C). rewrite <- C, (H t Ht) in U.
  discriminate.
Qed.

Lemma idle_step (st : State) (e : Event) :
  is_edit_or_tick e = true ->
  playing st && negb (paused st) = false -> no_update_pending st -> auto_play_done st ->
  (playing (step st e) && negb (paused (step st e)) = false /\
   no_update_pending (step st e) /\ auto_play_done (step st e)) /\
  mix_requests (step st e) = mix_requests st /\
  playing (step st e) = playing st /\ paused (step st e) = paused st.
Proof.
  intros He Hp Hn Hd.
  pose proof (auto_play_done_step st e Hd) as Hd'.
  destruct e; try discriminate; cbn [step] in *.
  - unfold handleChange in *. cbv zeta in *.
    cbn [playing paused audioRef set_gains] in *.
    rewrite Hp in *. cbn [andb] in *. repeat split; assumption.
  - pose proof (play_quiet_tick st Hn Hd) as T.
    assert (W : play_watch (tick st) = play_watch st) by apply T.
    injection W as W1 W2 W3. rewrite W1, W2, W3.
    repeat split; trivial. revert T. now apply no_update_pending_tame.
Qed.

(** X27.  While nothing plays, or the mix is paused, moving the sliders
    only changes the gains: as long as no timer that renders is pending --
    neither a debounced update nor the timeout of the [autoPlay] effect --
    no sequence of slider edits and passing time sends a render request or
    arms such a timer. *)
Theorem idle_edits_send_nothing (st : State) (es : list Event) :
  playing st && negb (paused st) = false ->
  no_update_pending st -> auto_play_done st ->
  forallb is_edit_or_tick es = true ->
  let st' := run st es in
  mix_requests st' = mix_requests st /\
  no_update_pending st' /\ auto_play_done st' /\
  playing st' = playing st /\ paused st' = paused st.
Proof.
  revert st. induction es as [|e es IH]; intros st Hp Hn Hd Hes; cbn [run fold_left].
  - repeat split; trivial.
  - cbn [forallb] in Hes. apply andb_prop in Hes as [He Hes].
    destruct (idle_step st e He Hp Hn Hd) as ((Hp' & Hn' & Hd') & Hm & P' & Q').
    destruct (IH (step st e) Hp' Hn' Hd' Hes) as (M & N & D & P & Q).
    unfold run in *. rewrite M, P, Q. repeat split; assumption.
Qed.

End IdleEdits.

(** The theorem on the stopped mix: three edits, one second apart. *)
Lemma idle_edits_send_nothing_witness :
  Mixer.playing Scenario.stopped_mix && negb (Mixer.paused Scenario.stopped_mix) = false /\
  Mixer.mix_requests
    (Mixer.run Scenario.stopped_mix
       ([Mixer.Change Mixer.Vocals 3] ++ repeat Mixer.Tick 1000
        ++ [Mixer.Change Mixer.Drums (-2)] ++ repeat Mixer.Tick 1000
        ++ [Mixer.Change Mixer.Bass 1]))
  = Mixer.mix_requests Scenario.stopped_mix.
Proof.
  split; [reflexivity|].
  refine (proj1 (idle_edits_send_nothing Scenario.stopped_mix
                   ([Mixer.Change Mixer.Vocals 3] ++ repeat Mixer.Tick 1000
                    ++ [Mixer.Change Mixer.Drums (-2)] ++ repeat Mixer.Tick 1000
                    ++ [Mixer.Change Mixer.Bass 1]) _ _ _ _)).
  - reflexivity.
  - vm_compute. constructor.
  - vm_compute. constructor.
  - vm_compute. reflexivity.
Defined.

(** Without the second condition the property fails: on the mixer opened
    from the song list the timeout of the [autoPlay] effect is pending, and
    while the sliders are moved it sends the render request of [playMix],
    with the gains of the saved song, not those just set. *)
Example auto_play_during_idle_edits :
  let st := Scenario.song_selected in
  let es := ([Mixer.Change Mixer.Vocals 3] ++ repeat Mixer.Tick 60)%list in
  Mixer.playing st = false /\
  Mixer.mix_requests st = [] /\
  Mixer.gains (Mixer.run st es)
  = {| vocals := of_Z 3; drums := of_Z 0; bass := of_Z 0; other := of_Z 0 |} /\
  Mixer.mix_requests (Mixer.run st es)
  = [ {| vocals := of_Z 6; drums := of_Z 0; bass := of_Z 0; other := of_Z 0 |} ].
Proof. cbv zeta. repeat split; vm_compute; reflexivity. Qed.

(** ** One timer of each kind *)
Section Timers.

Import Mixer.

Lemma fresh_same (s s' : State) :
  timers s' = timers s -> nextTimer s' = nextTimer s ->
  timers_fresh s -> timers_fresh s'.
Proof. unfold timers_fresh. now intros -> ->. Qed.

Lemma fresh_clearTimer (id : positive) (s : State) :
  timers_fresh s -> timers_fresh (clearTimer id s).
Proof.
  intros [N F]. split; cbn.
  - clear F. induction (timers s) as [|t l IH]; [constructor|].
    cbn in *. apply NoDup_cons in N as [Ht N].
    destruct (negb _); [|now apply IH].
    cbn. apply NoDup_cons. split; [|now apply IH].
    intros H. apply Ht. apply list_elem_of_fmap in H as (y & E & Hy).
    apply list_elem_of_fmap. exists y. split; [exact E|].
    revert Hy. rewrite !list_elem_of_In. intros Hy. now apply filter_In in Hy.
  - rewrite List.Forall_forall in *. intros t Ht. apply filter_In in Ht as [Ht _].
    now apply F.
Qed.

Lemma fresh_rearm (id : positive) (s : State) :
  timers_fresh s -> timers_fresh (rearm id s).
Proof.
  intros [N F]. split; cbn.
  - rewrite map_map. erewrite map_ext; [exact N|].
    intros t. destruct (period t); [destruct (timer_id t =? id)%positive|]; reflexivity.
  - rewrite List.Forall_forall in *. intros t' Ht'.
    apply in_map_iff in Ht' as (t & <- & Ht). specialize (F t Ht).
    destruct (period t); [destruct (timer_id t =? id)%positive|]; exact F.
Qed.

Lemma fresh_push (t : Timer) (s : State) :
  timer_id t = nextTimer s -> timers_fresh s ->
  timers_fresh (set_nextTimer (Pos.succ (nextTimer s)) (set_timers (timers s ++ [t]) s)).
Proof.
  intros E [N F]. split; cbn.
  - rewrite map_app. cbn. apply NoDup_app. split; [exact N|]. split; [|apply NoDup_singleton].
    intros x Hx Hx'. apply list_elem_of_singleton in Hx'. subst x.
    apply list_elem_of_fmap in Hx as (y & Ey & Hy). rewrite list_elem_of_In in Hy.
    rewrite List.Forall_forall in F. specialize (F y Hy). lia.
  - apply Forall_app. split.
    + rewrite List.Forall_forall in *. intros y Hy. specialize (F y Hy). lia.
    + repeat constructor. lia.
Qed.

Ltac fresh_steps :=
  repeat first
    [ assumption
    | apply fresh_push; [reflexivity|]
    | apply fresh_clearTimer
    | apply fresh_rearm
    | match goal with
      | |- timers_fresh (?h ?a ?s) => apply (fresh_same s); [reflexivity | reflexivity |]
      | |- timers_fresh (if ?c then _ else _) => destruct c
      | |- timers_fresh (match ?o with Some _ => _ | None => _ end) => destruct o
      end ].

Ltac unfold_mixer :=
  unfold playMix, playMix_response, playMix_played, playMix_failed, pauseMix,
    resumeMix, stopMix, onended, poll_callback_response, pollProgress_response,
    handleUpload, handleUpload_response, clear_progress_interval, canplaythrough,
    loadeddata, played, onerror, handleCanPlay_played, fallback, handleCanPlay, fade_tick,
    swap, updatePlayingAudio_response, updatePlayingAudio,
    setTimeout, setInterval, fetch, console_error, alert;
  cbv beta iota zeta; cbn [fst snd].

Lemma fresh_run_callback (cb : Callback) (st : State) :
  timers_fresh st -> timers_fresh (run_callback cb st).
Proof. intros H. destruct cb; cbn [run_callback]; unfold_mixer; fresh_steps. Qed.

Lemma fresh_fire (t : Timer) (st : State) : timers_fresh st -> timers_fresh (fire t st).
Proof.
  intros H. unfold fire. destruct (is_pending _ _); [|exact H].
  apply fresh_run_callback. destruct (period t); fresh_steps.
Qed.

Lemma fresh_tick (st : State) : timers_fresh st -> timers_fresh (tick st).
Proof.
  intros H. unfold tick. cbv zeta.
  set (l := List.filter _ _). clearbody l.
  assert (H' : timers_fresh (set_now (S (now st)) st)) by exact H.
  revert H'. generalize (set_now (S (now st)) st).
  induction l as [|t l IH]; intros s Hs; simpl; [exact Hs|].
  apply IH. now apply fresh_fire.
Qed.

Lemma fresh_poll_callback_response (r : Response) (st : State) :
  timers_fresh st -> timers_fresh (poll_callback_response r st).
Proof.
  intros H. unfold poll_callback_response, pollProgress_response.
  destruct r as [| status | | data]; cbv beta iota zeta; cbn [negb];
    try (now unfold_mixer; fresh_steps).
  destruct (_ && _); [|destruct (has_status _ _)];
    cbn [negb]; unfold_mixer; fresh_steps.
Qed.

(** Every handler keeps the identifiers of the timers distinct. *)
Lemma fresh_step (st : State) (e : Event) : timers_fresh st -> timers_fresh (step st e).
Proof.
  intros H. destruct e; cbn [step];
    try (unfold handleChange; unfold_mixer; fresh_steps; fail).
  - now apply fresh_tick.
  - destruct (awaiting st !! i) as [k|]; [|exact H].
    assert (H' : timers_fresh (set_awaiting (delete i (awaiting st)) st)) by exact H.
    revert H'. generalize (set_awaiting (delete i (awaiting st)) st). intros s Hs.
    destruct k; [| |now apply fresh_poll_callback_response|];
      destruct r; unfold_mixer; fresh_steps.
Qed.

Lemma fresh_reachable (initialGains : option GainSettings) (autoPlay : bool)
    (es : list Event) :
  timers_fresh (run (mount initialGains autoPlay) es).
Proof.
  assert (H : timers_fresh (mount initialGains autoPlay)).
  { destruct autoPlay; [|split; constructor]. split; cbn.
    - apply NoDup_singleton.
    - repeat constructor. }
  revert H. generalize (mount initialGains autoPlay).
  induction es as [|e es IH]; intros st H; [exact H|].
  apply (IH (step st e)). now apply fresh_step.
Qed.

(** Among timers with distinct identifiers at most one has a given
    identifier. *)
Lemma at_most_one (P : Timer -> bool) (c : positive) (l : list Timer) :
  NoDup (map timer_id l) ->
  (forall t, In t l -> P t = true -> timer_id t = c) ->
  (length (List.filter P l) <= 1)%nat.
Proof.
  induction l as [|x l IH]; intros N H; [simpl; lia|].
  cbn in N. apply NoDup_cons in N as [Hx N]. cbn [List.filter].
  destruct (P x) eqn:Px.
  - assert (E : List.filter P l = []).
    { destruct (List.filter P l) as [|y k] eqn:F; [reflexivity|]. exfalso.
      assert (Hy : In y (List.filter P l)) by (rewrite F; now left).
      apply filter_In in Hy as [Hy Py]. apply Hx.
      apply list_elem_of_fmap. exists y. split; [|now apply list_elem_of_In].
      rewrite (H x) by (trivial; now left). symmetry. apply H; [now right | exact Py]. }
    rewrite E. simpl. lia.
  - apply IH; [exact N|]. intros t Ht. apply H. now right.
Qed.

(** X28.  Whatever happened since the mixer was mounted, at most one
    polling interval and at most one debounced update are pending, and no
    two pending timers share an identifier. *)
Theorem one_timer_of_each_kind (initialGains : option GainSettings) (autoPlay : bool)
    (history : list Event) :
  let st := run (mount initialGains autoPlay) history in
  (length (pending is_poll st) <= 1)%nat /\
  (length (pending is_update st) <= 1)%nat /\
  NoDup (map timer_id (timers st)).
Proof.
  intros st.
  destruct (fresh_reachable initialGains autoPlay history) as [N _]. fold st in N.
  pose proof (poll_ok_reachable initialGains autoPlay history) as P. fold st in P.
  pose proof (debounce_ok_reachable initialGains autoPlay history) as D. fold st in D.
  unfold poll_ok in P. unfold debounce_ok in D. rewrite List.Forall_forall in P, D.
  split; [|split; [|exact N]]; unfold pending.
  - destruct (progressIntervalRef st) as [c|] eqn:R.
    + apply (at_most_one _ c); [exact N|]. intros t Ht Pt.
      specialize (P t Ht Pt). congruence.
    + apply (at_most_one _ 1%positive); [exact N|]. intros t Ht Pt.
      specialize (P t Ht Pt). congruence.
  - destruct (updateTimeoutRef st) as [c|] eqn:R.
    + apply (at_most_one _ c); [exact N|]. intros t Ht Pt.
      destruct (D t Ht Pt) as [E _]. congruence.
    + apply (at_most_one _ 1%positive); [exact N|]. intros t Ht Pt.
      destruct (D t Ht Pt) as [E _]. congruence.
Qed.

End Timers.

(** ** From the song list back to the mixer *)
Section Restore.

Import AudioFeatures SaveMix Navigation.

Variable toString : num -> string.

(** X23.  The gains of a saved mix come back when the song is selected:
    for the song that [handleSave] passes for the gains [g],
    [handleSongSelect] opens the mixer tab with auto-play, and the mixer
    mounted with the gains it hands over shows [g] again.  A song without
    gains, saved by an older version, is refused with an alert, and tab,
    gains and auto-play stay as they were. *)
Theorem saved_gains_are_restored (name : string) (g : GainSettings)
    (audioFeatures : option Features) (old : Song) (st : State) :
  (exists song,
     handleSave toString (Some name) g audioFeatures = Some song /\
     let st' := handleSongSelect song st in
     tab st' = "mixer"%string /\ autoPlayMix st' = true /\ alerts st' = alerts st /\
     Mixer.gains (mixer st') = g) /\
  (gains old = None ->
   let st' := handleSongSelect old st in
   alerts st' = alerts st ++ ["Cannot play: Gain settings not found."%string] /\
   tab st' = tab st /\ mixerGains st' = mixerGains st /\ autoPlayMix st' = autoPlayMix st).
Proof.
  split.
  - eexists. split; [reflexivity|]. cbn. repeat split; reflexivity.
  - intros H. unfold handleSongSelect. rewrite H. cbn. repeat split; reflexivity.
Qed.

End Restore.

Lemma saved_gains_are_restored_witness :
  gains Scenario.old_song = None /\
  Navigation.alerts (Navigation.handleSongSelect Scenario.old_song Navigation.selected)
  = ["Cannot play: Gain settings not found."%string].
Proof.
  split; [reflexivity|].
  refine (proj1 (proj2 (saved_gains_are_restored Scenario.render_number "track.mp3"
                          {| vocals := of_Z 6; drums := of_Z 0;
                             bass := of_Z 0; other := of_Z 0 |}
                          None Scenario.old_song Navigation.selected) _)).
  reflexivity.
Defined.

(** ** What [predict] returns *)
Section Prediction.

Import AudioFeatures UserPreferenceModel.

Variable tanhQ : Q -> Q.

(** X16.  [predict] on an initialised model that holds a network.  An
    input that has not 23 entries makes [model.predict] throw, and
    [predict] with it.  On an input of 23 entries [predict] returns, and
    whenever the four outputs of the network are numbers (an infinity
    included, NaN excluded) the gains are four integers between -24 and
    12. *)
Theorem predict_numbers_are_clamped (draw : Draw) (self : Model) (env : Env)
    (m : Sequential) (x : list num) :
  isInitialized self = true -> model self = Some m ->
  (length x <> inputSize -> predict tanhQ draw self env x = (self, env, None)) /\
  (length x = inputSize ->
   exists g, predict tanhQ draw self env x = (self, env, Some g) /\
             g = gains_of_values (forward tanhQ m x)) /\
  (length x = inputSize ->
   (forall i, (i < outputSize)%nat -> at_index (forward tanhQ m x) i <> NaN) ->
   exists v d b o : Z,
     predict tanhQ draw self env x
     = (self, env,
        Some {| vocals := of_Z v; drums := of_Z d; bass := of_Z b; other := of_Z o |}) /\
     Forall (fun z => -24 <= z <= 12) [v; d; b; o]).
Proof.
  intros Hi Hm. unfold predict, model_predict. rewrite Hi, Hm.
  split; [|split].
  - intros Hx. now destruct (Nat.eqb_spec (length x) inputSize).
  - intros ->. rewrite Nat.eqb_refl. eexists. split; reflexivity.
  - intros -> N. rewrite Nat.eqb_refl. cbn [fmap option_fmap option_map].
    set (values := forward tanhQ m x) in *. unfold outputSize in N.
    destruct (gain_in_range values 0 (N 0%nat ltac:(lia))) as (v & Ev & Hv0).
    destruct (gain_in_range values 1 (N 1%nat ltac:(lia))) as (d & Ed & Hd0).
    destruct (gain_in_range values 2 (N 2%nat ltac:(lia))) as (b & Eb & Hb0).
    destruct (gain_in_range values 3 (N 3%nat ltac:(lia))) as (o & Eo & Ho0).
    exists v, d, b, o. unfold gains_of_values. rewrite Ev, Ed, Eb, Eo.
    split; [reflexivity|]. repeat constructor; lia.
Qed.

End Prediction.

(** The theorem for Alex, on a vector of three entries. *)
Lemma predict_numbers_are_clamped_witness :
  UserPreferenceModel.isInitialized Scenario.alex_model = true /\
  length Scenario.short_clip <> UserPreferenceModel.inputSize /\
  UserPreferenceModel.predict Scenario.softsign Scenario.draw0 Scenario.alex_model
    Scenario.env0 Scenario.short_clip
  = (Scenario.alex_model, Scenario.env0, None).
Proof.
  split; [reflexivity|].
  assert (H : length Scenario.short_clip <> UserPreferenceModel.inputSize) by discriminate.
  split; [exact H|].
  refine (proj1 (predict_numbers_are_clamped Scenario.softsign Scenario.draw0
                   Scenario.alex_model Scenario.env0
                   (UserPreferenceModel.createModel Scenario.draw0)
                   Scenario.short_clip _ _) H); reflexivity.
Defined.

(** ** A selected song plays by itself *)
Section AutoPlay.

Import Mixer.

Lemma auto_playing_step (g : GainSettings) (k : nat) (st : State) (e : Event) :
  is_edit_or_tick e = true -> auto_playing g k st ->
  auto_playing g (k + elapsed [e]) (step st e).
Proof.
  intros He (P & N & T). destruct e; try discriminate; cbn [step].
  - change (elapsed [Change key val]) with 0%nat. rewrite Nat.add_0_r.
    unfold handleChange. cbv zeta. cbn [playing paused audioRef set_gains].
    rewrite P. cbn [andb]. repeat split; assumption.
  - change (elapsed [Tick]) with 1%nat. rewrite Nat.add_1_r. unfold auto_playing.
    destruct (Nat.ltb_spec k 100) as [Hk|Hk].
    + destruct T as [T R].
      destruct (Nat.ltb_spec (S k) 100) as [Hk'|Hk'].
      * rewrite tick_idle by (rewrite T, N; constructor; [cbn; lia | constructor]).
        cbn. rewrite T, R. repeat split; trivial. now rewrite N.
      * assert (k = 99%nat) by lia. subst k.
        rewrite (tick_single _ st T) by (cbn; lia).
        unfold fire, is_pending. cbn [timers set_now timer_id period callback auto_play_timer].
        rewrite T. cbn [existsb timer_id auto_play_timer Pos.eqb orb run_callback].
        unfold fetch, clearTimer. cbn. rewrite T, R. cbn. repeat split; trivial.
    + destruct T as [T R].
      destruct (Nat.ltb_spec (S k) 100) as [Hk'|Hk']; [lia|].
      rewrite tick_idle by (rewrite T; constructor).
      cbn. rewrite T, R. repeat split; trivial. now rewrite N.
Qed.

Lemma elapsed_cons (e : Event) (es : list Event) :
  elapsed (e :: es) = (elapsed [e] + elapsed es)%nat.
Proof. unfold elapsed. cbn [List.filter]. now destruct e. Qed.

Lemma auto_playing_run (g : GainSettings) (es : list Event) (k : nat) (st : State) :
  forallb is_edit_or_tick es = true -> auto_playing g k st ->
  auto_playing g (k + elapsed es) (run st es).
Proof.
  revert k st. induction es as [|e es IH]; intros k st Hes I.
  - change (elapsed []) with 0%nat. now rewrite Nat.add_0_r.
  - cbn [forallb] in Hes. apply andb_prop in Hes as [He Hes].
    rewrite elapsed_cons, Nat.add_assoc. cbn [run fold_left].
    apply (IH _ (step st e) Hes). now apply auto_playing_step.
Qed.

End AutoPlay.

(** X29.  A mixer mounted with [autoPlay] plays by itself, once, the
    gains it was mounted with.  Whatever the sliders do in the meantime,
    no render request leaves during the first 100 ms, and from then on
    exactly one has left: it carries the gains of the mount, not the
    gains that the sliders show, and the timeout is gone.  So the song
    selected in the list is rendered with its saved gains. *)
Theorem auto_play_sends_mounted_gains (initialGains : option GainSettings)
    (es : list Mixer.Event) (song : Song) (nav : Navigation.State) :
  forallb Mixer.is_edit_or_tick es = true ->
  let g := default {| vocals := of_Z 0; drums := of_Z 0; bass := of_Z 0; other := of_Z 0 |}
             initialGains in
  let st := Mixer.run (Mixer.mount initialGains true) es in
  ((Mixer.elapsed es < 100)%nat ->
   Mixer.mix_requests st = [] /\ ~ Mixer.auto_play_done st) /\
  ((100 <= Mixer.elapsed es)%nat ->
   Mixer.mix_requests st = [g] /\ Mixer.auto_play_done st) /\
  Mixer.playing st = false /\
  (forall saved, gains song = Some saved -> (100 <= Mixer.elapsed es)%nat ->
     Mixer.mix_requests
       (Mixer.run (Navigation.mixer (Navigation.handleSongSelect song nav)) es)
     = [saved]).
Proof.
  intros Hes g st.
  assert (I : forall ig,
            Mixer.auto_playing
              (default {| vocals := of_Z 0; drums := of_Z 0; bass := of_Z 0; other := of_Z 0 |} ig)
              (Mixer.elapsed es) (Mixer.run (Mixer.mount ig true) es)).
  { intros ig. apply (auto_playing_run _ es 0 (Mixer.mount ig true) Hes). now repeat split. }
  destruct (I initialGains) as (P & N & T). fold g st in P, N, T.
  split; [|split; [|split]].
  - intros Hk. destruct (Nat.ltb_spec (Mixer.elapsed es) 100); [|lia]. destruct T as [T R].
    unfold Mixer.mix_requests, Mixer.auto_play_done. rewrite R, T. split; [reflexivity|].
    intros D. inversion D as [|? ? H1 _]. discriminate H1.
  - intros Hk. destruct (Nat.ltb_spec (Mixer.elapsed es) 100); [lia|]. destruct T as [T R].
    unfold Mixer.mix_requests, Mixer.auto_play_done. rewrite R, T.
    split; [reflexivity | constructor].
  - exact P.
  - intros saved Hs Hk. unfold Navigation.mixer, Navigation.handleSongSelect. rewrite Hs.
    cbn [Navigation.mixerGains Navigation.autoPlayMix].
    destruct (I (Some saved)) as (_ & _ & T').
    destruct (Nat.ltb_spec (Mixer.elapsed es) 100); [lia|]. destruct T' as [_ R'].
    unfold Mixer.mix_requests. now rewrite R'.
Qed.

(** The theorem on the song of Alex: the sliders are moved 50 ms after the
    mixer opened, and 100 ms later one request has left, for the saved
    gains. *)
Lemma auto_play_sends_mounted_gains_witness :
  forallb Mixer.is_edit_or_tick
    (repeat Mixer.Tick 50 ++ [Mixer.Change Mixer.Vocals (-3)] ++ repeat Mixer.Tick 100) = true /\
  gains Scenario.alex_mix
  = Some {| vocals := of_Z 6; drums := of_Z 0; bass := of_Z 0; other := of_Z 0 |} /\
  Mixer.mix_requests
    (Mixer.run (Navigation.mixer (Navigation.handleSongSelect Scenario.alex_mix
                                    Navigation.selected))
       (repeat Mixer.Tick 50 ++ [Mixer.Change Mixer.Vocals (-3)] ++ repeat Mixer.Tick 100))
  = [ {| vocals := of_Z 6; drums := of_Z 0; bass := of_Z 0; other := of_Z 0 |} ].
Proof.
  assert (H : forallb Mixer.is_edit_or_tick
                (repeat Mixer.Tick 50 ++ [Mixer.Change Mixer.Vocals (-3)]
                 ++ repeat Mixer.Tick 100) = true) by (vm_compute; reflexivity).
  split; [exact H|]. split; [reflexivity|].
  refine (proj2 (proj2 (proj2 (auto_play_sends_mounted_gains None _ Scenario.alex_mix
                                 Navigation.selected H))) _ eq_refl _).
  apply Nat.leb_le. vm_compute. reflexivity.
Defined.
